(** * Agentic development team: permission engine, cost tracker, team manager

    A shallow embedding of three TypeScript classes of the repository:

    - [PermissionManager] (agentic-dev-team/src/security/PermissionManager.ts):
      rule parsing, per-tool pattern matching, the deny / allow / ask /
      default precedence and the audit log;
    - [CostTracker] (agentic-dev-team/src/utils/CostTracker.ts): cost
      computation, usage aggregation and the deduplicating ledger;
    - [TeamManager] (agentic-dev-team/src/core/TeamManager.ts): the live
      session table, member selection, task execution and the parallel entry
      point.

    and, built on them, of the entry points of [AgenticDevTeam]
    (agentic-dev-team/src/index.ts), of the permission rules of the shipped
    configuration (agentic-dev-team/src/config/team-config.ts) and of the
    security-audit hook of [HookManager]
    (agentic-dev-team/src/hooks/HookManager.ts).

    JavaScript numbers are IEEE 754 binary64 values and are modelled by Rocq's
    primitive floats.  JavaScript strings are modelled by [string], that is by
    sequences of 8-bit code units.  A thrown exception is a value of the error
    monad [Exc].  The clock, the random identifiers and the execution engine
    are inputs of the operations that consult them. *)

From Stdlib Require Import Floats ZArith String Ascii List Bool Lia.
From stdpp Require Import gmap strings list.

Set Warnings "-inexact-float,-register-all,-clear-no-such-hyp".
Set Default Proof Using "Type".

Local Open Scope string_scope.

(** ** JavaScript values and exceptions *)

Module Js.

Inductive JsValue : Type :=
| JsUndefined
| JsNull
| JsBool (b : bool)
| JsNumber (n : float)
| JsString (s : string)
| JsArray (items : list JsValue)
| JsObject (props : list (string * JsValue)).

Record JsError : Type := mkError { err_name : string; err_message : string }.

Definition TypeError (msg : string) : JsError := mkError "TypeError" msg.
Definition SyntaxError (msg : string) : JsError := mkError "SyntaxError" msg.

(** The result of a computation that may throw. *)
Inductive Exc (A : Type) : Type :=
| Ok (a : A)
| Throw (e : JsError).
Arguments Ok {A} a.
Arguments Throw {A} e.

#[export] Instance exc_ret : MRet Exc := fun A a => Ok a.
#[export] Instance exc_bind : MBind Exc := fun A B f m =>
  match m with
  | Ok a => f a
  | Throw e => Throw e
  end.

(** [!x] is [negb (truthy x)]. *)
Definition float_truthy (n : float) : bool :=
  negb (PrimFloat.is_nan n || PrimFloat.is_zero n).

Definition truthy (v : JsValue) : bool :=
  match v with
  | JsUndefined | JsNull => false
  | JsBool b => b
  | JsNumber n => float_truthy n
  | JsString s => negb (String.eqb s "")
  | JsArray _ | JsObject _ => true
  end.

Fixpoint assoc (k : string) (props : list (string * JsValue)) : JsValue :=
  match props with
  | [] => JsUndefined
  | (k', v) :: rest => if String.eqb k k' then v else assoc k rest
  end.

(** [v.k] for a data property name [k] that no prototype defines
    ([command], [file_path], [url]): reading it from [undefined] or [null]
    throws, an object yields its own property, any other value yields
    [undefined]. *)
Definition getProp (v : JsValue) (k : string) : Exc JsValue :=
  match v with
  | JsUndefined =>
      Throw (TypeError ("Cannot read properties of undefined (reading '" ++ k ++ "')"))
  | JsNull =>
      Throw (TypeError ("Cannot read properties of null (reading '" ++ k ++ "')"))
  | JsObject props => Ok (assoc k props)
  | _ => Ok JsUndefined
  end.

(** *** String methods *)

(** [s.startsWith(p)] *)
Fixpoint startsWith (s p : string) {struct p} : bool :=
  match p, s with
  | EmptyString, _ => true
  | String _ _, EmptyString => false
  | String b p', String a s' => Ascii.eqb a b && startsWith s' p'
  end.

(** [s.endsWith(suf)] *)
Fixpoint endsWith (s suf : string) : bool :=
  String.eqb s suf ||
  match s with
  | EmptyString => false
  | String _ s' => endsWith s' suf
  end.

(** [s.includes(sub)] *)
Fixpoint includes (s sub : string) : bool :=
  startsWith s sub ||
  match s with
  | EmptyString => false
  | String _ s' => includes s' sub
  end.

(** [s.slice(0, -n)] *)
Definition sliceEnd (s : string) (n : nat) : string :=
  String.substring 0 (String.length s - n) s.

(** [s.replace(/c/g, by)] for a single character [c]. *)
Fixpoint replaceAll (c : ascii) (by_ : string) (s : string) : string :=
  match s with
  | EmptyString => EmptyString
  | String a s' =>
      if Ascii.eqb a c then by_ ++ replaceAll c by_ s'
      else String a (replaceAll c by_ s')
  end.

(** [s.split(' ')[0]] *)
Fixpoint firstWord (s : string) : string :=
  match s with
  | EmptyString => EmptyString
  | String a s' => if Ascii.eqb a " " then EmptyString else String a (firstWord s')
  end.

(** [s.toLowerCase()] on 8-bit code units: A-Z and the Latin-1 capitals. *)
Definition lowerChar (a : ascii) : ascii :=
  let n := nat_of_ascii a in
  if ((65 <=? n) && (n <=? 90) || (192 <=? n) && (n <=? 222) && negb (n =? 215))%nat
  then ascii_of_nat (n + 32) else a.

Fixpoint toLowerCase (s : string) : string :=
  match s with
  | EmptyString => EmptyString
  | String a s' => String (lowerChar a) (toLowerCase s')
  end.

(** [xs.includes(x)] on an array of strings. *)
Definition arrayIncludes (xs : list string) (x : string) : bool :=
  existsb (String.eqb x) xs.

(** [xs.join(', ')] *)
Fixpoint join (sep : string) (xs : list string) : string :=
  match xs with
  | [] => ""
  | [x] => x
  | x :: rest => x ++ sep ++ join sep rest
  end.

(** *** Regular expressions

    Regular expression literals of the source are given as terms of [re] and
    run by derivatives.  [test] only asks whether some match exists, which a
    backtracking engine and the language of the expression agree on. *)

Inductive re : Type :=
| Void
| Eps
| Sym (p : ascii -> bool)
| Cat (a b : re)
| Alt (a b : re)
| Star (a : re).

Fixpoint nullable (r : re) : bool :=
  match r with
  | Void => false
  | Eps => true
  | Sym _ => false
  | Cat a b => nullable a && nullable b
  | Alt a b => nullable a || nullable b
  | Star _ => true
  end.

Fixpoint deriv (c : ascii) (r : re) : re :=
  match r with
  | Void | Eps => Void
  | Sym p => if p c then Eps else Void
  | Cat a b =>
      if nullable a then Alt (Cat (deriv c a) b) (deriv c b)
      else Cat (deriv c a) b
  | Alt a b => Alt (deriv c a) (deriv c b)
  | Star a => Cat (deriv c a) (Star a)
  end.

Fixpoint fullMatch (r : re) (s : string) : bool :=
  match s with
  | EmptyString => nullable r
  | String c s' => fullMatch (deriv c r) s'
  end.

Definition Plus (r : re) : re := Cat r (Star r).
Definition chr (a : ascii) : re := Sym (Ascii.eqb a).

Fixpoint lit (s : string) : re :=
  match s with
  | EmptyString => Eps
  | String a s' => Cat (chr a) (lit s')
  end.

(** [\s] on 8-bit code units: TAB, LF, VT, FF, CR, space, NBSP. *)
Definition isSpace (a : ascii) : bool :=
  let n := nat_of_ascii a in
  ((9 <=? n) && (n <=? 13) || (n =? 32) || (n =? 160))%nat.

(** [.] matches everything but the line terminators LF and CR. *)
Definition isDot (a : ascii) : bool :=
  let n := nat_of_ascii a in negb ((n =? 10) || (n =? 13))%nat.

Definition ws : re := Sym isSpace.
Definition dot : re := Sym isDot.
Definition anyChar : re := Sym (fun _ => true).

(** A compiled expression: [^] and [$] are recorded as flags. *)
Record RegExp : Type := mkRegExp {
  anchoredStart : bool;
  body : re;
  anchoredEnd : bool
}.

(** [regex.test(s)] *)
Definition test (r : RegExp) (s : string) : bool :=
  fullMatch
    (Cat (if anchoredStart r then Eps else Star anyChar)
       (Cat (body r) (if anchoredEnd r then Eps else Star anyChar))) s.

(** *** The part of the runtime that is taken as given

    [RegExp_test src s] is [new RegExp(src).test(s)]: it throws a
    [SyntaxError] when [src] is not a regular expression.  [JSON_stringify]
    is [JSON.stringify] on plain data ([None] stands for its [undefined]
    result) and [ToString] is the string conversion applied by [test] to an
    argument that is not a string.  The conversion is taken to return: on an
    object whose own [toString] is not callable JavaScript throws instead,
    a case that is left out. *)
Class Runtime : Type := {
  RegExp_test : string -> string -> Exc bool;
  JSON_stringify : JsValue -> option string;
  ToString : JsValue -> string
}.

(** The string a built-in sees when handed [v] where a string is expected. *)
Definition asString `{Runtime} (v : JsValue) : string :=
  match v with
  | JsString s => s
  | _ => ToString v
  end.

End Js.

Import Js.

(** ** PermissionManager (agentic-dev-team/src/security/PermissionManager.ts) *)

Module PermissionManager.

Record PermissionRules : Type := mkRules {
  allow : list string;
  deny : list string;
  ask : list string
}.

Inductive Priority : Type := low | medium | high | critical.

Record PermissionContext : Type := mkContext {
  toolName : string;
  input : JsValue;
  memberId : option string;
  sessionId : option string;
  priority : option Priority
}.

Inductive Behavior : Type := Allow | Deny.

Record PermissionResult : Type := mkResult {
  behavior : Behavior;
  updatedInput : option JsValue;
  message : option string;
  interrupt : option bool
}.

Record AuditEntry : Type := mkAudit {
  timestamp : Z;
  context : PermissionContext;
  result : PermissionResult;
  reason : string
}.

(** The [options] argument of the permission handler. *)
Record HandlerOptions : Type := mkOptions {
  opt_memberId : option string;
  opt_sessionId : option string;
  opt_priority : option Priority
}.

(** [s] cut at the first character satisfying [stop]. *)
Fixpoint span (stop : ascii -> bool) (s : string) : string * string :=
  match s with
  | EmptyString => (EmptyString, EmptyString)
  | String a s' =>
      if stop a then (EmptyString, s)
      else let '(l, r) := span stop s' in (String a l, r)
  end.

(** [rule.match] against the rule format expression: the tool name is the
    longest run of characters other than an opening parenthesis and must not
    be empty; what follows is nothing, or a parenthesised pattern that holds
    no closing parenthesis and ends the rule.  The second component is the
    pattern group, [None] when the group did not take part in the match. *)
Definition parseRule (rule : string) : option (string * option string) :=
  let '(name, rest) := span (Ascii.eqb "(") rule in
  match name, rest with
  | EmptyString, _ => None
  | _, EmptyString => Some (name, None)
  | _, String _ inner =>
      let '(pat, close) := span (Ascii.eqb ")") inner in
      if String.eqb close ")" then Some (name, Some pat) else None
  end.

(** The regular expression literals of [dangerousPatterns]. *)
Definition dangerousPatterns : list RegExp :=
  [ (* /^rm\s+-rf\s+\// *)
    mkRegExp true
      (Cat (lit "rm") (Cat (Plus ws) (Cat (lit "-rf") (Cat (Plus ws) (lit "/")))))
      false;
    (* /curl.*\|\s*sh/ *)
    mkRegExp false
      (Cat (lit "curl") (Cat (Star dot) (Cat (lit "|") (Cat (Star ws) (lit "sh")))))
      false;
    (* /wget.*\|\s*sh/ *)
    mkRegExp false
      (Cat (lit "wget") (Cat (Star dot) (Cat (lit "|") (Cat (Star ws) (lit "sh")))))
      false;
    (* /sudo\s+rm/ *)
    mkRegExp false (Cat (lit "sudo") (Cat (Plus ws) (lit "rm"))) false;
    (* /dd\s+if=/ *)
    mkRegExp false (Cat (lit "dd") (Cat (Plus ws) (lit "if="))) false;
    (* /:\(\)\{ :\|:& \};:/ *)
    mkRegExp false (lit ":(){ :|:& };:") false ].

Definition criticalPatterns : list string :=
  ["Bash(rm -rf"; "Bash(dangerous)"; "Write(.env)"; "Write(./secrets/"].

Definition isCriticalRule (rule : string) : bool :=
  existsb (fun pattern => includes rule pattern) criticalPatterns.

Definition safeDevelopmentTools : list string :=
  ["Read"; "Grep"; "Glob"; "TodoWrite"; "ListMcpResources"; "ReadMcpResource"].

Definition editingTools : list string := ["Write"; "Edit"; "MultiEdit"].

Definition safeCommands : list string :=
  ["ls"; "pwd"; "echo"; "cat"; "head"; "tail"; "grep"; "find"].

(** [pattern.replace(/\./g, '\\.').replace(/\*/g, '.*').replace(/\?/g, '.')]
    between [^] and [$]: the source of the expression [globToRegex] builds. *)
Definition globToRegex (pattern : string) : string :=
  "^" ++ replaceAll "?" "." (replaceAll "*" ".*" (replaceAll "." "\." pattern)) ++ "$".

Section WithRuntime.
Context `{Runtime}.

Definition matchesBashRule (pattern : string) (command : JsValue) : Exc bool :=
  if negb (truthy command) then Ok false
  else if endsWith pattern ":*" then
    match command with
    | JsString c => Ok (startsWith c (sliceEnd pattern 2))
    | _ => Throw (TypeError "command.startsWith is not a function")
    end
  else if match command with JsString c => String.eqb pattern c | _ => false end
  then Ok true
  else if String.eqb pattern "dangerous"
          && existsb (fun p => test p (asString command)) dangerousPatterns
  then Ok true
  else Ok false.

Definition matchesFileRule (pattern : string) (filePath : JsValue) : Exc bool :=
  if negb (truthy filePath) then Ok false
  else RegExp_test (globToRegex pattern) (asString filePath).

Definition matchesUrlRule (pattern : string) (url : JsValue) : Exc bool :=
  if negb (truthy url) then Ok false
  else if includes pattern "*" then
    RegExp_test (replaceAll "*" ".*" pattern) (asString url)
  else
    match url with
    | JsString u => Ok (includes u pattern)
    | JsArray items =>
        Ok (existsb (fun v => match v with
                              | JsString s => String.eqb s pattern
                              | _ => false
                              end) items)
    | _ => Throw (TypeError "url.includes is not a function")
    end.

(** [text] is the result of [JSON.stringify(input)], which is [undefined]
    ([None]) when [input] is. *)
Definition matchesGenericPattern (pattern : string) (text : option string) : Exc bool :=
  if includes pattern "*" then
    RegExp_test (replaceAll "*" ".*" pattern)
      (match text with Some t => t | None => "undefined" end)
  else
    match text with
    | Some t => Ok (includes t pattern)
    | None =>
        Throw (TypeError "Cannot read properties of undefined (reading 'includes')")
    end.

Definition matchesRule (rule toolName : string) (input : JsValue) : Exc bool :=
  match parseRule rule with
  | None => Ok false
  | Some (ruleToolName, rulePattern) =>
      if negb (String.eqb ruleToolName toolName) && negb (String.eqb ruleToolName "*")
      then Ok false
      else
        match rulePattern with
        | None | Some EmptyString => Ok true
        | Some pattern =>
            if String.eqb toolName "Bash" then
              command ← getProp input "command"; matchesBashRule pattern command
            else if String.eqb toolName "Read" || String.eqb toolName "Write"
                    || String.eqb toolName "Edit" then
              filePath ← getProp input "file_path"; matchesFileRule pattern filePath
            else if String.eqb toolName "WebFetch" then
              url ← getProp input "url"; matchesUrlRule pattern url
            else matchesGenericPattern pattern (JSON_stringify input)
        end
  end.

(** The loop shared by [checkDenyRules], [checkAllowRules] and
    [checkAskRules]: the first rule that matches, in list order. *)
Fixpoint firstMatch (rules : list string) (toolName : string) (input : JsValue)
  : Exc (option string) :=
  match rules with
  | [] => Ok None
  | rule :: rest =>
      b ← matchesRule rule toolName input;
      if b : bool then Ok (Some rule) else firstMatch rest toolName input
  end.

Definition checkDenyRules (rules : PermissionRules) (toolName : string) (input : JsValue)
  : Exc (option (string * bool)) :=
  r ← firstMatch (deny rules) toolName input;
  Ok (option_map (fun rule => (rule, isCriticalRule rule)) r).

Definition checkAllowRules (rules : PermissionRules) (toolName : string) (input : JsValue)
  : Exc (option string) :=
  firstMatch (allow rules) toolName input.

Definition checkAskRules (rules : PermissionRules) (toolName : string) (input : JsValue)
  : Exc (option string) :=
  firstMatch (ask rules) toolName input.

Definition applyDefaultPolicy (ctx : PermissionContext) : Exc PermissionResult :=
  if arrayIncludes safeDevelopmentTools (toolName ctx) then
    Ok (mkResult Allow None None None)
  else if arrayIncludes editingTools (toolName ctx) then
    file_path ← getProp (input ctx) "file_path";
    inWorkspace ←
      (if negb (truthy file_path) then Ok false
       else match file_path with
            | JsString p => Ok (includes p "/workspace/")
            | JsArray items =>
                Ok (existsb (fun v => match v with
                                      | JsString s => String.eqb s "/workspace/"
                                      | _ => false
                                      end) items)
            | _ => Throw (TypeError "input.file_path.includes is not a function")
            end);
    if inWorkspace : bool then Ok (mkResult Allow None None None)
    else Ok (mkResult Deny None
               (Some "File editing outside workspace requires explicit permission") None)
  else if String.eqb (toolName ctx) "Bash" then
    cmd ← getProp (input ctx) "command";
    command ←
      match cmd with
      | JsUndefined | JsNull => Ok None
      | JsString c => Ok (Some (firstWord c))
      | _ => Throw (TypeError "input.command?.split is not a function")
      end;
    if match command with Some c => arrayIncludes safeCommands c | None => false end
    then Ok (mkResult Allow None None None)
    else
      match priority ctx with
      | Some critical | Some high =>
          Ok (mkResult Allow None (Some "Bash command approved due to high priority") None)
      | _ =>
          Ok (mkResult Deny None (Some "Bash command requires explicit permission") None)
      end
  else
    Ok (mkResult Deny None (Some ("Tool " ++ toolName ctx ++ " not in allowed list")) None).

(** [auditLog.slice(-n)] *)
Definition lastN {A} (n : nat) (l : list A) : list A := drop (length l - n) l.

Definition logDecision (auditLog : list AuditEntry) (now : Z)
    (ctx : PermissionContext) (res : PermissionResult) (why : string)
  : list AuditEntry :=
  let log' := (auditLog ++ [mkAudit now ctx res why])%list in
  if (1000 <? length log')%nat then lastN 500 log' else log'.

(** The body of the [try] block of [evaluatePermission]: the decision and the
    reason handed to [logDecision]. *)
Definition decide_ (rules : PermissionRules) (ctx : PermissionContext)
  : Exc (PermissionResult * string) :=
  denyMatch ← checkDenyRules rules (toolName ctx) (input ctx);
  match denyMatch with
  | Some (rule, crit) =>
      Ok (mkResult Deny None (Some ("Tool use denied by rule: " ++ rule)) (Some crit),
          "Denied by rule: " ++ rule)
  | None =>
      allowMatch ← checkAllowRules rules (toolName ctx) (input ctx);
      match allowMatch with
      | Some rule =>
          Ok (mkResult Allow (Some (input ctx)) None None, "Allowed by rule: " ++ rule)
      | None =>
          askMatch ← checkAskRules rules (toolName ctx) (input ctx);
          match askMatch with
          | Some rule =>
              Ok (mkResult Allow None
                    (Some ("Tool approved (would normally ask): " ++ rule)) None,
                  "Auto-approved ask rule: " ++ rule)
          | None =>
              defaultResult ← applyDefaultPolicy ctx;
              Ok (defaultResult, "Applied default policy")
          end
      end
  end.

(** [evaluatePermission] from its [try] statement on (lines 59 to 108): the
    [try] block, and the [catch] clause that turns a thrown error into a
    denial.  The audit log is threaded through.  The logging call that
    stands before the [try] statement is part of [getPermissionHandler]
    below. *)
Definition evaluatePermission (rules : PermissionRules) (auditLog : list AuditEntry)
    (now : Z) (ctx : PermissionContext) : PermissionResult * list AuditEntry :=
  match decide_ rules ctx with
  | Ok (res, why) => (res, logDecision auditLog now ctx res why)
  | Throw error =>
      let res := mkResult Deny None
                   (Some ("Permission evaluation error: " ++ err_message error)) None in
      (res, logDecision auditLog now ctx res ("Error: " ++ err_message error))
  end.

(** The closure returned by [getPermissionHandler], called with an options
    object, from the [try] statement of [evaluatePermission] on. *)
Definition permissionHandler (rules : PermissionRules) (auditLog : list AuditEntry)
    (now : Z) (toolName : string) (input : JsValue) (options : HandlerOptions)
  : PermissionResult * list AuditEntry :=
  evaluatePermission rules auditLog now
    (mkContext toolName input (opt_memberId options) (opt_sessionId options)
       (opt_priority options)).

(** The context the handler builds from its arguments. *)
Definition contextOf (toolName : string) (input : JsValue) (options : HandlerOptions)
  : PermissionContext :=
  mkContext toolName input (opt_memberId options) (opt_sessionId options)
    (opt_priority options).

(** [getPermissionHandler]: a call of the handler as its caller sees it, from
    line 39 to the end of [evaluatePermission].  [options] is [None] when the
    caller hands [undefined] for it; the handler reads [options.memberId]
    first, which throws.  [evaluatePermission] then begins with the
    [logger.debug] call of line 57, which stands before the [try] statement
    and hands the context to the logger, whose format runs [JSON.stringify]
    on it.  [debug] tells how that call goes: it throws the error of
    [JSON.stringify] for a context that cannot be serialised, such as an
    input that holds itself or a big integer.  An error of either kind
    reaches the caller, and nothing is entered in the audit log.  What
    follows is the [try] statement with its [catch] clause, the definition
    [evaluatePermission] above. *)
Definition getPermissionHandler (debug : PermissionContext -> Exc unit)
    (rules : PermissionRules) (auditLog : list AuditEntry) (now : Z)
    (toolName : string) (input : JsValue) (options : option HandlerOptions)
  : Exc PermissionResult * list AuditEntry :=
  match options with
  | None =>
      (Throw (TypeError "Cannot read properties of undefined (reading 'memberId')"),
       auditLog)
  | Some o =>
      match debug (contextOf toolName input o) with
      | Throw error => (Throw error, auditLog)
      | Ok _ =>
          let '(res, auditLog') :=
            permissionHandler rules auditLog now toolName input o in
          (Ok res, auditLog')
      end
  end.

End WithRuntime.

End PermissionManager.

(** ** CostTracker (agentic-dev-team/src/utils/CostTracker.ts) *)

Module CostTracker.

Local Open Scope float_scope.

(** A usage object.  Every counter may be missing: the interface declares the
    two cache counters and the cost optional, the session starts from the
    empty object, and the engine's result carries optional counters. *)
Record UsageData : Type := mkUsage {
  input_tokens : option float;
  output_tokens : option float;
  cache_creation_input_tokens : option float;
  cache_read_input_tokens : option float;
  total_cost_usd : option float
}.

(** The object literal with no property. *)
Definition emptyUsage : UsageData := mkUsage None None None None None.

Record StepUsage : Type := mkStep {
  messageId : string;
  timestamp : string;
  usage : UsageData;
  costUSD : float
}.

(** The argument of [processMessage]. *)
Record Message : Type := mkMessage {
  msg_type : string;
  msg_id : string;
  msg_usage : option UsageData
}.

Record State : Type := mkState {
  processedMessageIds : gset string;
  stepUsages : list StepUsage
}.

Definition new : State := mkState ∅ [].

(** A missing property read as a number: [undefined] converts to [NaN]. *)
Definition toNumber (x : option float) : float :=
  match x with
  | Some v => v
  | None => nan
  end.

(** [x || 0]: zero for a value that is missing, zero or [NaN]. *)
Definition orZero (x : option float) : float :=
  match x with
  | Some v => if float_truthy v then v else 0
  | None => 0
  end.

Definition input_tokens_per_1k : float := 0.00003.
Definition output_tokens_per_1k : float := 0.00015.
Definition cache_creation_per_1k : float := 0.000375.
Definition cache_read_per_1k : float := 0.0000075.

Definition calculateCost (u : UsageData) : float :=
  let inputCost := (toNumber (input_tokens u) / 1000) * input_tokens_per_1k in
  let outputCost := (toNumber (output_tokens u) / 1000) * output_tokens_per_1k in
  let cacheCreationCost :=
    (orZero (cache_creation_input_tokens u) / 1000) * cache_creation_per_1k in
  let cacheReadCost :=
    (orZero (cache_read_input_tokens u) / 1000) * cache_read_per_1k in
  inputCost + outputCost + cacheCreationCost + cacheReadCost.

Definition aggregateUsage (current newUsage : UsageData) : UsageData :=
  let i := orZero (input_tokens current) + orZero (input_tokens newUsage) in
  let o := orZero (output_tokens current) + orZero (output_tokens newUsage) in
  let cc := orZero (cache_creation_input_tokens current)
            + orZero (cache_creation_input_tokens newUsage) in
  let cr := orZero (cache_read_input_tokens current)
            + orZero (cache_read_input_tokens newUsage) in
  mkUsage (Some i) (Some o) (Some cc) (Some cr)
    (Some (calculateCost (mkUsage (Some i) (Some o) (Some cc) (Some cr) None))).

(** [processMessage]: [now] is the ISO time stamp the clock gives. *)
Definition processMessage (st : State) (now : string) (m : Message)
  : option StepUsage * State :=
  if negb (String.eqb (msg_type m) "assistant") then (None, st)
  else
    match msg_usage m with
    | None => (None, st)
    | Some u =>
        if bool_decide (msg_id m ∈ processedMessageIds st) then (None, st)
        else
          let stepUsage := mkStep (msg_id m) now u (calculateCost u) in
          (Some stepUsage,
           mkState ({[msg_id m]} ∪ processedMessageIds st)
             (stepUsages st ++ [stepUsage])%list)
    end.

Definition getTotalCost (st : State) : float :=
  fold_left (fun total step => total + costUSD step) (stepUsages st) 0.

Definition getTotalUsage (st : State) : UsageData :=
  fold_left (fun total step => aggregateUsage total (usage step)) (stepUsages st)
    (mkUsage (Some 0) (Some 0) (Some 0) (Some 0) (Some 0)).

Definition getStepBreakdown (st : State) : list StepUsage := stepUsages st.

Definition reset (st : State) : State := new.

(** The state after a sequence of [processMessage] calls, each with the time
    stamp it is given. *)
Definition processAll (st : State) (calls : list (string * Message)) : State :=
  fold_left (fun st c => snd (processMessage st (fst c) (snd c))) calls st.

End CostTracker.

(** ** TeamManager (agentic-dev-team/src/core/TeamManager.ts)

    Each public method runs to completion before the next one starts.  Inside
    [executeParallelTasks] the tasks finish in an order the engine decides;
    the block that records a finished task runs without interruption. *)

Module TeamManager.

Import CostTracker.

Local Open Scope float_scope.

Record TeamMember : Type := mkMember {
  id : string;
  name : string;
  role : string;
  specialization : list string;
  permissions : list string;
  systemPrompt : string
}.

Inductive TaskType : Type :=
| analysis | implementation | review | testing | deployment | debugging.

Definition typeName (t : TaskType) : string :=
  match t with
  | analysis => "analysis"
  | implementation => "implementation"
  | review => "review"
  | testing => "testing"
  | deployment => "deployment"
  | debugging => "debugging"
  end.

Definition priorityName (p : PermissionManager.Priority) : string :=
  match p with
  | PermissionManager.low => "low"
  | PermissionManager.medium => "medium"
  | PermissionManager.high => "high"
  | PermissionManager.critical => "critical"
  end.

Record TaskRequest : Type := mkTask {
  type : TaskType;
  description : string;
  assignedTo : option string;
  priority : PermissionManager.Priority;
  files : option (list string);
  dependencies : option (list string)
}.

Inductive TaskStatus : Type := completed | failed | in_progress.

Record TaskResult : Type := mkTaskResult {
  taskId : string;
  status : TaskStatus;
  result : option string;
  usage : option UsageData;
  cost : option float;
  duration : option Z
}.

Record TeamSession : Type := mkSession {
  session_id : string;
  session_name : string;
  startTime : Z;
  session_workspace : string;
  activeMembers : list string;
  currentTasks : list TaskRequest;
  completedTasks : list TaskResult;
  totalCost : float;
  totalUsage : UsageData
}.

Record TeamConfiguration : Type := mkConfig {
  workspace : string;
  members : list TeamMember
}.

(** The private field [activeSessions]. *)
Record State : Type := mkState {
  activeSessions : gmap string TeamSession
}.

Definition new : State := mkState ∅.

(** What the engine is called with. *)
Record Query : Type := mkQuery {
  prompt : string;
  cwd : string;
  customSystemPrompt : string;
  allowedTools : list string;
  maxTurns : nat
}.

(** What consuming the engine's stream comes to: a message of type [result]
    and subtype [success] arrives (its [usage] may be missing), the stream
    ends without one, or an error is raised. *)
Inductive EngineOutcome : Type :=
| yieldsSuccess (resultText : string) (usage : option UsageData)
| endsWithoutSuccess
| raises (error : JsError).

(** The inputs of one [executeTask] that the code does not decide: the random
    task identifier, the clock before and after, and the engine. *)
Record Run : Type := mkRun {
  run_taskId : string;
  run_start : Z;
  run_end : Z;
  engine : Query -> EngineOutcome
}.

Definition sessionNotFound {A} (sessionId : string) : Exc A :=
  Throw (mkError "Error" ("Session " ++ sessionId ++ " not found")).

(** [xs?.join(', ') || fallback] *)
Definition joinOr (xs : option (list string)) (fallback : string) : string :=
  match xs with
  | None => fallback
  | Some l => let j := join ", " l in if String.eqb j "" then fallback else j
  end.

Definition newline : string := String (ascii_of_nat 10) "".

(** The content of the message [generateTaskInput] yields. *)
Definition taskInput (task : TaskRequest) : string :=
  description task ++ newline ++ newline
  ++ "Files to focus on: " ++ joinOr (files task) "entire workspace" ++ newline
  ++ "Priority: " ++ priorityName (priority task) ++ newline
  ++ "Dependencies: " ++ joinOr (dependencies task) "none".

Definition queryFor (config : TeamConfiguration) (task : TaskRequest)
    (member : TeamMember) : Query :=
  mkQuery (taskInput task) (workspace config) (systemPrompt member)
    (permissions member) 10.

(** [selectTeamMember]; [None] is the [undefined] that [members[0]] is on an
    empty roster. *)
Definition selectTeamMember (config : TeamConfiguration) (task : TaskRequest)
  : option TeamMember :=
  let candidates :=
    List.filter (fun member =>
      arrayIncludes (specialization member) (typeName (type task))
      || includes (toLowerCase (role member)) (typeName (type task)))
      (members config) in
  match candidates with
  | [] =>
      match List.find (fun m => String.eqb (role m) "full-stack-developer")
              (members config) with
      | Some m => Some m
      | None => head (members config)
      end
  | c :: _ => Some c
  end.

(** The statements of the [try] block of [executeTask] after the loop: the
    result that is built and the session as updated.  [session] is [None]
    when the table has no entry for the identifier. *)
Definition recordSuccess (session : option TeamSession) (run : Run)
    (resultText : string) (usage : option UsageData)
  : Exc (TaskResult * TeamSession) :=
  match usage with
  | None =>
      Throw (TypeError "Cannot read properties of undefined (reading 'input_tokens')")
  | Some u =>
      let taskResult :=
        mkTaskResult (run_taskId run) completed (Some resultText) (Some u)
          (Some (calculateCost u)) (Some (run_end run - run_start run)%Z) in
      match session with
      | None =>
          Throw (TypeError "Cannot read properties of undefined (reading 'completedTasks')")
      | Some s =>
          Ok (taskResult,
              mkSession (session_id s) (session_name s) (startTime s)
                (session_workspace s) (activeMembers s) (currentTasks s)
                (completedTasks s ++ [taskResult])%list
                (totalCost s + orZero (cost taskResult))
                (aggregateUsage (totalUsage s) u))
      end
  end.

(** The [catch] clause of [executeTask]. *)
Definition failedResult (run : Run) (error : JsError) : TaskResult :=
  mkTaskResult (run_taskId run) failed
    (Some ("Task failed: " ++ err_message error)) None None None.

Definition executeTask (config : TeamConfiguration) (st : State)
    (sessionId : string) (task : TaskRequest) (member : TeamMember) (run : Run)
  : TaskResult * State :=
  let session := activeSessions st !! sessionId in
  let attempt :=
    match engine run (queryFor config task member) with
    | yieldsSuccess resultText usage => recordSuccess session run resultText usage
    | endsWithoutSuccess => recordSuccess session run "" (Some emptyUsage)
    | raises error => Throw error
    end in
  match attempt with
  | Ok (taskResult, session') =>
      (taskResult, mkState (<[sessionId := session']> (activeSessions st)))
  | Throw error => (failedResult run error, st)
  end.

Definition undefinedMember {A} : Exc A :=
  Throw (TypeError "Cannot read properties of undefined (reading 'id')").

Definition withAssignee (task : TaskRequest) (member : TeamMember) : TaskRequest :=
  mkTask (type task) (description task) (Some (id member)) (priority task)
    (files task) (dependencies task).

Definition startTeamSession (config : TeamConfiguration) (st : State)
    (sessionName sessionId : string) (now : Z) : string * State :=
  let session :=
    mkSession sessionId sessionName now (workspace config) [] [] [] 0 emptyUsage in
  (sessionId, mkState (<[sessionId := session]> (activeSessions st))).

Definition assignTask (config : TeamConfiguration) (st : State)
    (sessionId : string) (task : TaskRequest) (run : Run) : Exc string * State :=
  match activeSessions st !! sessionId with
  | None => (sessionNotFound sessionId, st)
  | Some session =>
      match selectTeamMember config task with
      | None => (undefinedMember, st)
      | Some assignedMember =>
          let task' := withAssignee task assignedMember in
          let session' :=
            mkSession (session_id session) (session_name session)
              (startTime session) (session_workspace session)
              (activeMembers session ++ [id assignedMember])%list
              (currentTasks session ++ [task'])%list
              (completedTasks session) (totalCost session) (totalUsage session) in
          let st' := mkState (<[sessionId := session']> (activeSessions st)) in
          let '(res, st'') := executeTask config st' sessionId task' assignedMember run in
          (Ok (taskId res), st'')
      end
  end.

(** One entry of [taskPromises]: the member chosen for the task at position
    [i] and the run it gets, or the rejection of the callback. *)
Definition prepare (config : TeamConfiguration) (runs : nat -> Run)
    (i : nat) (task : TaskRequest) : Exc (TaskRequest * TeamMember * Run) :=
  match selectTeamMember config task with
  | None => undefinedMember
  | Some member => Ok (withAssignee task member, member, runs i)
  end.

(** The task at position [i] finishes: its result is recorded. *)
Definition finish (config : TeamConfiguration) (sessionId : string)
    (prepared : list (Exc (TaskRequest * TeamMember * Run)))
    (st : State) (i : nat) : State :=
  match prepared !! i with
  | Some (Ok (task, member, run)) =>
      snd (executeTask config st sessionId task member run)
  | _ => st
  end.

(** The value of the promise at one position, given the state in which the
    task finishes.  The result depends on that state only through the
    presence of the session. *)
Definition settle (config : TeamConfiguration) (st : State) (sessionId : string)
    (p : Exc (TaskRequest * TeamMember * Run)) : Exc TaskResult :=
  '(task, member, run) ← p;
  Ok (fst (executeTask config st sessionId task member run)).

(** [Promise.all]: the results in the order of the promises, or the error of
    a rejected one. *)
Fixpoint promiseAll {A} (ps : list (Exc A)) : Exc (list A) :=
  match ps with
  | [] => Ok []
  | p :: rest => a ← p; l ← promiseAll rest; Ok (a :: l)
  end.

(** The order in which [n] concurrent tasks finish, from the engine's say
    [order]: the positions it names, each once, then the positions it leaves
    out.  Every task finishes exactly once, and every permutation of the
    positions is the value at some [order]. *)
Definition completionOrder (n : nat) (order : list nat) : list nat :=
  let named := remove_dups (filter (fun i => i < n)%nat order) in
  (named ++ filter (fun i => i ∉ named) (seq 0 n))%list.

(** [executeParallelTasks]: [runs i] is the run of the task at position [i]
    and [order] decides the order in which the tasks finish. *)
Definition executeParallelTasks (config : TeamConfiguration) (st : State)
    (sessionId : string) (tasks : list TaskRequest) (runs : nat -> Run)
    (order : list nat) : Exc (list TaskResult) * State :=
  match activeSessions st !! sessionId with
  | None => (sessionNotFound sessionId, st)
  | Some _ =>
      let prepared := imap (prepare config runs) tasks in
      let st' :=
        fold_left (finish config sessionId prepared)
          (completionOrder (length tasks) order) st in
      (promiseAll (map (settle config st sessionId) prepared), st')
  end.

Definition getSessionStatus (st : State) (sessionId : string) : option TeamSession :=
  activeSessions st !! sessionId.

Record ReportEntry : Type := mkReportEntry {
  entry_taskId : string;
  entry_status : TaskStatus;
  entry_duration : option Z;
  entry_cost : option float
}.

Record Report : Type := mkReport {
  report_sessionId : string;
  report_name : string;
  report_duration : Z;
  totalTasks : nat;
  report_totalCost : float;
  report_usage : UsageData;
  taskBreakdown : list ReportEntry
}.

(** The object [generateSessionReport] writes. *)
Definition sessionReport (session : TeamSession) (now : Z) : Report :=
  mkReport (session_id session) (session_name session) (now - startTime session)%Z
    (length (completedTasks session)) (totalCost session) (totalUsage session)
    (map (fun task => mkReportEntry (taskId task) (status task) (duration task)
                        (cost task)) (completedTasks session)).

(** [endSession]: [writeFile] tells how writing the report goes; an error it
    raises leaves the table as it is. *)
Definition endSession (st : State) (sessionId : string) (now : Z)
    (writeFile : Report -> Exc unit) : Exc unit * State :=
  match activeSessions st !! sessionId with
  | None => (sessionNotFound sessionId, st)
  | Some session =>
      match writeFile (sessionReport session now) with
      | Throw e => (Throw e, st)
      | Ok _ => (Ok tt, mkState (delete sessionId (activeSessions st)))
      end
  end.

(** A call of a public method with the inputs it does not decide itself. *)
Inductive Call : Type :=
| StartTeamSession (sessionName sessionId : string) (now : Z)
| AssignTask (sessionId : string) (task : TaskRequest) (run : Run)
| ExecuteParallelTasks (sessionId : string) (tasks : list TaskRequest)
    (runs : nat -> Run) (order : list nat)
| EndSession (sessionId : string) (now : Z) (writeFile : Report -> Exc unit).

Definition step (config : TeamConfiguration) (st : State) (c : Call) : State :=
  match c with
  | StartTeamSession sessionName sessionId now =>
      snd (startTeamSession config st sessionName sessionId now)
  | AssignTask sessionId task run => snd (assignTask config st sessionId task run)
  | ExecuteParallelTasks sessionId tasks runs order =>
      snd (executeParallelTasks config st sessionId tasks runs order)
  | EndSession sessionId now writeFile => snd (endSession st sessionId now writeFile)
  end.

(** The state after a sequence of calls on a fresh manager. *)
Definition after (config : TeamConfiguration) (calls : list Call) : State :=
  fold_left (step config) calls new.

(** The call starts a session under the identifier [sessionId]. *)
Definition restarts (sessionId : string) (c : Call) : Prop :=
  match c with
  | StartTeamSession _ sessionId' _ => sessionId' = sessionId
  | _ => False
  end.

(** The sum of [cost || 0] over a list of results, from zero, in list order:
    a cost that is missing or is not a number counts as zero. *)
Definition sumCost (results : list TaskResult) : float :=
  fold_left (fun total r => total + orZero (cost r)) results 0.

(** The sum of the cost fields as the specification words it: a result
    without a cost counts as zero, every other cost counts as it is. *)
Definition sumCostFields (results : list TaskResult) : float :=
  fold_left (fun total r =>
               total + match cost r with
                       | Some c => c
                       | None => 0
                       end) results 0.

(** The fold of [aggregateUsage] over the usage of a list of results, from
    the empty usage object, in list order. *)
Definition foldUsage (results : list TaskResult) : UsageData :=
  fold_left (fun total r =>
               match usage r with
               | Some u => aggregateUsage total u
               | None => total
               end) results emptyUsage.

Definition balanced (session : TeamSession) : Prop :=
  totalCost session = sumCost (completedTasks session)
  /\ totalUsage session = foldUsage (completedTasks session).

Definition allBalanced (st : State) : Prop :=
  map_Forall (fun _ session => balanced session) (activeSessions st).

End TeamManager.

(** ** A runtime for the worked examples

    The theorems below hold for every [Runtime].  The examples need one to
    evaluate with.  Its regular expressions cover the sources that patterns
    made of literal characters, [.], [*] and [?] compile to: an optional
    leading [^], then literal characters, escaped punctuation, [.] and
    starred atoms, then an optional final [$]; it rejects every other
    source, valid ones among them, and the message of its error is the one of
    the engine without the detail the engine adds.  Its string conversion and
    its [JSON.stringify] cover [undefined], [null], booleans and strings
    without characters to escape; the examples hand them no other value and
    state no message of a regular expression error. *)

Module ExampleRuntime.

Definition isMeta (a : ascii) : bool :=
  existsb (Ascii.eqb a)
    (list_ascii_of_string "[](){}+?|^$*\").

Definition isWordChar (a : ascii) : bool :=
  let n := nat_of_ascii a in
  ((48 <=? n) && (n <=? 57) || (65 <=? n) && (n <=? 90)
   || (97 <=? n) && (n <=? 122) || (n =? 95))%nat.

Definition starred (atom : re) (rest : string) : re * string :=
  match rest with
  | String "*" rest' => (Star atom, rest')
  | _ => (atom, rest)
  end.

(** The body of a source and whether it ends in [$]. *)
Fixpoint parseBody (fuel : nat) (s : string) : option (re * bool) :=
  match fuel with
  | O => None
  | S fuel' =>
      match s with
      | EmptyString => Some (Eps, false)
      | String "$" EmptyString => Some (Eps, true)
      | String "\" (String c rest) =>
          if isWordChar c then None
          else
            let '(atom, rest') := starred (chr c) rest in
            '(r, e) ← parseBody fuel' rest'; Some (Cat atom r, e)
      | String c rest =>
          if Ascii.eqb c "." then
            let '(atom, rest') := starred dot rest in
            '(r, e) ← parseBody fuel' rest'; Some (Cat atom r, e)
          else if isMeta c then None
          else
            let '(atom, rest') := starred (chr c) rest in
            '(r, e) ← parseBody fuel' rest'; Some (Cat atom r, e)
      end
  end.

Definition compile (src : string) : option RegExp :=
  match src with
  | String "^" rest =>
      '(r, e) ← parseBody (S (String.length rest)) rest; Some (mkRegExp true r e)
  | _ =>
      '(r, e) ← parseBody (S (String.length src)) src; Some (mkRegExp false r e)
  end.

Definition regExpTest (src s : string) : Exc bool :=
  match compile src with
  | Some r => Ok (test r s)
  | None => Throw (SyntaxError ("Invalid regular expression: /" ++ src ++ "/"))
  end.

Definition toString (v : JsValue) : string :=
  match v with
  | JsUndefined => "undefined"
  | JsNull => "null"
  | JsBool true => "true"
  | JsBool false => "false"
  | JsString s => s
  | _ => "[object Object]"
  end.

Definition quote : ascii := ascii_of_nat 34.

Definition jsonStringify (v : JsValue) : option string :=
  match v with
  | JsUndefined => None
  | JsBool true => Some "true"
  | JsBool false => Some "false"
  | JsString s => Some (String quote s ++ String quote EmptyString)
  | _ => Some "null"
  end.

#[export] Instance runtime : Runtime := {|
  RegExp_test := regExpTest;
  JSON_stringify := jsonStringify;
  ToString := toString
|}.

End ExampleRuntime.


(** ** The scenarios of the specification and of the test suites *)

Module Scenario.

Import PermissionManager.

(** The policy of the specification's concrete scenario. *)
Definition policy : PermissionRules :=
  mkRules ["Read(*)"] ["Write(.env)"] ["Bash(git push:*)"].

(** The same with an allow rule that covers what the deny rule forbids. *)
Definition overlapping : PermissionRules :=
  mkRules ["Write(*)"; "Read(*)"] ["Write(.env)"] ["Bash(git push:*)"].

(** The rules of the unit tests of the permission manager. *)
Definition suiteRules : PermissionRules :=
  mkRules ["Read(*)"; "Write(./workspace/**)"; "Bash(ls:*)"; "Bash(git status)"]
    ["Write(.env)"; "Bash(rm -rf /)"; "Bash(sudo:*)"]
    ["Bash(git push:*)"; "Write(./production/**)"].

Definition denyAll : PermissionRules := mkRules ["Read(*)"] ["*"] [].

(** A deny rule whose pattern is not a regular expression once compiled. *)
Definition malformed : PermissionRules := mkRules [] ["Write(a[)"] [].

Definition request (tool : string) (input : JsValue) : PermissionContext :=
  mkContext tool input None None None.

Definition filePath (s : string) : JsValue := JsObject [("file_path", JsString s)].
Definition command (s : string) : JsValue := JsObject [("command", JsString s)].

Definition developer : TeamManager.TeamMember :=
  TeamManager.mkMember "full-stack" "Full Stack Developer" "full-stack-developer"
    ["implementation"; "testing"] ["Read"; "Write"; "Bash"] "You are a developer.".

Definition team : TeamManager.TeamConfiguration := TeamManager.mkConfig "/ws" [developer].
Definition nobody : TeamManager.TeamConfiguration := TeamManager.mkConfig "/ws" [].

Definition feature : TeamManager.TaskRequest :=
  TeamManager.mkTask TeamManager.implementation "Create a new feature" None medium
    None None.

Definition tests : TeamManager.TaskRequest :=
  TeamManager.mkTask TeamManager.testing "Test development" None medium None None.

(** The usage the mocked engine of the integration tests reports. *)
Definition mockUsage : CostTracker.UsageData :=
  CostTracker.mkUsage (Some 100%float) (Some 200%float) None None (Some 0.015%float).

Definition succeeds (tid : string) : TeamManager.Run :=
  TeamManager.mkRun tid 10 25
    (fun _ => TeamManager.yieldsSuccess "Task completed successfully" (Some mockUsage)).

Definition fails (tid : string) : TeamManager.Run :=
  TeamManager.mkRun tid 10 25
    (fun _ => TeamManager.raises (mkError "Error" "Simulated API failure")).

Definition silent (tid : string) : TeamManager.Run :=
  TeamManager.mkRun tid 10 25 (fun _ => TeamManager.endsWithoutSuccess).

(** Three runs, the second of which fails. *)
Definition mixedRuns (i : nat) : TeamManager.Run :=
  match i with
  | 0%nat => succeeds "task_a"
  | 1%nat => fails "task_b"
  | _ => succeeds "task_c"
  end.

Definition written : TeamManager.Report -> Exc unit := fun _ => Ok tt.

(** A session is started and given one task, then a batch of three. *)
Definition busy : list TeamManager.Call :=
  [ TeamManager.StartTeamSession "Task Test Project" "session_1" 0;
    TeamManager.AssignTask "session_1" feature (succeeds "task_0");
    TeamManager.ExecuteParallelTasks "session_1" [feature; feature; tests]
      mixedRuns [2%nat; 0%nat] ].

Definition assistant (i : string) (u : CostTracker.UsageData) : CostTracker.Message :=
  CostTracker.mkMessage "assistant" i (Some u).

End Scenario.

(** ** The language of a regular expression *)

Module RegexLanguage.

(** The strings an expression matches from end to end. *)
Inductive lang : re -> string -> Prop :=
| lang_eps : lang Eps EmptyString
| lang_sym (p : ascii -> bool) (a : ascii) :
    p a = true -> lang (Sym p) (String a EmptyString)
| lang_cat (a b : re) (s t : string) :
    lang a s -> lang b t -> lang (Cat a b) (s ++ t)
| lang_alt_l (a b : re) (s : string) : lang a s -> lang (Alt a b) s
| lang_alt_r (a b : re) (s : string) : lang b s -> lang (Alt a b) s
| lang_star_nil (a : re) : lang (Star a) EmptyString
| lang_star_cons (a : re) (s t : string) :
    lang a s -> lang (Star a) t -> lang (Star a) (s ++ t).

(** Every character of [s] satisfies [p]. *)
Fixpoint allChars (p : ascii -> bool) (s : string) : bool :=
  match s with
  | EmptyString => true
  | String a s' => p a && allChars p s'
  end.

End RegexLanguage.

(** ** Words for the statements about the permission manager *)

Module PermissionWords.

Import RegexLanguage.

(** A run of one or more white-space characters. *)
Definition blank (w : string) : Prop := w <> EmptyString /\ allChars isSpace w = true.

(** The command signatures the six expressions of [dangerousPatterns]
    describe, in the order of the list. *)
Definition dangerousSignature (c : string) : Prop :=
  (exists w1 w2 rest,
      c = "rm" ++ w1 ++ "-rf" ++ w2 ++ "/" ++ rest /\ blank w1 /\ blank w2)
  \/ (exists pre x w post,
        c = pre ++ "curl" ++ x ++ "|" ++ w ++ "sh" ++ post
        /\ allChars isDot x = true /\ allChars isSpace w = true)
  \/ (exists pre x w post,
        c = pre ++ "wget" ++ x ++ "|" ++ w ++ "sh" ++ post
        /\ allChars isDot x = true /\ allChars isSpace w = true)
  \/ (exists pre w post, c = pre ++ "sudo" ++ w ++ "rm" ++ post /\ blank w)
  \/ (exists pre w post, c = pre ++ "dd" ++ w ++ "if=" ++ post /\ blank w)
  \/ (exists pre post, c = pre ++ ":(){ :|:& };:" ++ post).

(** The tool name a rule is written for, when the rule has the rule format. *)
Definition ruleTool (rule : string) : option string :=
  fst <$> PermissionManager.parseRule rule.

(** The rule is written for the tool, or for every tool. *)
Definition namesTool (rule tool : string) : Prop :=
  ruleTool rule = Some tool \/ ruleTool rule = Some "*".

(** The translation [globToRegex] applies to one character. *)
Definition globChar (a : ascii) : string :=
  if Ascii.eqb a "." then "\."
  else if Ascii.eqb a "*" then ".*"
  else if Ascii.eqb a "?" then "."
  else String a EmptyString.

Fixpoint globBody (pattern : string) : string :=
  match pattern with
  | EmptyString => EmptyString
  | String a rest => globChar a ++ globBody rest
  end.

End PermissionWords.

Module PermissionSequences.

Import PermissionManager.

Section WithRuntime.
Context `{Runtime}.

(** The audit log after a sequence of evaluations, each at its time. *)
Definition evaluateAll (rules : PermissionRules) (auditLog : list AuditEntry)
    (calls : list (Z * PermissionContext)) : list AuditEntry :=
  fold_left (fun log c => snd (evaluatePermission rules log (fst c) (snd c)))
    calls auditLog.

(** The entry an evaluation writes, whatever the log is. *)
Definition entryOf (rules : PermissionRules) (c : Z * PermissionContext) : AuditEntry :=
  match decide_ rules (snd c) with
  | Ok (res, why) => mkAudit (fst c) (snd c) res why
  | Throw error =>
      mkAudit (fst c) (snd c)
        (mkResult Deny None
           (Some ("Permission evaluation error: " ++ err_message error)) None)
        ("Error: " ++ err_message error)
  end.

End WithRuntime.

(** The property of the input a scoped rule of the tool is tested on. *)
Definition toolField (tool : string) : option string :=
  if String.eqb tool "Bash" then Some "command"
  else if String.eqb tool "Read" || String.eqb tool "Write" || String.eqb tool "Edit"
  then Some "file_path"
  else if String.eqb tool "WebFetch" then Some "url"
  else None.

(** All the rules of a policy. *)
Definition allRules (rules : PermissionRules) : list string :=
  (deny rules ++ allow rules ++ ask rules)%list.

End PermissionSequences.

(** ** The shipped configuration (agentic-dev-team/src/config/team-config.ts) *)

Module TeamConfig.

(** The [permissionRules] of the configuration [createTeamConfiguration]
    returns; they do not depend on the workspace. *)
Definition permissionRules : PermissionManager.PermissionRules :=
  PermissionManager.mkRules
    [ "Read(*)"; "Grep(*)"; "Glob(*)"; "TodoWrite(*)";
      "Write(./workspace/**)"; "Edit(./workspace/**)"; "MultiEdit(./workspace/**)";
      "Bash(ls:*)"; "Bash(pwd)"; "Bash(echo:*)"; "Bash(cat:*)"; "Bash(head:*)";
      "Bash(tail:*)"; "Bash(grep:*)"; "Bash(find:*)";
      "Bash(git status)"; "Bash(git diff:*)"; "Bash(git log:*)";
      "Bash(git branch:*)"; "Bash(git checkout:*)"; "Bash(git add:*)";
      "Bash(git commit:*)";
      "Bash(npm install:*)"; "Bash(npm run:*)"; "Bash(npm test:*)";
      "Bash(npm build:*)";
      "mcp__dev-workflow__*"; "mcp__api-integrations__*"; "mcp__database-tools__*";
      "mcp__monitoring__*"; "mcp__team-coordination__*" ]
    [ "Write(.env)"; "Write(./secrets/**)"; "Edit(.env)"; "Edit(./secrets/**)";
      "Bash(rm -rf /)"; "Bash(sudo:*)"; "Bash(curl:*|sh)"; "Bash(wget:*|sh)";
      "Bash(dd:*)";
      "Read(/etc/**)"; "Read(/var/**)"; "Read(/usr/**)";
      "Write(/etc/**)"; "Write(/var/**)"; "Write(/usr/**)" ]
    [ "mcp__dev-workflow__deploy_application(environment:production)";
      "mcp__database-tools__query_database(readonly:false)";
      "mcp__database-tools__migrate_database(dryRun:false)";
      "Bash(git push:*)"; "Bash(chmod:*)"; "Bash(chown:*)" ].

(** The prefixes of the names of the tools the five custom servers offer. *)
Definition serverPrefixes : list string :=
  [ "mcp__dev-workflow__"; "mcp__api-integrations__"; "mcp__database-tools__";
    "mcp__monitoring__"; "mcp__team-coordination__" ].

(** The three server tools an ask rule is written for. *)
Definition askedTools : list string :=
  [ "mcp__dev-workflow__deploy_application";
    "mcp__database-tools__query_database";
    "mcp__database-tools__migrate_database" ].

End TeamConfig.

Module Requests.

Import PermissionManager.

(** A [Bash] request for the command [c]; the other properties of the input
    and the other fields of the context are free. *)
Definition bashRequest (c : string) (others : list (string * JsValue))
    (member session : option string) (prio : option Priority) : PermissionContext :=
  mkContext "Bash" (JsObject (("command", JsString c) :: others)) member session prio.

(** A request for a tool with a free input and context. *)
Definition toolRequest (tool : string) (input : JsValue)
    (member session : option string) (prio : option Priority) : PermissionContext :=
  mkContext tool input member session prio.

End Requests.

(** ** Words for the statements about the cost tracker *)

Module CostWords.

Import CostTracker.

(** The message is one [processMessage] looks at: an assistant message that
    carries a usage object. *)
Definition billable (m : Message) : bool :=
  String.eqb (msg_type m) "assistant" && bool_decide (is_Some (msg_usage m)).

(** The usage a message carries, the empty object when it carries none. *)
Definition usageOf (m : Message) : UsageData := default emptyUsage (msg_usage m).

(** The identifiers of the billable messages among the calls. *)
Definition billableIds (calls : list (string * Message)) : gset string :=
  list_to_set (map (fun c => msg_id (snd c)) (filter (fun c => billable (snd c) = true) calls)).

(** The ledger entry [processMessage] writes for a billable message. *)
Definition stepOf (c : string * Message) : StepUsage :=
  mkStep (msg_id (snd c)) (fst c) (usageOf (snd c)) (calculateCost (usageOf (snd c))).

(** What the ledger and the set of identifiers have to do with each other. *)
Definition ledgerSound (st : State) : Prop :=
  NoDup (map messageId (stepUsages st))
  /\ processedMessageIds st = list_to_set (map messageId (stepUsages st))
  /\ Forall (fun step => costUSD step = calculateCost (usage step)) (stepUsages st).

End CostWords.

(** ** Words for the statements about the team manager *)

Module TeamWords.

Import CostTracker TeamManager.

#[export] Instance TaskStatus_eq_dec : EqDecision TaskStatus.
Proof. solve_decision. Defined.

(** The test of the filter of [selectTeamMember]. *)
Definition suits (task : TaskRequest) (member : TeamMember) : bool :=
  arrayIncludes (specialization member) (typeName (type task))
  || includes (toLowerCase (role member)) (typeName (type task)).

Definition generalist (member : TeamMember) : bool :=
  String.eqb (role member) "full-stack-developer".

(** The session a call is about; for [startTeamSession], the identifier the
    new session gets. *)
Definition target (c : Call) : string :=
  match c with
  | StartTeamSession _ sessionId _ => sessionId
  | AssignTask sessionId _ _ => sessionId
  | ExecuteParallelTasks sessionId _ _ _ => sessionId
  | EndSession sessionId _ _ => sessionId
  end.

(** A result as the [try] block of [executeTask] builds it. *)
Definition recordedResult (r : TaskResult) : Prop :=
  status r = completed
  /\ is_Some (result r)
  /\ is_Some (duration r)
  /\ exists u, usage r = Some u /\ cost r = Some (calculateCost u).

(** The tasks of a session and the members they went to. *)
Definition assignmentsAgree (config : TeamConfiguration) (session : TeamSession) : Prop :=
  map assignedTo (currentTasks session) = map Some (activeMembers session)
  /\ Forall (fun i => exists member, member ∈ members config /\ id member = i)
       (activeMembers session).

(** What a finished task adds to the completed tasks of its session. *)
Definition recorded (r : TaskResult) : list TaskResult :=
  if decide (status r = completed) then [r] else [].

(** The result of a task of a batch, from the member and the run it got. *)
Definition resultOf (config : TeamConfiguration) (st : State) (sessionId : string)
    (c : TaskRequest * TeamMember * Run) : TaskResult :=
  fst (executeTask config st sessionId c.1.1 c.1.2 c.2).

(** The fields of a session that are set when it starts. *)
Definition sameHeader (s s' : TeamSession) : Prop :=
  session_id s' = session_id s
  /\ session_name s' = session_name s
  /\ startTime s' = startTime s
  /\ session_workspace s' = session_workspace s.

End TeamWords.

(** ** AgenticDevTeam (agentic-dev-team/src/index.ts) *)

Module AgenticDevTeam.

Import PermissionManager CostTracker TeamManager.

Definition setupTasks : list TaskRequest :=
  [ mkTask analysis
      "Analyze project requirements and create initial architecture plan"
      None high None None;
    mkTask implementation
      "Set up project structure and development environment"
      None high None None;
    mkTask testing
      "Establish testing framework and CI/CD pipeline"
      None medium None None ].

(** The loop [for (const task of setupTasks) await assignTask(sessionId, task)]:
    [runs i] is the run of the task at position [i]; a rejected call ends
    the loop with its error. *)
Fixpoint assignEach (config : TeamConfiguration) (st : State) (sessionId : string)
    (tasks : list TaskRequest) (runs : nat -> Run) : Exc unit * State :=
  match tasks with
  | [] => (Ok tt, st)
  | task :: rest =>
      match assignTask config st sessionId task (runs 0%nat) with
      | (Ok _, st') => assignEach config st' sessionId rest (fun i => runs (S i))
      | (Throw e, st') => (Throw e, st')
      end
  end.

(** [startNewProject]; [sessionId] and [now] are the identifier and the time
    the session manager and the clock hand out. *)
Definition startNewProject (config : TeamConfiguration) (st : State)
    (projectName sessionId : string) (now : Z) (runs : nat -> Run)
  : Exc string * State :=
  let '(sessionId', st1) := startTeamSession config st projectName sessionId now in
  match assignEach config st1 sessionId' setupTasks runs with
  | (Ok _, st2) => (Ok sessionId', st2)
  | (Throw e, st2) => (Throw e, st2)
  end.

Definition reviewTask (files : option (list string)) : TaskRequest :=
  mkTask review
    "Perform comprehensive code review focusing on quality, security, and best practices"
    None high files None.

Definition runCodeReview (config : TeamConfiguration) (st : State)
    (sessionId : string) (files : option (list string)) (run : Run)
  : Exc string * State :=
  assignTask config st sessionId (reviewTask files) run.

Definition deployTasks : list TaskRequest :=
  [ mkTask testing "Run comprehensive test suite before deployment"
      None critical None None;
    mkTask deployment "Deploy application to staging environment"
      None critical None None ].

Definition deployToStaging (config : TeamConfiguration) (st : State)
    (sessionId : string) (runs : nat -> Run) (order : list nat)
  : Exc string * State :=
  match executeParallelTasks config st sessionId deployTasks runs order with
  | (Ok results, st') => (Ok (join ", " (map taskId results)), st')
  | (Throw e, st') => (Throw e, st')
  end.

Definition getProjectStatus (st : State) (sessionId : string) : option TeamSession :=
  getSessionStatus st sessionId.

Definition endProject (st : State) (sessionId : string) (now : Z)
    (writeFile : Report -> Exc unit) : Exc unit * State :=
  endSession st sessionId now writeFile.

End AgenticDevTeam.

(** ** HookManager (agentic-dev-team/src/hooks/HookManager.ts): the security-audit hook *)

Module HookManager.

Import RegexLanguage PermissionWords.

Record HookInput : Type := mkHookInput {
  hook_event_name : string;
  session_id : string;
  tool_name : option string;
  tool_input : JsValue
}.

Inductive Decision : Type := approve | block.
Inductive PermissionDecision : Type := allow | deny | ask.

Record SpecificOutput : Type := mkSpecific {
  hookEventName : string;
  permissionDecision : option PermissionDecision;
  permissionDecisionReason : option string;
  additionalContext : option string
}.

Record HookOutput : Type := mkOutput {
  continue : option bool;
  decision : option Decision;
  reason : option string;
  hookSpecificOutput : option SpecificOutput
}.

(** [v?.k] for the data property names of [getProp]. *)
Definition optionalProp (v : JsValue) (k : string) : JsValue :=
  match v with
  | JsObject props => assoc k props
  | _ => JsUndefined
  end.

(** [v || ''] *)
Definition orEmpty (v : JsValue) : JsValue :=
  if truthy v then v else JsString "".

(** What is left of [s] after each of its beginnings that [r] matches. *)
Fixpoint matchEnds (r : re) (s : string) : list string :=
  ((if nullable r then [s] else [])
   ++ match s with
      | EmptyString => []
      | String c s' => matchEnds (deriv c r) s'
      end)%list.

Fixpoint suffixes (s : string) : list string :=
  s :: match s with
       | EmptyString => []
       | String _ s' => suffixes s'
       end.

(** The expression [b] matches at the start of [s]. *)
Definition ahead (b : re) (s : string) : bool :=
  fullMatch (Cat b (Star anyChar)) s.

(** [test] for an expression of the form [a(?!b)], anchored nowhere: at some
    position [a] has a match that [b] does not follow. *)
Definition testNotFollowed (a b : re) (s : string) : bool :=
  existsb (fun t => existsb (fun rest => negb (ahead b rest)) (matchEnds a t))
    (suffixes s).

(** The literals of [dangerousPatterns] in the security-audit hook, as the
    tests they make. *)
Definition dangerousPatterns : list (string -> bool) :=
  [ (* /rm\s+-rf\s+\/(?!.*workspace)/ *)
    testNotFollowed
      (Cat (lit "rm") (Cat (Plus ws) (Cat (lit "-rf") (Cat (Plus ws) (lit "/")))))
      (Cat (Star dot) (lit "workspace"));
    (* /sudo\s+/ *)
    test (mkRegExp false (Cat (lit "sudo") (Plus ws)) false);
    (* /curl.*\|\s*sh/ *)
    test (mkRegExp false
            (Cat (lit "curl") (Cat (Star dot) (Cat (lit "|") (Cat (Star ws) (lit "sh")))))
            false);
    (* /wget.*\|\s*sh/ *)
    test (mkRegExp false
            (Cat (lit "wget") (Cat (Star dot) (Cat (lit "|") (Cat (Star ws) (lit "sh")))))
            false);
    (* /dd\s+if=/ *)
    test (mkRegExp false (Cat (lit "dd") (Cat (Plus ws) (lit "if="))) false) ].

Definition blocked : HookOutput :=
  mkOutput None (Some block) (Some "Command poses security risk")
    (Some (mkSpecific "PreToolUse" (Some deny) (Some "Security policy violation")
             None)).

Definition proceed : HookOutput := mkOutput (Some true) None None None.

Section WithRuntime.
Context `{Runtime}.

(** The text the expressions are tested on. *)
Definition commandText (input : HookInput) : string :=
  asString (orEmpty (optionalProp (tool_input input) "command")).

(** The handler of the built-in hook [security-audit]. *)
Definition securityAudit (input : HookInput) : HookOutput :=
  if bool_decide (tool_name input = Some "Bash") then
    if existsb (fun pattern => pattern (commandText input)) dangerousPatterns
    then blocked
    else proceed
  else proceed.

End WithRuntime.

(** [rest] holds [w] after characters that are no line terminators. *)
Definition onSameLine (w rest : string) : Prop :=
  exists mid post, rest = mid ++ w ++ post /\ allChars isDot mid = true.

(** The command forms the five expressions of the hook describe, in the
    order of the list. *)
Definition blockedSignature (c : string) : Prop :=
  (exists pre w1 w2 rest,
      c = pre ++ "rm" ++ w1 ++ "-rf" ++ w2 ++ "/" ++ rest
      /\ blank w1 /\ blank w2 /\ ~ onSameLine "workspace" rest)
  \/ (exists pre w post, c = pre ++ "sudo" ++ w ++ post /\ blank w)
  \/ (exists pre x w post,
        c = pre ++ "curl" ++ x ++ "|" ++ w ++ "sh" ++ post
        /\ allChars isDot x = true /\ allChars isSpace w = true)
  \/ (exists pre x w post,
        c = pre ++ "wget" ++ x ++ "|" ++ w ++ "sh" ++ post
        /\ allChars isDot x = true /\ allChars isSpace w = true)
  \/ (exists pre w post, c = pre ++ "dd" ++ w ++ "if=" ++ post /\ blank w).

End HookManager.

(** * Properties *)

(** ** Strings *)

Section StringFacts.

Lemma startsWith_app (p rest : string) : startsWith (p ++ rest) p = true.
Proof.
  induction p as [|a p IH]; simpl.
  - reflexivity.
  - rewrite Ascii.eqb_refl. exact IH.
Qed.

Lemma startsWith_inv (s p : string) :
  startsWith s p = true -> exists rest, s = p ++ rest.
Proof.
  revert s. induction p as [|b p IH]; intros s Hs.
  - exists s. reflexivity.
  - destruct s as [|a s]; simpl in Hs; [discriminate|].
    apply andb_prop in Hs as [Hab Hs].
    apply Ascii.eqb_eq in Hab. subst b.
    destruct (IH _ Hs) as [rest ->].
    exists rest. reflexivity.
Qed.

Lemma startsWith_iff (s p : string) :
  startsWith s p = true <-> exists rest, s = p ++ rest.
Proof.
  split.
  - apply startsWith_inv.
  - intros [rest ->]. apply startsWith_app.
Qed.

Lemma startsWith_refl (s : string) : startsWith s s = true.
Proof.
  induction s as [|a s IH]; simpl; [reflexivity|].
  rewrite Ascii.eqb_refl. exact IH.
Qed.

Lemma includes_startsWith (s sub : string) :
  startsWith s sub = true -> includes s sub = true.
Proof. intros Hs. destruct s; cbn [includes]; rewrite Hs; reflexivity. Qed.

Lemma includes_app_r (a b : string) : includes (a ++ b) b = true.
Proof.
  induction a as [|c a IH]; simpl.
  - apply includes_startsWith, startsWith_refl.
  - rewrite IH. apply orb_true_r.
Qed.

Lemma endsWith_refl (s : string) : endsWith s s = true.
Proof.
  destruct s as [|a s]; [reflexivity|].
  cbn [endsWith]. rewrite String.eqb_refl. reflexivity.
Qed.

Lemma endsWith_app (p suf : string) : endsWith (p ++ suf) suf = true.
Proof.
  induction p as [|a p IH].
  - exact (endsWith_refl suf).
  - simpl. rewrite IH. apply orb_true_r.
Qed.

Lemma substring_prefix (p rest : string) :
  String.substring 0 (String.length p) (p ++ rest) = p.
Proof.
  induction p as [|a p IH]; simpl.
  - destruct rest; reflexivity.
  - rewrite IH. reflexivity.
Qed.

Lemma length_app_string (p q : string) :
  String.length (p ++ q) = (String.length p + String.length q)%nat.
Proof. induction p as [|a p IH]; simpl; [reflexivity|]. rewrite IH. reflexivity. Qed.

Lemma append_assoc_string (p q r : string) : (p ++ q) ++ r = p ++ q ++ r.
Proof.
  induction p as [|a p IH]; [reflexivity|].
  change (String a ((p ++ q) ++ r) = String a (p ++ q ++ r)).
  rewrite IH. reflexivity.
Qed.

Lemma sliceEnd_app (p : string) : sliceEnd (p ++ ":*") 2 = p.
Proof.
  unfold sliceEnd. rewrite length_app_string. simpl.
  replace (String.length p + 2 - 2)%nat with (String.length p) by lia.
  apply substring_prefix.
Qed.

End StringFacts.

(** ** PermissionManager *)

Import PermissionManager.

Section PermissionFacts.
Context `{Runtime}.

Lemma includes_app_mid (a b c : string) : includes (a ++ b ++ c) b = true.
Proof.
  induction a as [|x a IH]; simpl.
  - apply includes_startsWith. exact (startsWith_app b c).
  - rewrite IH. apply orb_true_r.
Qed.

(** *** The rule scan *)

Lemma firstMatch_none (rules : list string) (tool : string) (input : JsValue) :
  (forall r, r ∈ rules -> matchesRule r tool input = Ok false) ->
  firstMatch rules tool input = Ok None.
Proof.
  induction rules as [|r rules IH]; intros Hall; [reflexivity|].
  cbn [firstMatch]. rewrite (Hall r) by constructor. cbn.
  apply IH. intros r' Hr'. apply Hall. by constructor.
Qed.

Lemma firstMatch_first (pre : list string) (rule : string) (post : list string)
    (tool : string) (input : JsValue) :
  (forall r, r ∈ pre -> matchesRule r tool input = Ok false) ->
  matchesRule rule tool input = Ok true ->
  firstMatch (pre ++ rule :: post) tool input = Ok (Some rule).
Proof.
  induction pre as [|r pre IH]; intros Hpre Hrule.
  - cbn [app firstMatch]. rewrite Hrule. reflexivity.
  - cbn [app firstMatch]. rewrite (Hpre r) by constructor. cbn.
    apply IH; [|exact Hrule]. intros r' Hr'. apply Hpre. by constructor.
Qed.

Lemma firstMatch_Some (rules : list string) (tool : string) (input : JsValue)
    (rule : string) :
  firstMatch rules tool input = Ok (Some rule) ->
  rule ∈ rules /\ matchesRule rule tool input = Ok true.
Proof.
  induction rules as [|r rules IH]; cbn [firstMatch]; [discriminate|].
  destruct (matchesRule r tool input) as [[|]|e] eqn:E; cbn; intros Hm.
  - injection Hm as <-. split; [constructor | exact E].
  - destruct (IH Hm) as [Hin Hr]. split; [by constructor | exact Hr].
  - discriminate.
Qed.

(** A rule that matches is never passed over: the scan stops at it, at an
    earlier match, or at an earlier rule that threw. *)
Lemma firstMatch_hit (rules : list string) (tool : string) (input : JsValue)
    (rule : string) :
  rule ∈ rules ->
  matchesRule rule tool input = Ok true ->
  firstMatch rules tool input <> Ok None.
Proof.
  induction rules as [|r rules IH]; intros Hin Hrule.
  - by apply elem_of_nil in Hin.
  - cbn [firstMatch].
    destruct (matchesRule r tool input) as [[|]|e] eqn:E; cbn; try discriminate.
    apply elem_of_cons in Hin as [->|Hin]; [congruence|].
    by apply IH.
Qed.

(** What [evaluatePermission] returns and logs when the deny scan finds a
    rule. *)
Lemma evaluatePermission_denied (rules : PermissionRules) (auditLog : list AuditEntry)
    (now : Z) (ctx : PermissionContext) (rule : string) :
  firstMatch (deny rules) (toolName ctx) (input ctx) = Ok (Some rule) ->
  fst (evaluatePermission rules auditLog now ctx)
  = mkResult Deny None (Some ("Tool use denied by rule: " ++ rule))
      (Some (isCriticalRule rule)).
Proof.
  intros E. unfold evaluatePermission, decide_, checkDenyRules.
  rewrite E. reflexivity.
Qed.

(** What it returns when the allow scan finds a rule: no message. *)
Lemma evaluatePermission_allowed (rules : PermissionRules) (auditLog : list AuditEntry)
    (now : Z) (ctx : PermissionContext) (rule : string) :
  firstMatch (deny rules) (toolName ctx) (input ctx) = Ok None ->
  firstMatch (allow rules) (toolName ctx) (input ctx) = Ok (Some rule) ->
  fst (evaluatePermission rules auditLog now ctx)
  = mkResult Allow (Some (input ctx)) None None.
Proof.
  intros Ed Ea. unfold evaluatePermission, decide_, checkDenyRules, checkAllowRules.
  rewrite Ed. cbn. rewrite Ea. reflexivity.
Qed.

(** What it returns when only the ask scan finds a rule. *)
Lemma evaluatePermission_asked (rules : PermissionRules) (auditLog : list AuditEntry)
    (now : Z) (ctx : PermissionContext) (rule : string) :
  firstMatch (deny rules) (toolName ctx) (input ctx) = Ok None ->
  firstMatch (allow rules) (toolName ctx) (input ctx) = Ok None ->
  firstMatch (ask rules) (toolName ctx) (input ctx) = Ok (Some rule) ->
  fst (evaluatePermission rules auditLog now ctx)
  = mkResult Allow None (Some ("Tool approved (would normally ask): " ++ rule)) None.
Proof.
  intros Ed Ea Ek.
  unfold evaluatePermission, decide_, checkDenyRules, checkAllowRules, checkAskRules.
  rewrite Ed. cbn. rewrite Ea. cbn. rewrite Ek. reflexivity.
Qed.


(** Unless the deny scan runs through the rules without a match and
    without an error, the verdict is deny. *)
Lemma deny_scan_decides (rules : PermissionRules) (auditLog : list AuditEntry)
    (now : Z) (ctx : PermissionContext) :
  firstMatch (deny rules) (toolName ctx) (input ctx) <> Ok None ->
  behavior (fst (evaluatePermission rules auditLog now ctx)) = Deny.
Proof.
  intros Hhit. unfold evaluatePermission, decide_, checkDenyRules.
  destruct (firstMatch (deny rules) (toolName ctx) (input ctx)) as [[r|]|e];
    cbn; [reflexivity | congruence | reflexivity].
Qed.

(** C1.  If some deny rule matches the evaluated pair, [evaluatePermission]
    returns the verdict deny, whatever the allow and ask rules are and
    whether or not one of them matches the same pair: the deny rules are
    scanned first and nothing after the scan can turn the verdict. *)
Theorem C1_deny_dominates (rules : PermissionRules) (auditLog : list AuditEntry)
    (now : Z) (ctx : PermissionContext) (rule : string) :
  rule ∈ deny rules ->
  matchesRule rule (toolName ctx) (input ctx) = Ok true ->
  behavior (fst (evaluatePermission rules auditLog now ctx)) = Deny.
Proof.
  intros Hin Hrule. apply deny_scan_decides.
  exact (firstMatch_hit _ _ _ _ Hin Hrule).
Qed.

(** *** Command rules *)

Lemma matchesBashRule_prefix (prefix c : string) :
  matchesBashRule (prefix ++ ":*") (JsString c)
  = Ok (negb (String.eqb c "") && startsWith c prefix).
Proof.
  unfold matchesBashRule. cbn [truthy].
  destruct (String.eqb c "") eqn:Ec; cbn; [reflexivity|].
  rewrite endsWith_app, sliceEnd_app. reflexivity.
Qed.

(** C5, as the code has it.  A rule pattern [X:*] matches a command string
    if and only if the command is not empty and starts with [X]; the match
    never throws, so a command that holds [X] elsewhere only is not matched. *)
Theorem C5_prefix_rule (X c : string) :
  (matchesBashRule (X ++ ":*") (JsString c) = Ok true
   <-> c <> "" /\ exists rest, c = X ++ rest)
  /\ (matchesBashRule (X ++ ":*") (JsString c) = Ok true
      \/ matchesBashRule (X ++ ":*") (JsString c) = Ok false).
Proof.
  rewrite matchesBashRule_prefix. split.
  - rewrite <- startsWith_iff. split.
    + intros Heq. injection Heq as Heq. apply andb_prop in Heq as [Hne Hpre].
      split; [|exact Hpre]. intros ->. discriminate.
    + intros [Hne Hpre]. rewrite Hpre.
      destruct (String.eqb_spec c ""); [contradiction|reflexivity].
  - destruct (negb (String.eqb c "") && startsWith c X); [left|right]; reflexivity.
Qed.

Lemma span_close (X tail : string) :
  includes X ")" = false ->
  span (Ascii.eqb ")") (X ++ String ")" tail) = (X, String ")" tail).
Proof.
  induction X as [|a X IH]; intros Hno.
  - reflexivity.
  - cbn [includes startsWith] in Hno.
    apply orb_false_elim in Hno as [Ha Hno].
    rewrite andb_true_r in Ha.
    change (String a X ++ String ")" tail) with (String a (X ++ String ")" tail)).
    cbn [span]. rewrite Ascii.eqb_sym, Ha, (IH Hno). reflexivity.
Qed.

Lemma parseRule_scoped (tool pattern : string) :
  tool <> "" ->
  includes tool "(" = false ->
  includes pattern ")" = false ->
  parseRule (tool ++ "(" ++ pattern ++ ")") = Some (tool, Some pattern).
Proof.
  intros Hne Htool Hpat. unfold parseRule.
  assert (Hspan : span (Ascii.eqb "(") (tool ++ "(" ++ pattern ++ ")")
                  = (tool, "(" ++ pattern ++ ")")).
  { clear Hne. induction tool as [|a tool IH]; [reflexivity|].
    cbn [includes startsWith] in Htool.
    apply orb_false_elim in Htool as [Ha Htool].
    rewrite andb_true_r in Ha.
    change (String a tool ++ "(" ++ pattern ++ ")")
      with (String a (tool ++ "(" ++ pattern ++ ")")).
    cbn [span]. rewrite Ascii.eqb_sym, Ha, (IH Htool). reflexivity. }
  rewrite Hspan. destruct tool as [|a tool]; [contradiction|].
  change ("(" ++ pattern ++ ")") with (String "(" (pattern ++ String ")" EmptyString)).
  cbv beta iota.
  rewrite (span_close pattern EmptyString Hpat). reflexivity.
Qed.

(** The same at the level of rules: the Bash rule whose pattern is [X:*], on
    a Bash request whose input carries the command [c]. *)
Lemma matchesRule_bash_prefix (X c : string) (others : list (string * JsValue)) :
  includes X ")" = false ->
  matchesRule ("Bash(" ++ X ++ ":*)") "Bash" (JsObject (("command", JsString c) :: others))
  = Ok (negb (String.eqb c "") && startsWith c X).
Proof.
  intros HX. unfold matchesRule.
  assert (Hpat : includes (X ++ ":*") ")" = false).
  { induction X as [|a X IH]; [reflexivity|].
    cbn [includes startsWith] in HX.
    apply orb_false_elim in HX as [Ha HX].
    change (String a X ++ ":*") with (String a (X ++ ":*")).
    cbn [includes startsWith]. rewrite Ha, (IH HX). reflexivity. }
  pose proof (parseRule_scoped "Bash" (X ++ ":*") ltac:(discriminate) eq_refl Hpat)
    as Hparse.
  replace ("Bash(" ++ X ++ ":*)") with ("Bash" ++ "(" ++ (X ++ ":*") ++ ")").
  2:{ rewrite (append_assoc_string X ":*" ")"). reflexivity. }
  rewrite Hparse. cbn [String.eqb Ascii.eqb Bool.eqb negb andb].
  destruct (X ++ ":*") as [|a p] eqn:Ep.
  { destruct X; discriminate. }
  rewrite <- Ep. cbn [getProp assoc String.eqb Ascii.eqb Bool.eqb].
  cbn. apply matchesBashRule_prefix.
Qed.

(** *** Errors *)





(** *** Ask rules *)

(** C9, as amended.  When every deny rule, every allow rule and every ask
    rule before [rule] tests false on the pair, without throwing, and the
    ask rule [rule] tests true, the verdict is allow and the message names
    the rule and says that the operation would normally ask; the decision
    made on an allow rule carries no message, so the two differ.  A rule
    that throws before [rule] is reached ends the scan in a denial. *)
Theorem C9_ask_rule_auto_approved (rules : PermissionRules)
    (auditLog : list AuditEntry) (now : Z) (ctx : PermissionContext)
    (pre : list string) (rule : string) (post : list string) :
  (forall r, r ∈ deny rules -> matchesRule r (toolName ctx) (input ctx) = Ok false) ->
  (forall r, r ∈ allow rules -> matchesRule r (toolName ctx) (input ctx) = Ok false) ->
  ask rules = (pre ++ rule :: post)%list ->
  (forall r, r ∈ pre -> matchesRule r (toolName ctx) (input ctx) = Ok false) ->
  matchesRule rule (toolName ctx) (input ctx) = Ok true ->
  exists msg,
    fst (evaluatePermission rules auditLog now ctx) = mkResult Allow None (Some msg) None
    /\ msg = "Tool approved (would normally ask): " ++ rule
    /\ includes msg rule = true
    /\ includes msg "would normally ask" = true
    /\ (forall rules' auditLog' now' ctx' rule',
          firstMatch (deny rules') (toolName ctx') (input ctx') = Ok None ->
          firstMatch (allow rules') (toolName ctx') (input ctx') = Ok (Some rule') ->
          message (fst (evaluatePermission rules' auditLog' now' ctx')) <> Some msg).
Proof.
  intros Hdeny Hallow Hask Hpre Hrule.
  rewrite (evaluatePermission_asked rules auditLog now ctx rule);
    [ | by apply firstMatch_none | by apply firstMatch_none
      | rewrite Hask; by apply firstMatch_first ].
  eexists. split; [reflexivity|]. split; [reflexivity|].
  split; [apply includes_app_r|].
  split; [apply (includes_app_mid "Tool approved (" "would normally ask" ("): " ++ rule))|].
  intros rules' auditLog' now' ctx' rule' Hd Ha.
  rewrite (evaluatePermission_allowed _ _ _ _ _ Hd Ha). discriminate.
Qed.

(** *** The bare wildcard *)

Lemma matchesRule_star (tool : string) (input : JsValue) :
  matchesRule "*" tool input = Ok true.
Proof.
  unfold matchesRule. cbn [parseRule span]. cbn.
  rewrite andb_false_r. reflexivity.
Qed.

(** C10.  The rule [*] matches every request, whatever the tool and the
    input, and so does [*()]; with the rule [*] among the deny rules every
    request is denied. *)
Theorem C10_bare_wildcard_rule (rules : PermissionRules) :
  "*" ∈ deny rules ->
  (forall tool input,
      matchesRule "*" tool input = Ok true /\ matchesRule "*()" tool input = Ok true)
  /\ (forall auditLog now ctx,
        behavior (fst (evaluatePermission rules auditLog now ctx)) = Deny).
Proof.
  intros Hin. split.
  - intros tool input. split; [apply matchesRule_star|].
    unfold matchesRule. cbn. rewrite andb_false_r. reflexivity.
  - intros auditLog now ctx.
    apply deny_scan_decides.
    exact (firstMatch_hit _ _ _ _ Hin (matchesRule_star _ _)).
Qed.

End PermissionFacts.

(** ** CostTracker *)

Section CostFacts.
Import CostTracker.

Lemma processMessage_recorded (st : State) (now : string) (m : Message) :
  msg_id m ∈ processedMessageIds st -> processMessage st now m = (None, st).
Proof.
  intros Hin. unfold processMessage.
  destruct (negb (String.eqb (msg_type m) "assistant")); [reflexivity|].
  destruct (msg_usage m); [|reflexivity].
  rewrite bool_decide_eq_true_2 by exact Hin. reflexivity.
Qed.

Lemma processMessage_records (st : State) (now : string) (m : Message)
    (recorded : StepUsage) (st' : State) :
  processMessage st now m = (Some recorded, st') ->
  msg_id m ∈ processedMessageIds st'.
Proof.
  unfold processMessage.
  destruct (negb (String.eqb (msg_type m) "assistant")); [discriminate|].
  destruct (msg_usage m); [|discriminate].
  destruct (bool_decide (msg_id m ∈ processedMessageIds st)); [discriminate|].
  intros Heq. injection Heq as _ <-. cbn. set_solver.
Qed.

Lemma processMessage_keeps (st : State) (now : string) (m : Message) (i : string) :
  i ∈ processedMessageIds st ->
  i ∈ processedMessageIds (snd (processMessage st now m)).
Proof.
  intros Hin. unfold processMessage.
  destruct (negb (String.eqb (msg_type m) "assistant")); [exact Hin|].
  destruct (msg_usage m); [|exact Hin].
  destruct (bool_decide (msg_id m ∈ processedMessageIds st)); [exact Hin|].
  cbn. set_solver.
Qed.

Lemma processAll_keeps (calls : list (string * Message)) (st : State) (i : string) :
  i ∈ processedMessageIds st -> i ∈ processedMessageIds (processAll st calls).
Proof.
  revert st. induction calls as [|c calls IH]; intros st Hin; [exact Hin|].
  cbn. apply IH. by apply processMessage_keeps.
Qed.

(** C3.  Once a call of [processMessage] has recorded a message, a later
    call with a message of the same identifier, whatever its usage and
    whatever was processed in between, returns nothing and leaves the state
    as it is: no ledger entry is added and the total cost and the total usage
    are unchanged. *)
Theorem C3_duplicate_is_noop (st : State) (now : string) (m : Message)
    (recorded : StepUsage) (st1 : State) (between : list (string * Message))
    (now' : string) (m' : Message) :
  processMessage st now m = (Some recorded, st1) ->
  msg_id m' = msg_id m ->
  let st2 := processAll st1 between in
  let '(answer, st3) := processMessage st2 now' m' in
  answer = None
  /\ st3 = st2
  /\ stepUsages st3 = stepUsages st2
  /\ getTotalCost st3 = getTotalCost st2
  /\ getTotalUsage st3 = getTotalUsage st2.
Proof.
  intros Hfirst Hid st2.
  rewrite processMessage_recorded.
  - repeat split; reflexivity.
  - rewrite Hid. apply processAll_keeps.
    exact (processMessage_records _ _ _ _ _ Hfirst).
Qed.

End CostFacts.

(** ** TeamManager *)

Section TeamFacts.
Import CostTracker TeamManager.

Variable config : TeamConfiguration.

(** *** One task *)

Lemma executeTask_raises (st : State) (sessionId : string) (task : TaskRequest)
    (member : TeamMember) (run : Run) (error : JsError) :
  engine run (queryFor config task member) = raises error ->
  executeTask config st sessionId task member run = (failedResult run error, st).
Proof. intros Hrun. unfold executeTask. rewrite Hrun. reflexivity. Qed.

(** The outcome of a task is a completed result, recorded in its session,
    or a failed result and no change. *)
Lemma executeTask_cases (st : State) (sessionId : string) (task : TaskRequest)
    (member : TeamMember) (run : Run) :
  (exists error,
      executeTask config st sessionId task member run = (failedResult run error, st))
  \/ (exists session text u,
        activeSessions st !! sessionId = Some session
        /\ recordSuccess (Some session) run text (Some u)
           = Ok (fst (executeTask config st sessionId task member run),
                 mkSession (session_id session) (session_name session)
                   (startTime session) (session_workspace session)
                   (activeMembers session) (currentTasks session)
                   (completedTasks session
                      ++ [fst (executeTask config st sessionId task member run)])%list
                   (totalCost session
                    + orZero (cost (fst (executeTask config st sessionId task member run))))%float
                   (aggregateUsage (totalUsage session) u))
        /\ fst (executeTask config st sessionId task member run)
           = mkTaskResult (run_taskId run) completed (Some text) (Some u)
               (Some (calculateCost u)) (Some (run_end run - run_start run)%Z)
        /\ activeSessions (snd (executeTask config st sessionId task member run))
           = <[sessionId :=
                 mkSession (session_id session) (session_name session)
                   (startTime session) (session_workspace session)
                   (activeMembers session) (currentTasks session)
                   (completedTasks session
                      ++ [fst (executeTask config st sessionId task member run)])%list
                   (totalCost session
                    + orZero (cost (fst (executeTask config st sessionId task member run))))%float
                   (aggregateUsage (totalUsage session) u)]> (activeSessions st)).
Proof.
  unfold executeTask.
  destruct (engine run (queryFor config task member)) as [text [u|]| |error];
    destruct (activeSessions st !! sessionId) as [session|] eqn:Es; cbn;
    try (left; eexists; reflexivity).
  - right. exists session, text, u. repeat split; reflexivity.
  - right. exists session, "", emptyUsage. repeat split; reflexivity.
Qed.

Lemma executeTask_taskId (st : State) (sessionId : string) (task : TaskRequest)
    (member : TeamMember) (run : Run) :
  taskId (fst (executeTask config st sessionId task member run)) = run_taskId run.
Proof.
  destruct (executeTask_cases st sessionId task member run)
    as [[error ->]|(session & text & u & _ & _ & -> & _)]; reflexivity.
Qed.

Lemma executeTask_status (st : State) (sessionId : string) (task : TaskRequest)
    (member : TeamMember) (run : Run) :
  status (fst (executeTask config st sessionId task member run)) = completed
  \/ status (fst (executeTask config st sessionId task member run)) = failed.
Proof.
  destruct (executeTask_cases st sessionId task member run)
    as [[error ->]|(session & text & u & _ & _ & -> & _)]; [right|left]; reflexivity.
Qed.

(** A task touches no session but its own, and creates none. *)
Lemma executeTask_lookup_None (st : State) (sessionId : string) (task : TaskRequest)
    (member : TeamMember) (run : Run) (k : string) :
  activeSessions st !! k = None ->
  activeSessions (snd (executeTask config st sessionId task member run)) !! k = None.
Proof.
  intros Hk.
  destruct (executeTask_cases st sessionId task member run)
    as [[error ->]|(session & text & u & Hs & _ & _ & ->)]; [exact Hk|].
  rewrite lookup_insert_ne; [exact Hk|]. intros ->. congruence.
Qed.

Lemma executeTask_lookup_Some (st : State) (sessionId : string) (task : TaskRequest)
    (member : TeamMember) (run : Run) (k : string) :
  is_Some (activeSessions st !! k) ->
  is_Some (activeSessions (snd (executeTask config st sessionId task member run)) !! k).
Proof.
  intros Hk.
  destruct (executeTask_cases st sessionId task member run)
    as [[error ->]|(session & text & u & Hs & _ & _ & ->)]; [exact Hk|].
  destruct (decide (sessionId = k)) as [->|Hne].
  - rewrite lookup_insert_eq. eauto.
  - rewrite lookup_insert_ne by exact Hne. exact Hk.
Qed.

(** The result of a task depends on the table only through the presence of
    its session. *)
Lemma executeTask_result_indep (st1 st2 : State) (sessionId : string)
    (task : TaskRequest) (member : TeamMember) (run : Run) :
  is_Some (activeSessions st1 !! sessionId) ->
  is_Some (activeSessions st2 !! sessionId) ->
  fst (executeTask config st1 sessionId task member run)
  = fst (executeTask config st2 sessionId task member run).
Proof.
  intros [s1 H1] [s2 H2]. unfold executeTask. rewrite H1, H2.
  destruct (engine run (queryFor config task member)) as [text [u|]| |error];
    reflexivity.
Qed.

(** C2, on the code.  When the engine raises an error, [executeTask] returns
    a result of status failed whose text carries the message of the error,
    and it leaves the session table as it was: the session of the task is
    the one it was before, its list of completed tasks has not grown and the
    failed result is not in it. *)
Theorem C2_failed_task_not_recorded (st : State) (sessionId : string)
    (session : TeamSession) (task : TaskRequest) (member : TeamMember) (run : Run)
    (error : JsError) :
  getSessionStatus st sessionId = Some session ->
  engine run (queryFor config task member) = raises error ->
  let '(r, st') := executeTask config st sessionId task member run in
  r = mkTaskResult (run_taskId run) failed
        (Some ("Task failed: " ++ err_message error)) None None None
  /\ st' = st
  /\ exists session',
       getSessionStatus st' sessionId = Some session'
       /\ completedTasks session' = completedTasks session
       /\ length (completedTasks session') = length (completedTasks session).
Proof.
  intros Hs Hrun. rewrite (executeTask_raises _ _ _ _ _ _ Hrun).
  split; [reflexivity|]. split; [reflexivity|].
  exists session. split; [exact Hs|]. split; reflexivity.
Qed.

(** *** The balance of a session *)

Lemma sumCost_snoc (results : list TaskResult) (r : TaskResult) :
  sumCost (results ++ [r]) = (sumCost results + orZero (cost r))%float.
Proof. unfold sumCost. rewrite fold_left_app. reflexivity. Qed.

Lemma foldUsage_snoc (results : list TaskResult) (r : TaskResult) (u : UsageData) :
  usage r = Some u ->
  foldUsage (results ++ [r]) = aggregateUsage (foldUsage results) u.
Proof. intros Hu. unfold foldUsage. rewrite fold_left_app. cbn. rewrite Hu. reflexivity. Qed.

Lemma allBalanced_new : allBalanced new.
Proof. apply map_Forall_empty. Qed.

Lemma allBalanced_executeTask (st : State) (sessionId : string) (task : TaskRequest)
    (member : TeamMember) (run : Run) :
  allBalanced st ->
  allBalanced (snd (executeTask config st sessionId task member run)).
Proof.
  intros Hall. unfold allBalanced.
  destruct (executeTask_cases st sessionId task member run)
    as [[error ->]|(session & text & u & Hs & _ & Hres & ->)]; [exact Hall|].
  apply map_Forall_insert_2; [|exact Hall].
  destruct (Hall _ _ Hs) as [Hcost Husage].
  split; cbn [totalCost totalUsage completedTasks].
  - rewrite sumCost_snoc, Hcost. reflexivity.
  - rewrite (foldUsage_snoc _ _ u), Husage; [reflexivity|].
    rewrite Hres. reflexivity.
Qed.

Lemma allBalanced_finish (sessionId : string)
    (prepared : list (Exc (TaskRequest * TeamMember * Run))) (order : list nat)
    (st : State) :
  allBalanced st ->
  allBalanced (fold_left (finish config sessionId prepared) order st).
Proof.
  revert st. induction order as [|i order IH]; intros st Hall; [exact Hall|].
  cbn [fold_left]. apply IH. unfold finish.
  destruct (prepared !! i) as [[[[task member] run]|e]|]; try exact Hall.
  by apply allBalanced_executeTask.
Qed.

Lemma allBalanced_step (st : State) (c : Call) :
  allBalanced st -> allBalanced (step config st c).
Proof.
  intros Hall. destruct c as [sessionName sessionId now | sessionId task run
                             | sessionId tasks runs order | sessionId now writeFile];
    cbn [step].
  - cbn. apply map_Forall_insert_2; [|exact Hall]. split; reflexivity.
  - unfold assignTask.
    destruct (activeSessions st !! sessionId) as [session|] eqn:Es; [|exact Hall].
    destruct (selectTeamMember config task) as [member|]; [|exact Hall].
    match goal with
    | |- context [executeTask config ?st' sessionId ?t member run] =>
        pose proof (allBalanced_executeTask st' sessionId t member run) as Hex;
        destruct (executeTask config st' sessionId t member run) as [res st'']
    end.
    cbn [snd] in *. apply Hex.
    apply map_Forall_insert_2; [|exact Hall].
    exact (Hall _ _ Es).
  - unfold executeParallelTasks.
    destruct (activeSessions st !! sessionId) as [session|]; [|exact Hall].
    cbn [snd]. by apply allBalanced_finish.
  - unfold endSession.
    destruct (activeSessions st !! sessionId) as [session|]; [|exact Hall].
    destruct (writeFile _); [|exact Hall].
    cbn. by apply map_Forall_delete.
Qed.

Lemma allBalanced_steps (calls : list Call) (st : State) :
  allBalanced st -> allBalanced (fold_left (step config) calls st).
Proof.
  revert st. induction calls as [|c calls IH]; intros st Hall; [exact Hall|].
  cbn [fold_left]. apply IH. by apply allBalanced_step.
Qed.

(** C4.  After any sequence of calls of [startTeamSession], [assignTask],
    [executeParallelTasks] and [endSession] on a fresh manager, every session
    of the table has a total cost equal to the sum of the cost of its
    completed tasks, where a cost that is missing or is not a number counts
    as zero (the value of [cost || 0]), and a total usage equal to the fold
    of [aggregateUsage] over the usage of its completed tasks. *)
Theorem C4_session_totals (calls : list Call) (sessionId : string)
    (session : TeamSession) :
  getSessionStatus (after config calls) sessionId = Some session ->
  totalCost session = sumCost (completedTasks session)
  /\ totalUsage session = foldUsage (completedTasks session).
Proof.
  intros Hs.
  exact (allBalanced_steps calls new allBalanced_new sessionId session Hs).
Qed.

(** *** The parallel entry point *)

Lemma selectTeamMember_is_Some (task : TaskRequest) :
  members config <> [] -> exists member, selectTeamMember config task = Some member.
Proof.
  intros Hne. unfold selectTeamMember.
  destruct (List.filter _ (members config)) as [|c rest]; [|eauto].
  destruct (List.find _ (members config)) as [m|]; [eauto|].
  destruct (members config) as [|m rest]; [contradiction|]. cbn. eauto.
Qed.

Lemma promiseAll_settle (st : State) (sessionId : string) (tasks : list TaskRequest)
    (runs : nat -> Run) :
  members config <> [] ->
  exists results,
    promiseAll (map (settle config st sessionId) (imap (prepare config runs) tasks))
    = Ok results
    /\ length results = length tasks
    /\ forall i task, tasks !! i = Some task ->
         exists member,
           selectTeamMember config task = Some member
           /\ results !! i
              = Some (fst (executeTask config st sessionId
                             (withAssignee task member) member (runs i))).
Proof.
  intros Hne. revert runs.
  induction tasks as [|task tasks IH]; intros runs.
  - exists []. split; [reflexivity|]. split; [reflexivity|].
    intros i t Hi. discriminate.
  - destruct (IH (fun i => runs (S i))) as (results & Hall & Hlen & Hnth).
    destruct (selectTeamMember_is_Some task Hne) as [member Hsel].
    exists (fst (executeTask config st sessionId (withAssignee task member) member
                   (runs 0%nat)) :: results).
    split; [|split].
    + cbn [imap map promiseAll].
      change (imap (prepare config runs ∘ S) tasks)
        with (imap (prepare config (fun i => runs (S i))) tasks).
      rewrite Hall. unfold prepare. rewrite Hsel. reflexivity.
    + cbn. rewrite Hlen. reflexivity.
    + intros [|i] t Hi; cbn in Hi.
      * injection Hi as <-. exists member. split; [exact Hsel|reflexivity].
      * destruct (Hnth i t Hi) as (m & Hm & Hr). exists m. split; [exact Hm|exact Hr].
Qed.

(** C7.  On a team with at least one member and a session of the table,
    [executeParallelTasks] returns as many results as it was given tasks, in
    the order of the tasks: the result at a position is the result of the
    task at that position, it bears the identifier of that task's run and is
    completed or failed.  A task whose engine raises an error gets a failed
    result of its own; the results at the other positions are what they are
    without it. *)
Theorem C7_parallel_results (st : State) (sessionId : string)
    (session : TeamSession) (tasks : list TaskRequest) (runs : nat -> Run)
    (order : list nat) :
  members config <> [] ->
  activeSessions st !! sessionId = Some session ->
  exists results,
    fst (executeParallelTasks config st sessionId tasks runs order) = Ok results
    /\ length results = length tasks
    /\ forall i task, tasks !! i = Some task ->
         exists member r,
           selectTeamMember config task = Some member
           /\ results !! i = Some r
           /\ r = fst (executeTask config st sessionId
                         (withAssignee task member) member (runs i))
           /\ taskId r = run_taskId (runs i)
           /\ (status r = completed \/ status r = failed)
           /\ forall error,
                engine (runs i) (queryFor config (withAssignee task member) member)
                = raises error ->
                r = failedResult (runs i) error.
Proof.
  intros Hne Hs. unfold executeParallelTasks. rewrite Hs. cbn [fst].
  destruct (promiseAll_settle st sessionId tasks runs Hne)
    as (results & Hall & Hlen & Hnth).
  exists results. split; [exact Hall|]. split; [exact Hlen|].
  intros i task Hi. destruct (Hnth i task Hi) as (member & Hsel & Hr).
  exists member, (fst (executeTask config st sessionId
                         (withAssignee task member) member (runs i))).
  split; [exact Hsel|]. split; [exact Hr|]. split; [reflexivity|].
  split; [apply executeTask_taskId|]. split; [apply executeTask_status|].
  intros error Herr. rewrite (executeTask_raises _ _ _ _ _ _ Herr). reflexivity.
Qed.

(** The tasks of a batch finish once each, in some order. *)
Lemma completionOrder_permutation (n : nat) (order : list nat) :
  completionOrder n order ≡ₚ seq 0 n.
Proof.
  unfold completionOrder.
  set (named := remove_dups (filter (fun i => i < n)%nat order)).
  assert (Hnamed : forall x, x ∈ named -> (x < n)%nat).
  { intros x Hx. subst named.
    apply elem_of_remove_dups, list_elem_of_filter in Hx as [Hlt _]. exact Hlt. }
  apply NoDup_Permutation.
  - apply NoDup_app. split; [apply NoDup_remove_dups|]. split.
    + intros x Hx Hx'. apply list_elem_of_filter in Hx' as [Hnot _]. contradiction.
    + apply NoDup_filter, NoDup_seq.
  - apply NoDup_seq.
  - intros x. rewrite elem_of_app, list_elem_of_filter, elem_of_seq. split.
    + intros [Hx|[_ Hx]]; [apply Hnamed in Hx; lia | exact Hx].
    + intros Hx. destruct (decide (x ∈ named)); [left | right]; tauto.
Qed.

(** While the tasks of a batch finish, the session stays in the table, so
    the result of each task is the same whenever it finishes. *)
Lemma finish_keeps_session (sessionId : string)
    (prepared : list (Exc (TaskRequest * TeamMember * Run))) (order : list nat)
    (st : State) (k : string) :
  is_Some (activeSessions st !! k) ->
  is_Some (activeSessions (fold_left (finish config sessionId prepared) order st) !! k).
Proof.
  revert st. induction order as [|i order IH]; intros st Hk; [exact Hk|].
  cbn [fold_left]. apply IH. unfold finish.
  destruct (prepared !! i) as [[[[task member] run]|e]|]; try exact Hk.
  by apply executeTask_lookup_Some.
Qed.

Lemma result_when_finished (sessionId : string)
    (prepared : list (Exc (TaskRequest * TeamMember * Run))) (order : list nat)
    (st : State) (task : TaskRequest) (member : TeamMember) (run : Run) :
  is_Some (activeSessions st !! sessionId) ->
  fst (executeTask config (fold_left (finish config sessionId prepared) order st)
         sessionId task member run)
  = fst (executeTask config st sessionId task member run).
Proof.
  intros Hs. apply executeTask_result_indep; [|exact Hs].
  by apply finish_keeps_session.
Qed.

(** *** The end of a session *)

Lemma finish_lookup_None (sessionId : string)
    (prepared : list (Exc (TaskRequest * TeamMember * Run))) (order : list nat)
    (st : State) (k : string) :
  activeSessions st !! k = None ->
  activeSessions (fold_left (finish config sessionId prepared) order st) !! k = None.
Proof.
  revert st. induction order as [|i order IH]; intros st Hk; [exact Hk|].
  cbn [fold_left]. apply IH. unfold finish.
  destruct (prepared !! i) as [[[[task member] run]|e]|]; try exact Hk.
  by apply executeTask_lookup_None.
Qed.

Lemma step_lookup_None (st : State) (c : Call) (k : string) :
  ~ restarts k c ->
  activeSessions st !! k = None ->
  activeSessions (step config st c) !! k = None.
Proof.
  intros Hc Hk.
  destruct c as [sessionName sessionId now | sessionId task run
                | sessionId tasks runs order | sessionId now writeFile];
    cbn [step].
  - cbn. rewrite lookup_insert_ne; [exact Hk|]. exact Hc.
  - unfold assignTask.
    destruct (activeSessions st !! sessionId) as [session|] eqn:Es; [|exact Hk].
    destruct (selectTeamMember config task) as [member|]; [|exact Hk].
    match goal with
    | |- context [executeTask config ?st' sessionId ?t member run] =>
        pose proof (executeTask_lookup_None st' sessionId t member run k) as Hex;
        destruct (executeTask config st' sessionId t member run) as [res st'']
    end.
    cbn [snd] in *. apply Hex.
    cbn. rewrite lookup_insert_ne; [exact Hk|]. intros ->. congruence.
  - unfold executeParallelTasks.
    destruct (activeSessions st !! sessionId) as [session|]; [|exact Hk].
    cbn [snd]. by apply finish_lookup_None.
  - unfold endSession.
    destruct (activeSessions st !! sessionId) as [session|]; [|exact Hk].
    destruct (writeFile _); [|exact Hk].
    cbn. rewrite lookup_delete_None. by right.
Qed.

Lemma steps_lookup_None (calls : list Call) (st : State) (k : string) :
  Forall (fun c => ~ restarts k c) calls ->
  activeSessions st !! k = None ->
  activeSessions (fold_left (step config) calls st) !! k = None.
Proof.
  revert st. induction calls as [|c calls IH]; intros st Hcalls Hk; [exact Hk|].
  apply Forall_cons in Hcalls as [Hc Hcalls].
  cbn [fold_left]. apply IH; [exact Hcalls|]. by apply step_lookup_None.
Qed.

(** C8.  After [endSession] has completed for a session, and after any
    further calls among which none starts a session under the same
    identifier, [getSessionStatus] returns nothing for the identifier, and
    [assignTask], [executeParallelTasks] and [endSession] on it raise the
    session-not-found error and change nothing. *)
Theorem C8_ended_session_not_found (st : State) (sessionId : string) (now : Z)
    (writeFile : Report -> Exc unit) (st' : State) (later : list Call) :
  endSession st sessionId now writeFile = (Ok tt, st') ->
  Forall (fun c => ~ restarts sessionId c) later ->
  let st'' := fold_left (step config) later st' in
  getSessionStatus st'' sessionId = None
  /\ (forall task run,
        assignTask config st'' sessionId task run = (sessionNotFound sessionId, st''))
  /\ (forall tasks runs order,
        executeParallelTasks config st'' sessionId tasks runs order
        = (sessionNotFound sessionId, st''))
  /\ (forall now' writeFile',
        endSession st'' sessionId now' writeFile' = (sessionNotFound sessionId, st'')).
Proof.
  intros Hend Hlater st''.
  assert (Hgone : activeSessions st'' !! sessionId = None).
  { apply steps_lookup_None; [exact Hlater|].
    unfold endSession in Hend.
    destruct (activeSessions st !! sessionId) as [session|]; [|discriminate].
    destruct (writeFile _); [|discriminate].
    injection Hend as <-. cbn. apply lookup_delete_eq. }
  split; [exact Hgone|].
  split; [|split].
  - intros task run. unfold assignTask. rewrite Hgone. reflexivity.
  - intros tasks runs order. unfold executeParallelTasks. rewrite Hgone. reflexivity.
  - intros now' writeFile'. unfold endSession. rewrite Hgone. reflexivity.
Qed.

End TeamFacts.

(** ** Worked examples *)

Import ExampleRuntime Scenario.

Ltac each_rule H :=
  repeat (apply elem_of_cons in H as [->|H]; [vm_compute; reflexivity|]);
  apply elem_of_nil in H; destruct H.

(** The concrete scenario of the specification. *)
Example scenario_write_env :
  fst (evaluatePermission policy [] 0 (request "Write" (filePath ".env")))
  = mkResult Deny None (Some "Tool use denied by rule: Write(.env)") (Some true).
Proof. vm_compute. reflexivity. Qed.

Example scenario_read_anything :
  behavior (fst (evaluatePermission policy [] 0 (request "Read" (filePath "/anything"))))
  = Allow.
Proof. vm_compute. reflexivity. Qed.

Example scenario_git_push :
  fst (evaluatePermission policy [] 0 (request "Bash" (command "git push origin main")))
  = mkResult Allow None
      (Some "Tool approved (would normally ask): Bash(git push:*)") None.
Proof. vm_compute. reflexivity. Qed.

(** A prefix rule does not match a command that holds the prefix elsewhere. *)
Example prefix_elsewhere :
  matchesRule "Bash(git push:*)" "Bash" (command "echo git push") = Ok false.
Proof. vm_compute. reflexivity. Qed.

Lemma C1_deny_dominates_witness :
  "Write(.env)" ∈ deny overlapping
  /\ matchesRule "Write(.env)" "Write" (filePath ".env") = Ok true
  /\ matchesRule "Write(*)" "Write" (filePath ".env") = Ok true
  /\ behavior (fst (evaluatePermission overlapping [] 0
                      (request "Write" (filePath ".env")))) = Deny.
Proof.
  split; [apply list_elem_of_here|].
  split; [vm_compute; reflexivity|].
  split; [vm_compute; reflexivity|].
  apply (C1_deny_dominates overlapping [] 0 (request "Write" (filePath ".env"))
           "Write(.env)").
  - apply list_elem_of_here.
  - vm_compute. reflexivity.
Defined.

(** The claim of the specification read on every command and every prefix
    fails on the empty command under the pattern made of the suffix alone:
    the empty command starts with the empty prefix and is not matched. *)
Lemma C5_empty_command_counterexample :
  ~ (matchesBashRule ("" ++ ":*") (JsString "") = Ok true
     <-> exists rest, "" = "" ++ rest).
Proof.
  intros [_ Hmatch].
  assert (Hno : matchesBashRule ("" ++ ":*") (JsString "") = Ok false)
    by (vm_compute; reflexivity).
  rewrite Hno in Hmatch.
  assert (Habs : @Ok bool false = Ok true) by (apply Hmatch; exists ""; reflexivity).
  discriminate Habs.
Qed.


(** A context the logger cannot serialise: the error of the debug call,
    made before the [try] statement, reaches the caller as well, and the
    audit log has no entry for the call. *)
Example unserialisable_context_propagates (input : JsValue) (error : JsError) :
  getPermissionHandler (fun _ => Throw error) suiteRules [] 0 "Read" input
    (Some (mkOptions None None None))
  = (Throw error, []).
Proof. reflexivity. Qed.


(** A pattern that does not compile is denied as well. *)
Example malformed_pattern_denied :
  behavior (fst (evaluatePermission malformed [] 0 (request "Write" (filePath "a"))))
  = Deny.
Proof. vm_compute. reflexivity. Qed.

(** An ask rule that throws is not passed over: the ask rule [Bash] matches
    the request, no deny or allow rule does, and the verdict is deny. *)
Lemma C9_throwing_rule_counterexample :
  let rules := mkRules [] [] ["Bash(ls:*)"; "Bash"] in
  let ctx := request "Bash" (JsObject [("command", JsNumber 5%float)]) in
  (forall r, r ∈ deny rules ->
     matchesRule r (toolName ctx) (input ctx) <> Ok true)
  /\ (forall r, r ∈ allow rules ->
       matchesRule r (toolName ctx) (input ctx) <> Ok true)
  /\ "Bash" ∈ ask rules
  /\ matchesRule "Bash" (toolName ctx) (input ctx) = Ok true
  /\ matchesRule "Bash(ls:*)" (toolName ctx) (input ctx)
     = Throw (TypeError "command.startsWith is not a function")
  /\ fst (evaluatePermission rules [] 0 ctx)
     = mkResult Deny None
         (Some "Permission evaluation error: command.startsWith is not a function")
         None.
Proof.
  cbv zeta. split; [intros r Hr; by apply elem_of_nil in Hr|].
  split; [intros r Hr; by apply elem_of_nil in Hr|].
  split; [cbn; set_solver|].
  split; [vm_compute; reflexivity|]. split; vm_compute; reflexivity.
Qed.

Lemma C9_ask_rule_auto_approved_witness :
  exists msg,
    fst (evaluatePermission suiteRules [] 0
           (request "Bash" (command "git push origin main")))
    = mkResult Allow None (Some msg) None
    /\ msg = "Tool approved (would normally ask): " ++ "Bash(git push:*)"
    /\ includes msg "Bash(git push:*)" = true
    /\ includes msg "would normally ask" = true
    /\ (forall rules' auditLog' now' ctx' rule',
          firstMatch (deny rules') (toolName ctx') (input ctx') = Ok None ->
          firstMatch (allow rules') (toolName ctx') (input ctx') = Ok (Some rule') ->
          message (fst (evaluatePermission rules' auditLog' now' ctx')) <> Some msg).
Proof.
  apply (C9_ask_rule_auto_approved suiteRules [] 0
           (request "Bash" (command "git push origin main"))
           [] "Bash(git push:*)" ["Write(./production/**)"]).
  - intros r Hr. cbn in Hr. each_rule Hr.
  - intros r Hr. cbn in Hr. each_rule Hr.
  - reflexivity.
  - intros r Hr. apply elem_of_nil in Hr. destruct Hr.
  - vm_compute. reflexivity.
Defined.

Lemma C10_bare_wildcard_rule_witness :
  "*" ∈ deny denyAll
  /\ matchesRule "*" "Read" (filePath "/anything") = Ok true
  /\ behavior (fst (evaluatePermission denyAll [] 0
                      (request "Read" (filePath "/anything")))) = Deny.
Proof.
  assert (Hin : "*" ∈ deny denyAll) by apply list_elem_of_here.
  destruct (C10_bare_wildcard_rule denyAll Hin) as [Hmatch Hdeny].
  split; [exact Hin|].
  split; [exact (proj1 (Hmatch "Read" (filePath "/anything")))|].
  exact (Hdeny [] 0%Z (request "Read" (filePath "/anything"))).
Defined.

(** The aggregation test of the unit tests of the cost tracker. *)
Example aggregate_usage_test :
  let aggregated :=
    CostTracker.aggregateUsage
      (CostTracker.mkUsage (Some 100%float) (Some 200%float) (Some 50%float)
         (Some 25%float) None)
      (CostTracker.mkUsage (Some 150%float) (Some 300%float) (Some 75%float)
         (Some 35%float) None) in
  CostTracker.input_tokens aggregated = Some 250%float
  /\ CostTracker.output_tokens aggregated = Some 500%float
  /\ CostTracker.cache_creation_input_tokens aggregated = Some 125%float
  /\ CostTracker.cache_read_input_tokens aggregated = Some 60%float.
Proof. vm_compute. repeat split; reflexivity. Qed.

Lemma C3_duplicate_is_noop_witness :
  let first := CostTracker.processMessage CostTracker.new "t1"
                 (assistant "msg_1" mockUsage) in
  let st2 := CostTracker.processAll (snd first)
               [("t2", assistant "msg_2" mockUsage)] in
  fst first <> None
  /\ CostTracker.processMessage st2 "t3" (assistant "msg_1" CostTracker.emptyUsage)
     = (None, st2)
  /\ length (CostTracker.stepUsages st2) = 2%nat.
Proof.
  cbv zeta. split; [vm_compute; discriminate|].
  split; [|vm_compute; reflexivity].
  pose proof (C3_duplicate_is_noop CostTracker.new "t1" (assistant "msg_1" mockUsage)
                (CostTracker.mkStep "msg_1" "t1" mockUsage
                   (CostTracker.calculateCost mockUsage))
                (snd (CostTracker.processMessage CostTracker.new "t1"
                        (assistant "msg_1" mockUsage)))
                [("t2", assistant "msg_2" mockUsage)]
                "t3" (assistant "msg_1" CostTracker.emptyUsage)
                ltac:(vm_compute; reflexivity) eq_refl) as Hnoop.
  cbv zeta in Hnoop.
  destruct (CostTracker.processMessage _ "t3" _) as [answer st3].
  destruct Hnoop as (-> & -> & _). reflexivity.
Defined.

(** The error-handling test of the integration suite: the task whose engine
    fails gets a failed result, and the session has no entry for it. *)
Example failing_task_is_dropped :
  let '(answer, st) :=
    TeamManager.assignTask team
      (snd (TeamManager.startTeamSession team TeamManager.new "Error Test" "session_1" 0))
      "session_1" feature (fails "task_1") in
  answer = Ok "task_1"
  /\ TeamManager.completedTasks <$> TeamManager.getSessionStatus st "session_1"
     = Some [].
Proof. vm_compute. split; reflexivity. Qed.

Lemma C2_failed_task_not_recorded_witness :
  let st := snd (TeamManager.startTeamSession team TeamManager.new "Error Test"
                   "session_1" 0) in
  let '(r, st') :=
    TeamManager.executeTask team st "session_1" feature developer (fails "task_1") in
  TeamManager.status r = TeamManager.failed
  /\ TeamManager.result r = Some "Task failed: Simulated API failure"
  /\ TeamManager.completedTasks <$> TeamManager.getSessionStatus st' "session_1"
     = Some [].
Proof.
  cbv zeta.
  pose proof (C2_failed_task_not_recorded team
                (snd (TeamManager.startTeamSession team TeamManager.new "Error Test"
                        "session_1" 0))
                "session_1"
                (TeamManager.mkSession "session_1" "Error Test" 0 "/ws" [] [] [] 0%float
                   CostTracker.emptyUsage)
                feature developer (fails "task_1")
                (mkError "Error" "Simulated API failure")
                ltac:(vm_compute; reflexivity) eq_refl) as Hfail.
  destruct (TeamManager.executeTask team _ "session_1" feature developer (fails "task_1"))
    as [r st'].
  destruct Hfail as (-> & -> & _).
  split; [reflexivity|]. split; [reflexivity|]. vm_compute. reflexivity.
Defined.

(** The batch scenario of the specification: three tasks of which one fails
    give three results in order, and the session gains two entries. *)
Example batch_of_three :
  let st := snd (TeamManager.startTeamSession team TeamManager.new "Batch" "session_1" 0) in
  let '(answer, st') :=
    TeamManager.executeParallelTasks team st "session_1" [feature; feature; tests]
      mixedRuns [2%nat; 0%nat] in
  (fun results => map TeamManager.status results) <$>
    (match answer with Ok results => Some results | Throw _ => None end)
  = Some [TeamManager.completed; TeamManager.failed; TeamManager.completed]
  /\ (fun s => map TeamManager.taskId (TeamManager.completedTasks s))
       <$> TeamManager.getSessionStatus st' "session_1"
     = Some ["task_c"; "task_a"].
Proof. vm_compute. split; reflexivity. Qed.

(** A task whose engine ends without a success record is recorded with a
    cost that is not a number, and leaves the total cost where it was. *)
Example silent_task_costs_nothing :
  let st :=
    snd (TeamManager.assignTask team
           (snd (TeamManager.startTeamSession team TeamManager.new "Silent" "session_1" 0))
           "session_1" feature (silent "task_1")) in
  (fun s => (map TeamManager.cost (TeamManager.completedTasks s),
             TeamManager.totalCost s))
    <$> TeamManager.getSessionStatus st "session_1"
  = Some ([Some nan], 0%float).
Proof. vm_compute. reflexivity. Qed.

(** On a team without members the batch is rejected as a whole: the session
    is known and one task is given, and no list of results is returned. *)
Lemma C7_empty_roster_counterexample :
  let st := snd (TeamManager.startTeamSession nobody TeamManager.new "Batch" "session_1" 0) in
  is_Some (TeamManager.getSessionStatus st "session_1")
  /\ fst (TeamManager.executeParallelTasks nobody st "session_1" [feature] mixedRuns [])
     = Throw (TypeError "Cannot read properties of undefined (reading 'id')")
  /\ ~ exists results,
         fst (TeamManager.executeParallelTasks nobody st "session_1" [feature]
                mixedRuns []) = Ok results
         /\ length results = 1%nat.
Proof.
  cbv zeta. split; [vm_compute; eauto|].
  split; [vm_compute; reflexivity|].
  intros (results & Hres & _). vm_compute in Hres. discriminate Hres.
Qed.

(** After a task whose engine ends without a success record, the total cost
    of the session is zero and the sum of the cost fields is not a number. *)
Lemma C4_nan_cost_counterexample :
  exists session,
    TeamManager.getSessionStatus
      (TeamManager.after team
         [ TeamManager.StartTeamSession "Silent" "session_1" 0;
           TeamManager.AssignTask "session_1" feature (silent "task_1") ])
      "session_1" = Some session
    /\ TeamManager.totalCost session
       <> TeamManager.sumCostFields (TeamManager.completedTasks session).
Proof.
  eexists. split; [vm_compute; reflexivity|].
  intros Heq. apply (f_equal PrimFloat.is_nan) in Heq.
  vm_compute in Heq. discriminate Heq.
Qed.

Lemma C4_session_totals_witness :
  exists session,
    TeamManager.getSessionStatus (TeamManager.after team busy) "session_1" = Some session
    /\ length (TeamManager.completedTasks session) = 3%nat
    /\ TeamManager.totalCost session
       = TeamManager.sumCost (TeamManager.completedTasks session)
    /\ TeamManager.totalUsage session
       = TeamManager.foldUsage (TeamManager.completedTasks session).
Proof.
  eexists. split; [vm_compute; reflexivity|].
  split; [reflexivity|].
  apply (C4_session_totals team busy "session_1").
  vm_compute. reflexivity.
Defined.

Lemma C7_parallel_results_witness :
  let st := snd (TeamManager.startTeamSession team TeamManager.new "Batch" "session_1" 0) in
  TeamManager.members team <> []
  /\ exists results,
       fst (TeamManager.executeParallelTasks team st "session_1"
              [feature; feature; tests] mixedRuns [2%nat; 0%nat]) = Ok results
       /\ length results = 3%nat.
Proof.
  cbv zeta. split; [discriminate|].
  destruct (C7_parallel_results team
              (snd (TeamManager.startTeamSession team TeamManager.new "Batch"
                      "session_1" 0))
              "session_1"
              (TeamManager.mkSession "session_1" "Batch" 0 "/ws" [] [] [] 0%float
                 CostTracker.emptyUsage)
              [feature; feature; tests] mixedRuns [2%nat; 0%nat]
              ltac:(discriminate) ltac:(vm_compute; reflexivity))
    as (results & Hres & Hlen & _).
  exists results. split; [exact Hres | exact Hlen].
Defined.

Lemma C8_ended_session_not_found_witness :
  let st := TeamManager.after team busy in
  let '(answer, st') := TeamManager.endSession st "session_1" 99 written in
  let later := [ TeamManager.StartTeamSession "Next" "session_2" 100;
                 TeamManager.AssignTask "session_2" feature (succeeds "task_9");
                 TeamManager.AssignTask "session_1" feature (succeeds "task_10") ] in
  let st'' := fold_left (TeamManager.step team) later st' in
  answer = Ok tt
  /\ TeamManager.getSessionStatus st'' "session_1" = None
  /\ fst (TeamManager.assignTask team st'' "session_1" feature (succeeds "task_11"))
     = TeamManager.sessionNotFound "session_1".
Proof.
  cbv zeta.
  destruct (TeamManager.endSession (TeamManager.after team busy) "session_1" 99 written)
    as [answer st'] eqn:Hend.
  assert (Hok : answer = Ok tt).
  { apply (f_equal fst) in Hend. cbn [fst] in Hend. rewrite <- Hend.
    vm_compute. reflexivity. }
  subst answer. split; [reflexivity|].
  destruct (C8_ended_session_not_found team (TeamManager.after team busy) "session_1"
              99 written st'
              [ TeamManager.StartTeamSession "Next" "session_2" 100;
                TeamManager.AssignTask "session_2" feature (succeeds "task_9");
                TeamManager.AssignTask "session_1" feature (succeeds "task_10") ]
              Hend)
    as (Hstatus & Hassign & _).
  - repeat (apply Forall_cons; split; [cbn; try tauto; discriminate|]).
    apply Forall_nil. exact I.
  - split; [exact Hstatus|]. rewrite Hassign. reflexivity.
Defined.

(** * Further properties *)

(** ** Regular expressions *)

Section RegexFacts.
Import RegexLanguage.

Lemma append_cons (a : ascii) (s t : string) : String a s ++ t = String a (s ++ t).
Proof. reflexivity. Qed.

Lemma append_nil_r_string (s : string) : s ++ "" = s.
Proof.
  induction s as [|a s IH]; [reflexivity|]. rewrite append_cons, IH. reflexivity.
Qed.

Lemma append_eq_nil (s t : string) : s ++ t = "" -> s = "" /\ t = "".
Proof. destruct s; [intros H; split; [reflexivity|exact H] | discriminate]. Qed.

Lemma append_eq_cons (c : ascii) (s s1 s2 : string) :
  s1 ++ s2 = String c s ->
  (s1 = "" /\ s2 = String c s) \/ exists s1', s1 = String c s1' /\ s = s1' ++ s2.
Proof.
  destruct s1 as [|a s1]; intros H.
  - left. split; [reflexivity|exact H].
  - right. injection H as -> <-. exists s1. split; reflexivity.
Qed.

Lemma nullable_lang (r : re) : nullable r = true <-> lang r "".
Proof.
  induction r as [| |p|a IHa b IHb|a IHa b IHb|a IHa]; cbn [nullable].
  - split; [discriminate|]. inversion 1.
  - split; [constructor|reflexivity].
  - split; [discriminate|]. inversion 1.
  - rewrite andb_true_iff, IHa, IHb. split.
    + intros [Ha Hb]. exact (lang_cat a b "" "" Ha Hb).
    + inversion 1 as [| |a' b' s t Hs Ht Heq Hst| | | |]; subst.
      apply append_eq_nil in Hst as [-> ->]. split; assumption.
  - rewrite orb_true_iff, IHa, IHb. split.
    + intros [Ha|Hb]; [by apply lang_alt_l | by apply lang_alt_r].
    + inversion 1; subst; [left|right]; assumption.
  - split; [constructor|reflexivity].
Qed.

(** A match of a starred expression that consumes a character starts with
    a match of the body that consumes it. *)
Lemma lang_star_cons_inv (a : re) (c : ascii) (s : string) :
  lang (Star a) (String c s) ->
  exists s1 s2, s = s1 ++ s2 /\ lang a (String c s1) /\ lang (Star a) s2.
Proof.
  intros H. remember (Star a) as r eqn:Hr. remember (String c s) as w eqn:Hw.
  revert c s Hr Hw.
  induction H as [| | | | | |a' u t Hu _ Ht IHt]; intros c0 s0 Hr Hw; try discriminate.
  injection Hr as ->.
  apply append_eq_cons in Hw as [[-> ->]|(u' & -> & ->)].
  - exact (IHt c0 s0 eq_refl eq_refl).
  - exists u', t. split; [reflexivity|]. split; assumption.
Qed.

Lemma deriv_lang (r : re) (c : ascii) (s : string) :
  lang (deriv c r) s <-> lang r (String c s).
Proof.
  revert s. induction r as [| |p|a IHa b IHb|a IHa b IHb|a IHa]; intros s; cbn [deriv].
  - split; inversion 1.
  - split; inversion 1.
  - destruct (p c) eqn:Hp.
    + split.
      * inversion 1; subst. by constructor.
      * inversion 1; subst. constructor.
    + split; [inversion 1|]. inversion 1; subst. congruence.
  - assert (Hcat : lang (Cat (deriv c a) b) s ->  lang (Cat a b) (String c s)).
    { inversion 1 as [| |a' b' u t Hu Ht| | | |]; subst.
      apply IHa in Hu. exact (lang_cat a b (String c u) t Hu Ht). }
    destruct (nullable a) eqn:Hn.
    + split.
      * inversion 1; subst; [by apply Hcat|].
        apply nullable_lang in Hn.
        match goal with Hb : lang (deriv c b) s |- _ => apply IHb in Hb;
          exact (lang_cat a b "" (String c s) Hn Hb) end.
      * inversion 1 as [| |a' b' u t Hu Ht Heq Hut| | | |]; subst.
        apply append_eq_cons in Hut as [[-> ->]|(u' & -> & ->)].
        -- apply lang_alt_r. by apply IHb.
        -- apply lang_alt_l. apply lang_cat; [by apply IHa|assumption].
    + split; [exact Hcat|].
      inversion 1 as [| |a' b' u t Hu Ht Heq Hut| | | |]; subst.
      apply append_eq_cons in Hut as [[-> ->]|(u' & -> & ->)].
      * apply nullable_lang in Hu. congruence.
      * apply lang_cat; [by apply IHa|assumption].
  - split.
    + inversion 1; subst; [apply lang_alt_l; by apply IHa | apply lang_alt_r; by apply IHb].
    + inversion 1; subst; [apply lang_alt_l; by apply IHa | apply lang_alt_r; by apply IHb].
  - split.
    + inversion 1 as [| |a' b' u t Hu Ht| | | |]; subst.
      apply IHa in Hu. exact (lang_star_cons a (String c u) t Hu Ht).
    + intros H. apply lang_star_cons_inv in H as (s1 & s2 & -> & H1 & H2).
      apply lang_cat; [by apply IHa|assumption].
Qed.

Lemma fullMatch_lang (r : re) (s : string) : fullMatch r s = true <-> lang r s.
Proof.
  revert r. induction s as [|c s IH]; intros r; cbn [fullMatch].
  - apply nullable_lang.
  - rewrite IH. apply deriv_lang.
Qed.

End RegexFacts.

Section RegexShapes.
Import RegexLanguage.

Lemma lang_cat_iff (a b : re) (s : string) :
  lang (Cat a b) s <-> exists s1 s2, s = s1 ++ s2 /\ lang a s1 /\ lang b s2.
Proof.
  split.
  - inversion 1; subst. eauto.
  - intros (s1 & s2 & -> & H1 & H2). by constructor.
Qed.

Lemma lang_lit (w s : string) : lang (lit w) s <-> s = w.
Proof.
  revert s. induction w as [|a w IH]; intros s; cbn [lit].
  - split; [inversion 1; reflexivity | intros ->; constructor].
  - rewrite lang_cat_iff. split.
    + intros (s1 & s2 & -> & H1 & H2). apply IH in H2 as ->.
      inversion H1 as [|p a' Ha| | | | |]; subst.
      apply Ascii.eqb_eq in Ha as ->. reflexivity.
    + intros ->. exists (String a ""), w. split; [reflexivity|].
      split; [constructor; apply Ascii.eqb_refl | by apply IH].
Qed.

Lemma lang_star_sym (p : ascii -> bool) (s : string) :
  lang (Star (Sym p)) s <-> allChars p s = true.
Proof.
  split.
  - induction s as [|c s IH]; [reflexivity|]. intros H.
    apply lang_star_cons_inv in H as (s1 & s2 & -> & H1 & H2).
    inversion H1; subst. cbn [allChars]. rewrite IH by exact H2.
    match goal with Hp : p c = true |- _ => rewrite Hp end. reflexivity.
  - induction s as [|c s IH]; cbn [allChars]; [constructor|].
    intros H. apply andb_prop in H as [Hc Hs].
    exact (lang_star_cons (Sym p) (String c "") s (lang_sym p c Hc) (IH Hs)).
Qed.

Lemma lang_plus_sym (p : ascii -> bool) (s : string) :
  lang (Plus (Sym p)) s <-> s <> "" /\ allChars p s = true.
Proof.
  unfold Plus. rewrite lang_cat_iff. split.
  - intros (s1 & s2 & -> & H1 & H2). inversion H1; subst.
    apply lang_star_sym in H2. split; [discriminate|].
    cbn [String.append allChars]. rewrite append_cons. cbn [allChars].
    match goal with Hp : p _ = true |- _ => rewrite Hp end. exact H2.
  - intros [Hne Hall]. destruct s as [|c s]; [contradiction|].
    cbn [allChars] in Hall. apply andb_prop in Hall as [Hc Hs].
    exists (String c ""), s. split; [reflexivity|].
    split; [by constructor | by apply lang_star_sym].
Qed.

Lemma lang_any (s : string) : lang (Star anyChar) s.
Proof. apply lang_star_sym. induction s; [reflexivity|exact IHs]. Qed.

(** What [test] decides: some part of the string is in the language of the
    body, at the start and up to the end where the expression is anchored. *)
Lemma test_iff (r : RegExp) (s : string) :
  test r s = true <->
  exists pre mid post,
    s = pre ++ mid ++ post /\ lang (body r) mid
    /\ (anchoredStart r = true -> pre = "")
    /\ (anchoredEnd r = true -> post = "").
Proof.
  unfold test. rewrite fullMatch_lang, lang_cat_iff. split.
  - intros (pre & rest & -> & Hpre & Hrest).
    apply lang_cat_iff in Hrest as (mid & post & -> & Hmid & Hpost).
    exists pre, mid, post. split; [reflexivity|]. split; [exact Hmid|]. split.
    + intros Ha. rewrite Ha in Hpre. by inversion Hpre.
    + intros Ha. rewrite Ha in Hpost. by inversion Hpost.
  - intros (pre & mid & post & -> & Hmid & Hs & He).
    exists pre, (mid ++ post). split; [reflexivity|]. split.
    + destruct (anchoredStart r); [rewrite Hs by reflexivity; constructor | apply lang_any].
    + apply lang_cat_iff. exists mid, post. split; [reflexivity|]. split; [exact Hmid|].
      destruct (anchoredEnd r); [rewrite He by reflexivity; constructor | apply lang_any].
Qed.

End RegexShapes.

(** ** PermissionManager: the keyword [dangerous] *)

Section DangerousFacts.
Context `{Runtime}.
Import RegexLanguage PermissionWords.

Lemma lang_word_gap_word (a b mid : string) :
  lang (Cat (lit a) (Cat (Plus ws) (lit b))) mid
  <-> exists w, mid = a ++ w ++ b /\ blank w.
Proof.
  rewrite lang_cat_iff. split.
  - intros (s1 & s2 & -> & H1 & H2). apply lang_lit in H1 as ->.
    apply lang_cat_iff in H2 as (w & s3 & -> & Hw & H3).
    apply lang_lit in H3 as ->. apply lang_plus_sym in Hw.
    exists w. split; [reflexivity|exact Hw].
  - intros (w & -> & Hw). exists a, (w ++ b). split; [reflexivity|].
    split; [by apply lang_lit|]. apply lang_cat_iff.
    exists w, b. split; [reflexivity|].
    split; [by apply lang_plus_sym | by apply lang_lit].
Qed.

Lemma lang_piped_shell (a mid : string) :
  lang (Cat (lit a) (Cat (Star dot) (Cat (lit "|") (Cat (Star ws) (lit "sh"))))) mid
  <-> exists x w,
        mid = a ++ x ++ "|" ++ w ++ "sh"
        /\ allChars isDot x = true /\ allChars isSpace w = true.
Proof.
  rewrite lang_cat_iff. split.
  - intros (s1 & s2 & -> & H1 & H2). apply lang_lit in H1 as ->.
    apply lang_cat_iff in H2 as (x & s3 & -> & Hx & H3).
    apply lang_cat_iff in H3 as (bar & s4 & -> & Hbar & H4).
    apply lang_cat_iff in H4 as (w & sh & -> & Hw & Hsh).
    apply lang_lit in Hbar as ->. apply lang_lit in Hsh as ->.
    apply lang_star_sym in Hx. apply lang_star_sym in Hw.
    exists x, w. split; [reflexivity|]. split; assumption.
  - intros (x & w & -> & Hx & Hw). exists a, (x ++ "|" ++ w ++ "sh").
    split; [reflexivity|]. split; [by apply lang_lit|].
    apply lang_cat_iff. exists x, ("|" ++ w ++ "sh"). split; [reflexivity|].
    split; [by apply lang_star_sym|].
    apply lang_cat_iff. exists "|", (w ++ "sh"). split; [reflexivity|].
    split; [by apply lang_lit|].
    apply lang_cat_iff. exists w, "sh". split; [reflexivity|].
    split; [by apply lang_star_sym | by apply lang_lit].
Qed.

Lemma lang_recursive_delete (mid : string) :
  lang (Cat (lit "rm") (Cat (Plus ws) (Cat (lit "-rf") (Cat (Plus ws) (lit "/"))))) mid
  <-> exists w1 w2, mid = "rm" ++ w1 ++ "-rf" ++ w2 ++ "/" /\ blank w1 /\ blank w2.
Proof.
  rewrite lang_cat_iff. split.
  - intros (s1 & s2 & -> & H1 & H2). apply lang_lit in H1 as ->.
    apply lang_cat_iff in H2 as (w1 & s3 & -> & Hw1 & H3).
    apply lang_word_gap_word in H3 as (w2 & -> & Hw2).
    apply lang_plus_sym in Hw1.
    exists w1, w2. split; [reflexivity|]. split; assumption.
  - intros (w1 & w2 & -> & Hw1 & Hw2). exists "rm", (w1 ++ "-rf" ++ w2 ++ "/").
    split; [reflexivity|]. split; [by apply lang_lit|].
    apply lang_cat_iff. exists w1, ("-rf" ++ w2 ++ "/"). split; [reflexivity|].
    split; [by apply lang_plus_sym|].
    apply lang_word_gap_word. exists w2. split; [reflexivity|exact Hw2].
Qed.

(** An expression anchored nowhere tests true on the strings that hold a
    member of its language. *)
Lemma test_floating (r : re) (s : string) :
  test (mkRegExp false r false) s = true
  <-> exists pre mid post, s = pre ++ mid ++ post /\ lang r mid.
Proof.
  rewrite test_iff. cbn [anchoredStart anchoredEnd body]. split.
  - intros (pre & mid & post & -> & Hmid & _). eauto.
  - intros (pre & mid & post & -> & Hmid). exists pre, mid, post.
    split; [reflexivity|]. split; [exact Hmid|]. split; discriminate.
Qed.

Lemma test_leading (r : re) (s : string) :
  test (mkRegExp true r false) s = true
  <-> exists mid post, s = mid ++ post /\ lang r mid.
Proof.
  rewrite test_iff. cbn [anchoredStart anchoredEnd body]. split.
  - intros (pre & mid & post & -> & Hmid & Hpre & _).
    rewrite (Hpre eq_refl). exists mid, post. split; [reflexivity|exact Hmid].
  - intros (mid & post & -> & Hmid). exists "", mid, post.
    split; [reflexivity|]. split; [exact Hmid|]. split; [reflexivity|discriminate].
Qed.

Lemma dangerousPatterns_signature (c : string) :
  existsb (fun p => test p c) dangerousPatterns = true <-> dangerousSignature c.
Proof.
  unfold dangerousPatterns, dangerousSignature. cbn [existsb].
  rewrite !orb_true_iff, test_leading, !test_floating.
  assert (Hfalse : false = true <-> False) by (split; [discriminate|contradiction]).
  rewrite Hfalse. clear Hfalse.
  split.
  - intros [(mid & post & -> & Hmid)|[(pre & mid & post & -> & Hmid)|
            [(pre & mid & post & -> & Hmid)|[(pre & mid & post & -> & Hmid)|
            [(pre & mid & post & -> & Hmid)|[(pre & mid & post & -> & Hmid)|[]]]]]]].
    + apply lang_recursive_delete in Hmid as (w1 & w2 & -> & Hw1 & Hw2).
      left. exists w1, w2, post. split; [by rewrite !append_assoc_string | tauto].
    + apply lang_piped_shell in Hmid as (x & w & -> & Hx & Hw).
      right; left. exists pre, x, w, post. split; [by rewrite !append_assoc_string | tauto].
    + apply lang_piped_shell in Hmid as (x & w & -> & Hx & Hw).
      do 2 right; left. exists pre, x, w, post. split; [by rewrite !append_assoc_string | tauto].
    + apply lang_word_gap_word in Hmid as (w & -> & Hw).
      do 3 right; left. exists pre, w, post. split; [by rewrite !append_assoc_string | tauto].
    + apply lang_word_gap_word in Hmid as (w & -> & Hw).
      do 4 right; left. exists pre, w, post. split; [by rewrite !append_assoc_string | tauto].
    + apply lang_lit in Hmid as ->.
      do 5 right. exists pre, post. reflexivity.
  - intros [(w1 & w2 & rest & -> & Hw1 & Hw2)|[(pre & x & w & post & -> & Hx & Hw)|
            [(pre & x & w & post & -> & Hx & Hw)|[(pre & w & post & -> & Hw)|
            [(pre & w & post & -> & Hw)|(pre & post & ->)]]]]].
    + left. exists ("rm" ++ w1 ++ "-rf" ++ w2 ++ "/"), rest.
      split; [by rewrite !append_assoc_string|].
      apply lang_recursive_delete. exists w1, w2. tauto.
    + right; left. exists pre, ("curl" ++ x ++ "|" ++ w ++ "sh"), post.
      split; [by rewrite !append_assoc_string|].
      apply lang_piped_shell. exists x, w. tauto.
    + do 2 right; left. exists pre, ("wget" ++ x ++ "|" ++ w ++ "sh"), post.
      split; [by rewrite !append_assoc_string|].
      apply lang_piped_shell. exists x, w. tauto.
    + do 3 right; left. exists pre, ("sudo" ++ w ++ "rm"), post.
      split; [by rewrite !append_assoc_string|].
      apply lang_word_gap_word. exists w. tauto.
    + do 4 right; left. exists pre, ("dd" ++ w ++ "if="), post.
      split; [by rewrite !append_assoc_string|].
      apply lang_word_gap_word. exists w. tauto.
    + do 5 right; left. exists pre, ":(){ :|:& };:", post.
      split; [reflexivity|]. by apply lang_lit.
Qed.

End DangerousFacts.

(** ** PermissionManager: rules *)

Section RuleFacts.
Context `{Runtime}.
Import RegexLanguage PermissionWords PermissionSequences.

Lemma dangerousSignature_nonempty : ~ dangerousSignature "".
Proof.
  intros [(w1 & w2 & rest & Heq & _)|[(pre & x & w & post & Heq & _)|
          [(pre & x & w & post & Heq & _)|[(pre & w & post & Heq & _)|
          [(pre & w & post & Heq & _)|(pre & post & Heq)]]]]];
    try discriminate Heq; destruct pre; discriminate Heq.
Qed.

(** X1.  On a command string the rule pattern [dangerous] matches the
    command [dangerous] itself and the commands of the forms the six
    expressions describe, and no other; the test does not throw. *)
Theorem dangerous_keyword_signature (c : string) :
  (matchesBashRule "dangerous" (JsString c) = Ok true
   <-> c = "dangerous" \/ dangerousSignature c)
  /\ (matchesBashRule "dangerous" (JsString c) = Ok true
      \/ matchesBashRule "dangerous" (JsString c) = Ok false).
Proof.
  assert (Heval : matchesBashRule "dangerous" (JsString c)
                  = Ok (negb (String.eqb c "")
                        && (String.eqb "dangerous" c
                            || existsb (fun p => test p c) dangerousPatterns))).
  { unfold matchesBashRule. cbn [truthy asString].
    destruct (String.eqb c ""); cbn [negb andb]; [reflexivity|].
    change (endsWith "dangerous" ":*") with false. cbv iota.
    destruct (String.eqb "dangerous" c); [reflexivity|].
    change (String.eqb "dangerous" "dangerous") with true. cbn [andb orb].
    destruct (existsb _ dangerousPatterns); reflexivity. }
  rewrite Heval. split.
  - split.
    + intros Heq. injection Heq as Heq. apply andb_prop in Heq as [_ Heq].
      apply orb_prop in Heq as [Heq|Heq].
      * left. symmetry. by apply String.eqb_eq.
      * right. by apply dangerousPatterns_signature.
    + intros Hc. f_equal. apply andb_true_intro. split.
      * destruct (String.eqb_spec c ""); [|reflexivity]. subst c.
        destruct Hc as [Hc|Hc]; [discriminate|]. by apply dangerousSignature_nonempty in Hc.
      * apply orb_true_intro. destruct Hc as [->|Hc].
        -- left. apply String.eqb_refl.
        -- right. by apply dangerousPatterns_signature.
  - destruct (negb _ && _); [left|right]; reflexivity.
Qed.

(** X2.  A command pattern that does not end in [:*] and is not the keyword
    matches the command equal to it and no other. *)
Theorem exact_command_rule (pattern c : string) :
  endsWith pattern ":*" = false ->
  pattern <> "dangerous" ->
  matchesBashRule pattern (JsString c)
  = Ok (negb (String.eqb c "") && String.eqb pattern c).
Proof.
  intros Hend Hkey. unfold matchesBashRule. cbn [truthy].
  destruct (String.eqb c ""); cbn [negb andb]; [reflexivity|].
  rewrite Hend. destruct (String.eqb pattern c); [reflexivity|].
  destruct (String.eqb_spec pattern "dangerous"); [contradiction|]. reflexivity.
Qed.

(** *** The rule format *)

Lemma span_spec (stop : ascii -> bool) (s l r : string) :
  span stop s = (l, r) ->
  s = l ++ r /\ allChars (fun a => negb (stop a)) l = true
  /\ match r with
     | EmptyString => True
     | String a _ => stop a = true
     end.
Proof.
  revert l r. induction s as [|a s IH]; intros l r; cbn [span].
  - intros Heq. injection Heq as <- <-. by repeat split.
  - destruct (stop a) eqn:Ha.
    + intros Heq. injection Heq as <- <-. by repeat split.
    + destruct (span stop s) as [l' r'] eqn:Hs. intros Heq. injection Heq as <- <-.
      destruct (IH l' r' eq_refl) as (-> & Hl & Hr).
      split; [reflexivity|]. split; [|exact Hr].
      cbn [allChars]. rewrite Ha. exact Hl.
Qed.

Lemma includes_char (s : string) (c : ascii) :
  includes s (String c "") = negb (allChars (fun a => negb (Ascii.eqb c a)) s).
Proof.
  induction s as [|a s IH]; [reflexivity|].
  cbn [includes startsWith allChars]. rewrite IH, andb_true_r, Ascii.eqb_sym.
  destruct (Ascii.eqb c a); reflexivity.
Qed.

Lemma span_open (name rest : string) :
  includes name "(" = false ->
  span (Ascii.eqb "(") (name ++ String "(" rest) = (name, String "(" rest).
Proof.
  induction name as [|a name IH]; intros Hno; [reflexivity|].
  cbn [includes startsWith] in Hno.
  apply orb_false_elim in Hno as [Ha Hno]. rewrite andb_true_r in Ha.
  rewrite append_cons. cbn [span]. rewrite Ascii.eqb_sym, Ha, (IH Hno). reflexivity.
Qed.

Lemma span_none (stop : ascii -> bool) (s : string) :
  allChars (fun a => negb (stop a)) s = true -> span stop s = (s, EmptyString).
Proof.
  induction s as [|a s IH]; [reflexivity|]. cbn [allChars span]. intros Hall.
  apply andb_prop in Hall as [Ha Hs]. apply negb_true_iff in Ha.
  rewrite Ha, (IH Hs). reflexivity.
Qed.

(** X3.  The rules [parseRule] accepts are the bare tool names and the tool
    names followed by a parenthesised pattern; the name is not empty and
    holds no opening parenthesis, the pattern holds no closing one.  The
    parts it returns are the parts the rule is written from. *)
Theorem parseRule_format (rule name : string) :
  (forall pattern,
      parseRule rule = Some (name, Some pattern)
      <-> rule = name ++ "(" ++ pattern ++ ")"
          /\ name <> "" /\ includes name "(" = false /\ includes pattern ")" = false)
  /\ (parseRule rule = Some (name, None)
      <-> rule = name /\ name <> "" /\ includes name "(" = false).
Proof.
  split; [intros pattern|]; split.
  - unfold parseRule. destruct (span (Ascii.eqb "(") rule) as [n rest] eqn:Hspan.
    apply span_spec in Hspan as (-> & Hn & Hrest).
    destruct n as [|a n]; [discriminate|].
    destruct rest as [|b inner]; [discriminate|].
    apply Ascii.eqb_eq in Hrest as <-.
    destruct (span (Ascii.eqb ")") inner) as [pat close] eqn:Hclose.
    apply span_spec in Hclose as (-> & Hpat & _).
    destruct (String.eqb_spec close ")") as [->|]; [|discriminate].
    intros Heq. injection Heq as <- <-.
    split; [reflexivity|]. split; [discriminate|].
    rewrite !includes_char. split; apply negb_false_iff; assumption.
  - intros (-> & Hne & Hname & Hpat).
    exact (parseRule_scoped name pattern Hne Hname Hpat).
  - unfold parseRule. destruct (span (Ascii.eqb "(") rule) as [n rest] eqn:Hspan.
    apply span_spec in Hspan as (-> & Hn & Hrest).
    destruct n as [|a n]; [discriminate|].
    destruct rest as [|b inner].
    + intros Heq. injection Heq as <-. rewrite append_nil_r_string.
      split; [reflexivity|]. split; [discriminate|].
      rewrite includes_char. by apply negb_false_iff.
    + destruct (span (Ascii.eqb ")") inner) as [pat close].
      destruct (String.eqb close ")"); discriminate.
  - intros (-> & Hne & Hname). unfold parseRule.
    rewrite includes_char in Hname. apply negb_false_iff in Hname.
    rewrite (span_none _ _ Hname). destruct name; [contradiction|reflexivity].
Qed.

(** X4.  A rule that is not written for the tool of a request, nor for
    every tool, does not match the request and does not throw, whatever the
    input is.  A wildcard inside a longer tool name is not a wildcard. *)
Theorem rule_for_other_tool (rule tool : string) (input : JsValue) :
  ~ namesTool rule tool -> matchesRule rule tool input = Ok false.
Proof.
  unfold namesTool, ruleTool, matchesRule. intros Hno.
  destruct (parseRule rule) as [[n p]|]; [|reflexivity]. cbn in Hno.
  destruct (String.eqb_spec n tool) as [->|_]; [exfalso; apply Hno; by left|].
  destruct (String.eqb_spec n "*") as [->|_]; [exfalso; apply Hno; by right|].
  reflexivity.
Qed.

(** X5.  A rule with a pattern does not match a request whose input is an
    object without the property the tool is tested on (or with an empty
    one): the pattern is not looked at, so not even a malformed pattern
    throws. *)
Theorem scoped_rule_needs_field (rule tool name pattern field : string)
    (props : list (string * JsValue)) :
  parseRule rule = Some (name, Some pattern) ->
  pattern <> "" ->
  toolField tool = Some field ->
  truthy (assoc field props) = false ->
  matchesRule rule tool (JsObject props) = Ok false.
Proof.
  intros Hparse Hpat Hfield Hmissing. unfold matchesRule. rewrite Hparse.
  destruct (negb (String.eqb name tool) && negb (String.eqb name "*")); [reflexivity|].
  destruct pattern as [|a pattern]; [contradiction|].
  unfold toolField in Hfield. cbn [getProp].
  destruct (String.eqb tool "Bash").
  { injection Hfield as <-. cbn. unfold matchesBashRule. rewrite Hmissing. reflexivity. }
  destruct (String.eqb tool "Read" || String.eqb tool "Write" || String.eqb tool "Edit").
  { injection Hfield as <-. cbn. unfold matchesFileRule. rewrite Hmissing. reflexivity. }
  destruct (String.eqb tool "WebFetch"); [|discriminate].
  injection Hfield as <-. cbn. unfold matchesUrlRule. rewrite Hmissing. reflexivity.
Qed.

End RuleFacts.

(** ** PermissionManager: file patterns *)

Section GlobFacts.
Import PermissionWords.

Lemma replaceAll_app (c : ascii) (by_ x y : string) :
  replaceAll c by_ (x ++ y) = replaceAll c by_ x ++ replaceAll c by_ y.
Proof.
  induction x as [|a x IH]; [reflexivity|].
  rewrite append_cons. cbn [replaceAll]. rewrite IH.
  destruct (Ascii.eqb a c); [by rewrite append_assoc_string|reflexivity].
Qed.

(** X6.  [globToRegex] translates a pattern character by character: a dot
    becomes an escaped dot, a star becomes dot-star, a question mark becomes
    a dot and every other character, the ones regular expressions give a
    meaning to included, stays as it is; the three replacements do not undo
    one another. *)
Theorem globToRegex_charwise (pattern : string) :
  globToRegex pattern = "^" ++ globBody pattern ++ "$".
Proof.
  unfold globToRegex. do 2 f_equal.
  change (replaceAll "?" "." (replaceAll "*" ".*" (replaceAll "." "\." pattern))
          = globBody pattern).
  induction pattern as [|a pattern IH]; [reflexivity|].
  cbn [replaceAll globBody]. unfold globChar.
  destruct (Ascii.eqb_spec a ".") as [->|Hdot].
  - rewrite !replaceAll_app, IH. reflexivity.
  - cbn [replaceAll].
    destruct (Ascii.eqb_spec a "*") as [->|Hstar].
    + rewrite !replaceAll_app, IH. reflexivity.
    + cbn [replaceAll]. rewrite IH.
      destruct (Ascii.eqb_spec a "?") as [->|Hq]; reflexivity.
Qed.

End GlobFacts.

(** ** PermissionManager: the audit log *)

Section AuditFacts.
Context `{Runtime}.
Import PermissionSequences.

Lemma evaluatePermission_log (rules : PermissionRules) (auditLog : list AuditEntry)
    (now : Z) (ctx : PermissionContext) :
  snd (evaluatePermission rules auditLog now ctx)
  = let log' := (auditLog ++ [entryOf rules (now, ctx)])%list in
    if (1000 <? length log')%nat then lastN 500 log' else log'.
Proof.
  unfold evaluatePermission, entryOf. cbn [fst snd].
  destruct (decide_ rules ctx) as [[res why]|error]; reflexivity.
Qed.

Lemma entryOf_records (rules : PermissionRules) (auditLog : list AuditEntry)
    (now : Z) (ctx : PermissionContext) :
  entryOf rules (now, ctx)
  = mkAudit now ctx (fst (evaluatePermission rules auditLog now ctx))
      (reason (entryOf rules (now, ctx))).
Proof.
  unfold evaluatePermission, entryOf. cbn [fst snd].
  destruct (decide_ rules ctx) as [[res why]|error]; reflexivity.
Qed.

(** X7.  At its limit of a thousand entries the audit log gives up its five
    hundred and one oldest entries for the new one; below the limit an
    evaluation only adds its entry at the end.  The entry holds the time,
    the context and the decision returned. *)
Theorem audit_log_eviction (rules : PermissionRules) (auditLog : list AuditEntry)
    (now : Z) (ctx : PermissionContext) :
  (length auditLog <= 1000)%nat ->
  snd (evaluatePermission rules auditLog now ctx)
  = (if decide (length auditLog < 1000)%nat
     then auditLog ++ [entryOf rules (now, ctx)]
     else drop 501 auditLog ++ [entryOf rules (now, ctx)])%list
  /\ entryOf rules (now, ctx)
     = mkAudit now ctx (fst (evaluatePermission rules auditLog now ctx))
         (reason (entryOf rules (now, ctx))).
Proof.
  intros Hlen. split; [|apply entryOf_records].
  rewrite evaluatePermission_log. cbv zeta.
  rewrite length_app. cbn [length].
  destruct (decide (length auditLog < 1000)%nat) as [Hlt|Hge].
  - destruct (Nat.ltb_spec 1000 (length auditLog + 1)); [lia|reflexivity].
  - destruct (Nat.ltb_spec 1000 (length auditLog + 1)); [|lia].
    unfold lastN. rewrite length_app. cbn [length].
    replace (length auditLog + 1 - 500)%nat with 501%nat by lia.
    rewrite drop_app_le by lia. reflexivity.
Qed.

Lemma audit_step (rules : PermissionRules) (log history : list AuditEntry)
    (c : Z * PermissionContext) :
  log `suffix_of` history /\ (length log <= 1000)%nat
  /\ (Nat.min (length history) 500 <= length log)%nat ->
  let log' := snd (evaluatePermission rules log (fst c) (snd c)) in
  let history' := (history ++ [entryOf rules c])%list in
  log' `suffix_of` history' /\ (length log' <= 1000)%nat
  /\ (Nat.min (length history') 500 <= length log')%nat.
Proof.
  intros (Hsuf & Hlen & Hmin). cbv zeta.
  rewrite evaluatePermission_log. cbv zeta.
  replace (fst c, snd c) with c by (destruct c; reflexivity).
  pose proof (suffix_app _ _ [entryOf rules c] Hsuf) as Hsuf'.
  pose proof (suffix_length _ _ Hsuf) as Hle.
  rewrite !length_app in *. cbn [length] in *.
  destruct (Nat.ltb_spec 1000 (length log + 1)).
  - unfold lastN. rewrite length_app. cbn [length]. split; [|split].
    + etrans; [apply suffix_drop|exact Hsuf'].
    + rewrite length_drop, length_app. cbn [length]. lia.
    + rewrite length_drop, length_app. cbn [length]. lia.
  - split; [exact Hsuf'|]. rewrite length_app. cbn [length]. lia.
Qed.

Lemma audit_steps (rules : PermissionRules) (calls : list (Z * PermissionContext))
    (log history : list AuditEntry) :
  log `suffix_of` history /\ (length log <= 1000)%nat
  /\ (Nat.min (length history) 500 <= length log)%nat ->
  let log' := evaluateAll rules log calls in
  let history' := (history ++ map (entryOf rules) calls)%list in
  log' `suffix_of` history' /\ (length log' <= 1000)%nat
  /\ (Nat.min (length history') 500 <= length log')%nat.
Proof.
  revert log history. induction calls as [|c calls IH]; intros log history Hinv.
  - cbn. rewrite app_nil_r. exact Hinv.
  - cbn [evaluateAll fold_left map]. cbv zeta.
    replace (history ++ entryOf rules c :: map (entryOf rules) calls)%list
      with ((history ++ [entryOf rules c]) ++ map (entryOf rules) calls)%list
      by (rewrite <- app_assoc; reflexivity).
    apply (IH _ _ (audit_step rules log history c Hinv)).
Qed.

(** X8.  After any sequence of evaluations on a fresh manager the audit log
    holds the most recent decisions, in order and without gaps: it is a
    suffix of the list of all decisions made.  It never holds more than a
    thousand entries and, once five hundred decisions were made, never fewer
    than five hundred. *)
Theorem audit_log_recent (rules : PermissionRules)
    (calls : list (Z * PermissionContext)) :
  evaluateAll rules [] calls `suffix_of` map (entryOf rules) calls
  /\ (length (evaluateAll rules [] calls) <= 1000)%nat
  /\ (Nat.min (length calls) 500 <= length (evaluateAll rules [] calls))%nat.
Proof.
  pose proof (audit_steps rules calls [] []) as Hsteps. cbv zeta in Hsteps.
  rewrite length_app, length_map in Hsteps. cbn [app length Nat.add] in Hsteps.
  apply Hsteps. split; [reflexivity|]. cbn. lia.
Qed.

End AuditFacts.

(** ** PermissionManager: the default policy *)

Section DefaultPolicyFacts.
Context `{Runtime}.
Import PermissionWords PermissionSequences.

Lemma includes_iff (s w : string) :
  includes s w = true <-> exists pre post, s = pre ++ w ++ post.
Proof.
  split.
  - induction s as [|a s IH]; cbn [includes].
    + rewrite orb_false_r. intros Hs. apply startsWith_inv in Hs as [post ->].
      exists "", post. reflexivity.
    + intros Hs. apply orb_prop in Hs as [Hs|Hs].
      * apply startsWith_inv in Hs as [post ->]. exists "", post. reflexivity.
      * destruct (IH Hs) as (pre & post & ->). exists (String a pre), post. reflexivity.
  - intros (pre & post & ->). induction pre as [|a pre IH].
    + apply includes_startsWith. exact (startsWith_app w post).
    + rewrite append_cons. cbn [includes]. rewrite IH. apply orb_true_r.
Qed.

(** When no rule of the policy is written for the tool, the three scans find
    nothing and the default policy decides. *)
Lemma unnamed_tool_scans (rules : PermissionRules) (ctx : PermissionContext) :
  (forall rule, rule ∈ allRules rules -> ~ namesTool rule (toolName ctx)) ->
  decide_ rules ctx
  = (defaultResult ← applyDefaultPolicy ctx; Ok (defaultResult, "Applied default policy")).
Proof.
  intros Hno. unfold decide_, checkDenyRules, checkAllowRules, checkAskRules.
  assert (Hscan : forall bucket, (forall r, r ∈ bucket -> r ∈ allRules rules) ->
                    firstMatch bucket (toolName ctx) (input ctx) = Ok None).
  { intros bucket Hsub. apply firstMatch_none. intros r Hr.
    apply rule_for_other_tool, Hno, Hsub, Hr. }
  unfold allRules in Hscan.
  rewrite (Hscan (deny rules)) by (intros r Hr; set_solver). cbn.
  rewrite (Hscan (allow rules)) by (intros r Hr; set_solver). cbn.
  rewrite (Hscan (ask rules)) by (intros r Hr; set_solver). reflexivity.
Qed.

Lemma arrayIncludes_elem (l : list string) (t : string) :
  arrayIncludes l t = true <-> t ∈ l.
Proof.
  unfold arrayIncludes. rewrite existsb_exists. split.
  - intros (x & Hx & Heq). apply String.eqb_eq in Heq as ->. by apply list_elem_of_In.
  - intros Ht. exists t. split; [by apply list_elem_of_In|apply String.eqb_refl].
Qed.

Lemma default_safe_tool (rules : PermissionRules) (auditLog : list AuditEntry)
    (now : Z) (ctx : PermissionContext) :
  (forall rule, rule ∈ allRules rules -> ~ namesTool rule (toolName ctx)) ->
  toolName ctx ∈ safeDevelopmentTools ->
  fst (evaluatePermission rules auditLog now ctx) = mkResult Allow None None None.
Proof.
  intros Hno Hsafe. unfold evaluatePermission.
  rewrite (unnamed_tool_scans rules ctx Hno). unfold applyDefaultPolicy.
  apply arrayIncludes_elem in Hsafe. rewrite Hsafe. reflexivity.
Qed.

Lemma default_unlisted_tool (rules : PermissionRules) (auditLog : list AuditEntry)
    (now : Z) (ctx : PermissionContext) :
  (forall rule, rule ∈ allRules rules -> ~ namesTool rule (toolName ctx)) ->
  toolName ctx ∉ safeDevelopmentTools -> toolName ctx ∉ editingTools ->
  toolName ctx <> "Bash" ->
  fst (evaluatePermission rules auditLog now ctx)
  = mkResult Deny None (Some ("Tool " ++ toolName ctx ++ " not in allowed list")) None.
Proof.
  intros Hno Hsafe Hedit Hbash. unfold evaluatePermission.
  rewrite (unnamed_tool_scans rules ctx Hno). unfold applyDefaultPolicy.
  destruct (arrayIncludes safeDevelopmentTools (toolName ctx)) eqn:E1;
    [apply arrayIncludes_elem in E1; contradiction|].
  destruct (arrayIncludes editingTools (toolName ctx)) eqn:E2;
    [apply arrayIncludes_elem in E2; contradiction|].
  destruct (String.eqb_spec (toolName ctx) "Bash"); [contradiction|]. reflexivity.
Qed.

(** X9.  For a tool no rule is written for, the verdict depends on the tool
    alone when it is one of the six inspection tools (allow, whatever the
    input, [null] and [undefined] included) or when it is neither one of
    them, nor an editing tool, nor [Bash] (deny, naming the tool). *)
Theorem default_by_tool_alone (rules : PermissionRules) (auditLog : list AuditEntry)
    (now : Z) (ctx : PermissionContext) :
  (forall rule, rule ∈ allRules rules -> ~ namesTool rule (toolName ctx)) ->
  (toolName ctx ∈ safeDevelopmentTools ->
   fst (evaluatePermission rules auditLog now ctx) = mkResult Allow None None None)
  /\ (toolName ctx ∉ safeDevelopmentTools -> toolName ctx ∉ editingTools ->
      toolName ctx <> "Bash" ->
      fst (evaluatePermission rules auditLog now ctx)
      = mkResult Deny None (Some ("Tool " ++ toolName ctx ++ " not in allowed list")) None).
Proof.
  intros Hno. split.
  - by apply default_safe_tool.
  - by apply default_unlisted_tool.
Qed.

(** X10.  For an editing tool no rule is written for and an input whose
    [file_path] is a string, the verdict is allow exactly when the path holds
    [/workspace/] somewhere: the test is containment, not a comparison with
    the workspace of the team. *)
Theorem default_editing_containment (rules : PermissionRules)
    (auditLog : list AuditEntry) (now : Z) (ctx : PermissionContext)
    (props : list (string * JsValue)) (path : string) :
  (forall rule, rule ∈ allRules rules -> ~ namesTool rule (toolName ctx)) ->
  toolName ctx ∈ editingTools ->
  input ctx = JsObject props ->
  assoc "file_path" props = JsString path ->
  (behavior (fst (evaluatePermission rules auditLog now ctx)) = Allow
   <-> exists pre post, path = pre ++ "/workspace/" ++ post)
  /\ (behavior (fst (evaluatePermission rules auditLog now ctx)) = Deny
      -> fst (evaluatePermission rules auditLog now ctx)
         = mkResult Deny None
             (Some "File editing outside workspace requires explicit permission") None).
Proof.
  intros Hno Htool Hinput Hpath. unfold evaluatePermission.
  rewrite (unnamed_tool_scans rules ctx Hno). unfold applyDefaultPolicy.
  assert (Hsafe : arrayIncludes safeDevelopmentTools (toolName ctx) = false).
  { unfold editingTools in Htool. set_unfold.
    destruct Htool as [->|[->|[->|[]]]]; reflexivity. }
  assert (Hedit : arrayIncludes editingTools (toolName ctx) = true).
  { unfold editingTools in Htool. set_unfold.
    destruct Htool as [->|[->|[->|[]]]]; reflexivity. }
  rewrite Hsafe, Hedit, Hinput. cbn [getProp]. rewrite Hpath. cbn [mbind exc_bind].
  rewrite <- includes_iff.
  cbn [truthy]. destruct (String.eqb path "") eqn:Hempty; cbn.
  - apply String.eqb_eq in Hempty as ->. cbn.
    split; [split; discriminate|reflexivity].
  - destruct (includes path "/workspace/"); cbn.
    + split; [split; reflexivity|discriminate].
    + split; [split; discriminate|reflexivity].
Qed.

(** X11.  For a [Bash] request no rule is written for, a command whose first
    word (up to the first space) is one of the eight safe commands is
    allowed whatever follows the word, and any command at all is allowed
    when the priority of the context is high or critical. *)
Theorem default_bash_first_word (rules : PermissionRules)
    (auditLog : list AuditEntry) (now : Z) (ctx : PermissionContext)
    (props : list (string * JsValue)) (c : string) :
  (forall rule, rule ∈ allRules rules -> ~ namesTool rule (toolName ctx)) ->
  toolName ctx = "Bash" ->
  input ctx = JsObject props ->
  assoc "command" props = JsString c ->
  (forall w rest, w ∈ safeCommands -> c = w \/ c = w ++ " " ++ rest ->
     fst (evaluatePermission rules auditLog now ctx) = mkResult Allow None None None)
  /\ (priority ctx = Some high \/ priority ctx = Some critical ->
      behavior (fst (evaluatePermission rules auditLog now ctx)) = Allow)
  /\ (arrayIncludes safeCommands (firstWord c) = false ->
      priority ctx <> Some high -> priority ctx <> Some critical ->
      fst (evaluatePermission rules auditLog now ctx)
      = mkResult Deny None (Some "Bash command requires explicit permission") None).
Proof.
  intros Hno Htool Hinput Hcmd. unfold evaluatePermission.
  rewrite (unnamed_tool_scans rules ctx Hno). unfold applyDefaultPolicy.
  rewrite Htool, Hinput. cbn [getProp]. rewrite Hcmd.
  change (arrayIncludes safeDevelopmentTools "Bash") with false.
  change (arrayIncludes editingTools "Bash") with false.
  change (String.eqb "Bash" "Bash") with true. cbn [mbind exc_bind]. cbv iota.
  split; [|split].
  - intros w rest Hw Hc.
    assert (Hfirst : firstWord c = w).
    { unfold safeCommands in Hw. set_unfold.
      destruct Hw as [->|[->|[->|[->|[->|[->|[->|[->|[]]]]]]]]];
        destruct Hc as [->| ->]; reflexivity. }
    rewrite Hfirst.
    assert (Hsafe : arrayIncludes safeCommands w = true).
    { unfold safeCommands in Hw. set_unfold.
      destruct Hw as [->|[->|[->|[->|[->|[->|[->|[->|[]]]]]]]]]; reflexivity. }
    rewrite Hsafe. reflexivity.
  - intros Hprio. destruct (arrayIncludes safeCommands (firstWord c)); [reflexivity|].
    destruct Hprio as [-> | ->]; reflexivity.
  - intros Hword Hhigh Hcrit. rewrite Hword.
    destruct (priority ctx) as [[| | |]|]; try reflexivity; congruence.
Qed.

End DefaultPolicyFacts.

(** ** The shipped permission rules *)

Section ShippedRules.
Context `{Runtime}.
Import PermissionWords PermissionSequences TeamConfig Requests.

(** X12.  Under the shipped rules every [Bash] command that starts with
    [sudo] is denied by the rule written for it, whatever the priority, and
    the denial does not ask for an interrupt. *)
Theorem shipped_rules_deny_sudo (rest : string) (others : list (string * JsValue))
    (member session : option string) (prio : option Priority)
    (auditLog : list AuditEntry) (now : Z) :
  fst (evaluatePermission permissionRules auditLog now
         (bashRequest ("sudo" ++ rest) others member session prio))
  = mkResult Deny None (Some "Tool use denied by rule: Bash(sudo:*)") (Some false).
Proof.
  rewrite (evaluatePermission_denied permissionRules auditLog now _ "Bash(sudo:*)");
    [reflexivity|].
  vm_compute. reflexivity.
Qed.

(** X13.  Under the shipped rules no rule applies to a command that starts
    with [curl] or [wget] and a space, a download piped into a shell
    included: the deny rules written with [:*|sh] are exact patterns.  The
    default policy decides, and allows the command when the priority is high
    or critical. *)
Theorem shipped_rules_miss_downloads (tool rest : string)
    (others : list (string * JsValue)) (member session : option string)
    (prio : option Priority) (auditLog : list AuditEntry) (now : Z) :
  tool ∈ ["curl"; "wget"] ->
  fst (evaluatePermission permissionRules auditLog now
         (bashRequest (tool ++ " " ++ rest) others member session prio))
  = match prio with
    | Some high | Some critical =>
        mkResult Allow None (Some "Bash command approved due to high priority") None
    | _ => mkResult Deny None (Some "Bash command requires explicit permission") None
    end.
Proof.
  intros Htool. set_unfold.
  destruct Htool as [->|[->|[]]]; destruct prio as [[| | |]|];
    unfold evaluatePermission; vm_compute; reflexivity.
Qed.

Lemma unnamed_by_tools (rules : PermissionRules) (tool : string) :
  tool ∉ omap ruleTool (allRules rules) ->
  "*" ∉ omap ruleTool (allRules rules) ->
  forall rule, rule ∈ allRules rules -> ~ namesTool rule tool.
Proof.
  intros Htool Hstar rule Hrule [Hn|Hn].
  - apply Htool. apply list_elem_of_omap. eauto.
  - apply Hstar. apply list_elem_of_omap. eauto.
Qed.

(** X14.  Under the shipped rules a tool of one of the five custom servers
    is denied by the default policy, whatever its input, unless it is one of
    the three tools an ask rule is written for: the allow rules that end the
    name of a server with a star are written for a tool of that very name,
    star included. *)
Theorem shipped_rules_deny_server_tools (prefix name : string) (input : JsValue)
    (member session : option string) (prio : option Priority)
    (auditLog : list AuditEntry) (now : Z) :
  prefix ∈ serverPrefixes ->
  name <> "*" ->
  prefix ++ name ∉ askedTools ->
  fst (evaluatePermission permissionRules auditLog now
         (toolRequest (prefix ++ name) input member session prio))
  = mkResult Deny None
      (Some ("Tool " ++ (prefix ++ name) ++ " not in allowed list")) None.
Proof.
  intros Hprefix Hname Hasked.
  apply (default_unlisted_tool permissionRules auditLog now
           (toolRequest (prefix ++ name) input member session prio));
    cbn [toolName toolRequest].
  - apply unnamed_by_tools; [|vm_compute; set_unfold; intuition discriminate].
    unfold serverPrefixes, askedTools in *. set_unfold.
    destruct Hprefix as [->|[->|[->|[->|[->|[]]]]]];
      vm_compute; intros Hin; set_unfold;
      repeat (destruct Hin as [Hin|Hin]; [try discriminate Hin|]); try contradiction;
      try (injection Hin as Hin; first [ by apply Hname | apply Hasked; subst; tauto ]).
  - unfold serverPrefixes in Hprefix. set_unfold.
    destruct Hprefix as [->|[->|[->|[->|[->|[]]]]]];
      vm_compute; intros Hin; set_unfold; intuition discriminate.
  - unfold serverPrefixes in Hprefix. set_unfold.
    destruct Hprefix as [->|[->|[->|[->|[->|[]]]]]];
      vm_compute; intros Hin; set_unfold; intuition discriminate.
  - unfold serverPrefixes in Hprefix. set_unfold.
    destruct Hprefix as [->|[->|[->|[->|[->|[]]]]]]; discriminate.
Qed.

End ShippedRules.

(** ** CostTracker: the ledger *)

Section LedgerFacts.
Import CostTracker CostWords.

Lemma processMessage_cases (st : State) (now : string) (m : Message) :
  (processMessage st now m = (None, st)
   /\ (billable m = false \/ msg_id m ∈ processedMessageIds st))
  \/ (billable m = true /\ (msg_id m ∉ processedMessageIds st)
      /\ processMessage st now m
         = (Some (stepOf (now, m)),
            mkState ({[msg_id m]} ∪ processedMessageIds st)
              (stepUsages st ++ [stepOf (now, m)]))).
Proof.
  unfold processMessage, billable, stepOf, usageOf. cbn [fst snd].
  destruct (String.eqb (msg_type m) "assistant"); cbn [negb andb];
    [|left; split; [reflexivity|by left]].
  destruct (msg_usage m) as [u|]; cbn;
    [|left; split; [reflexivity|by left]].
  destruct (decide (msg_id m ∈ processedMessageIds st)) as [Hin|Hout].
  - rewrite bool_decide_eq_true_2 by exact Hin. left. split; [reflexivity|by right].
  - rewrite bool_decide_eq_false_2 by exact Hout. right.
    split; [|split; [exact Hout|reflexivity]].
    first [reflexivity | apply bool_decide_eq_true_2; eauto].
Qed.

Lemma ledgerSound_step (st : State) (now : string) (m : Message) :
  ledgerSound st -> ledgerSound (snd (processMessage st now m)).
Proof.
  intros (Hnd & Hset & Hcost).
  destruct (processMessage_cases st now m) as [[-> _]|(_ & Hout & ->)];
    [by repeat split|].
  cbn [snd]. unfold ledgerSound. cbn [stepUsages processedMessageIds].
  rewrite map_app. cbn [map]. split; [|split].
  - apply NoDup_app. split; [exact Hnd|]. split; [|apply NoDup_singleton].
    intros x Hx Hx'. apply list_elem_of_singleton in Hx' as ->.
    apply Hout. rewrite Hset. by apply elem_of_list_to_set.
  - rewrite list_to_set_app_L, <- Hset. cbn. set_solver.
  - apply Forall_app. split; [exact Hcost|]. by apply Forall_singleton.
Qed.

Lemma processed_step (st : State) (now : string) (m : Message) :
  processedMessageIds (snd (processMessage st now m))
  = (if billable m then {[msg_id m]} else ∅) ∪ processedMessageIds st.
Proof.
  destruct (processMessage_cases st now m) as [[-> [Hb|Hin]]|(Hb & _ & ->)]; cbn [snd].
  - rewrite Hb. set_solver.
  - destruct (billable m); set_solver.
  - rewrite Hb. reflexivity.
Qed.

Lemma processAll_sound (calls : list (string * Message)) (st : State) :
  ledgerSound st ->
  ledgerSound (processAll st calls)
  /\ processedMessageIds (processAll st calls) = billableIds calls ∪ processedMessageIds st.
Proof.
  revert st. induction calls as [|[now m] calls IH]; intros st Hst.
  - split; [exact Hst|]. unfold billableIds. cbn. set_solver.
  - cbn [processAll fold_left fst snd].
    destruct (IH _ (ledgerSound_step st now m Hst)) as [Hsound Hids].
    split; [exact Hsound|]. unfold processAll in Hids. rewrite Hids, processed_step.
    unfold billableIds. rewrite filter_cons. cbn [snd].
    destruct (billable m) eqn:Hb.
    + rewrite decide_True by reflexivity. cbn. set_solver.
    + rewrite decide_False by discriminate. set_solver.
Qed.

(** X15.  After any sequence of [processMessage] calls on a fresh tracker, no
    identifier is in the ledger twice, the identifiers of the ledger are the
    identifiers of the billable messages that were passed in, and the cost
    of every entry is the calculated cost of its usage; so the ledger has one
    entry for each distinct billable identifier. *)
Theorem ledger_has_each_id_once (calls : list (string * Message)) :
  let st := processAll new calls in
  NoDup (map messageId (stepUsages st))
  /\ list_to_set (map messageId (stepUsages st)) = billableIds calls
  /\ Forall (fun step => costUSD step = calculateCost (usage step)) (stepUsages st)
  /\ length (stepUsages st) = size (billableIds calls).
Proof.
  cbv zeta.
  assert (Hnew : ledgerSound new).
  { split; [constructor|]. split; [reflexivity|constructor]. }
  destruct (processAll_sound calls new Hnew) as [(Hnd & Hset & Hcost) Hids].
  assert (Heq : list_to_set (map messageId (stepUsages (processAll new calls)))
                = billableIds calls).
  { rewrite <- Hset, Hids. cbn. set_solver. }
  split; [exact Hnd|]. split; [exact Heq|]. split; [exact Hcost|].
  rewrite <- Heq, size_list_to_set by exact Hnd. by rewrite length_map.
Qed.

Lemma processAll_fresh (calls : list (string * Message)) (st : State) :
  NoDup (map (fun c => msg_id (snd c)) calls) ->
  Forall (fun c => billable (snd c) = true /\ msg_id (snd c) ∉ processedMessageIds st)
    calls ->
  stepUsages (processAll st calls) = (stepUsages st ++ map stepOf calls)%list.
Proof.
  revert st. induction calls as [|[now m] calls IH]; intros st Hnd Hall.
  - cbn. by rewrite app_nil_r.
  - cbn [map snd] in Hnd. apply NoDup_cons in Hnd as [Hhead Hnd].
    apply Forall_cons in Hall as [[Hb Hout] Hall]. cbn [snd] in Hb, Hout.
    cbn [processAll fold_left fst snd].
    destruct (processMessage_cases st now m) as [[_ [Hb'|Hin]]|(_ & _ & Hstep)];
      [congruence|contradiction|].
    rewrite Hstep. cbn [snd].
    change (fold_left _ calls ?s) with (processAll s calls).
    rewrite IH; [cbn [stepUsages map]; rewrite <- app_assoc; reflexivity|exact Hnd|].
    apply Forall_forall. intros c Hc. rewrite Forall_forall in Hall.
    destruct (Hall c Hc) as [Hcb Hcout]. split; [exact Hcb|].
    cbn [processedMessageIds]. intros Hin. apply elem_of_union in Hin as [Hin|Hin];
      [|contradiction].
    apply elem_of_singleton in Hin. apply Hhead. rewrite <- Hin.
    apply list_elem_of_fmap. exists c. split; [reflexivity|exact Hc].
Qed.

Lemma fold_cost_map (steps : list (string * Message)) (acc : float) :
  fold_left (fun total step => (total + costUSD step)%float) (map stepOf steps) acc
  = fold_left (fun total c => (total + calculateCost (usageOf (snd c)))%float) steps acc.
Proof.
  revert acc. induction steps as [|c steps IH]; intros acc; [reflexivity|].
  cbn [map fold_left]. apply IH.
Qed.

(** X16.  When the messages passed to a fresh tracker are billable and have
    distinct identifiers, every one of them is entered in the ledger, in
    order, and the total cost is the sum, taken in that order from zero, of
    the costs calculated for each message on its own. *)
Theorem total_cost_is_sum_of_costs (calls : list (string * Message)) :
  NoDup (map (fun c => msg_id (snd c)) calls) ->
  Forall (fun c => billable (snd c) = true) calls ->
  stepUsages (processAll new calls) = map stepOf calls
  /\ getTotalCost (processAll new calls)
     = fold_left (fun total c => (total + calculateCost (usageOf (snd c)))%float) calls 0%float.
Proof.
  intros Hnd Hall.
  assert (Hledger : stepUsages (processAll new calls) = map stepOf calls).
  { rewrite processAll_fresh; [reflexivity|exact Hnd|].
    eapply Forall_impl; [exact Hall|]. intros c Hc. split; [exact Hc|]. cbn. set_solver. }
  split; [exact Hledger|]. unfold getTotalCost. rewrite Hledger. apply fold_cost_map.
Qed.

(** X17.  [reset] empties the ledger and forgets the identifiers: the totals
    are those of a fresh tracker, and a billable message recorded before the
    reset is recorded, and charged, once more after it. *)
Theorem reset_forgets_identifiers (st : State) (now now' : string) (m : Message)
    (recorded : StepUsage) (st1 : State) :
  processMessage st now m = (Some recorded, st1) ->
  getTotalCost (reset st1) = 0%float
  /\ stepUsages (reset st1) = []
  /\ processMessage (reset st1) now' m
     = (Some (stepOf (now', m)), mkState {[msg_id m]} [stepOf (now', m)]).
Proof.
  intros Hfirst. split; [reflexivity|]. split; [reflexivity|].
  destruct (processMessage_cases st now m) as [[Heq _]|(Hb & _ & _)]; [congruence|].
  destruct (processMessage_cases (reset st1) now' m) as [[_ [Hb'|Hin]]|(_ & _ & ->)].
  - congruence.
  - cbn in Hin. set_solver.
  - cbn. f_equal. f_equal. set_solver.
Qed.

(** X18.  The cost field of the total usage is the cost calculated from the
    total counters: a cost of the sums, which the [total_cost_usd] reported
    with the usage of a message never enters. *)
Theorem total_usage_cost_of_sums (st : State) :
  total_cost_usd (getTotalUsage st) = Some (calculateCost (getTotalUsage st)).
Proof.
  unfold getTotalUsage.
  destruct (stepUsages st) as [|step ledger _] using rev_ind.
  - vm_compute. reflexivity.
  - rewrite fold_left_app. reflexivity.
Qed.

End LedgerFacts.

(** ** TeamManager: the choice of a member *)

Section SelectionFacts.
Import CostTracker TeamManager TeamWords.

Variable config : TeamConfiguration.

Lemma filter_first {A} (p : A -> bool) (pre : list A) (x : A) (post : list A) :
  Forall (fun y => p y = false) pre -> p x = true ->
  exists rest, List.filter p (pre ++ x :: post) = x :: rest.
Proof.
  induction pre as [|y pre IH]; intros Hpre Hx.
  - cbn. rewrite Hx. eauto.
  - apply Forall_cons in Hpre as [Hy Hpre]. cbn. rewrite Hy. by apply IH.
Qed.

Lemma find_first {A} (p : A -> bool) (pre : list A) (x : A) (post : list A) :
  Forall (fun y => p y = false) pre -> p x = true ->
  List.find p (pre ++ x :: post) = Some x.
Proof.
  induction pre as [|y pre IH]; intros Hpre Hx.
  - cbn. by rewrite Hx.
  - apply Forall_cons in Hpre as [Hy Hpre]. cbn. rewrite Hy. by apply IH.
Qed.

Lemma filter_none {A} (p : A -> bool) (l : list A) :
  Forall (fun y => p y = false) l -> List.filter p l = [].
Proof.
  induction l as [|y l IH]; intros Hl; [reflexivity|].
  apply Forall_cons in Hl as [Hy Hl]. cbn. rewrite Hy. by apply IH.
Qed.

Lemma find_none {A} (p : A -> bool) (l : list A) :
  Forall (fun y => p y = false) l -> List.find p l = None.
Proof.
  induction l as [|y l IH]; intros Hl; [reflexivity|].
  apply Forall_cons in Hl as [Hy Hl]. cbn. rewrite Hy. by apply IH.
Qed.

Lemma selectTeamMember_elem (task : TaskRequest) (member : TeamMember) :
  selectTeamMember config task = Some member -> member ∈ members config.
Proof.
  unfold selectTeamMember.
  destruct (List.filter _ (members config)) as [|c rest] eqn:Hf.
  - destruct (List.find _ (members config)) as [m|] eqn:Hfind.
    + intros Heq. injection Heq as <-. apply find_some in Hfind as [Hin _].
      by apply list_elem_of_In.
    + destruct (members config) as [|m rest]; [discriminate|].
      cbn. intros Heq. injection Heq as <-. constructor.
  - intros Heq. injection Heq as <-.
    assert (Hin : In c (List.filter (fun member0 =>
               arrayIncludes (specialization member0) (typeName (type task))
               || includes (toLowerCase (role member0)) (typeName (type task)))
               (members config))) by (rewrite Hf; by left).
    apply filter_In in Hin as [Hin _]. by apply list_elem_of_In.
Qed.

(** X19.  [selectTeamMember] finds no member exactly when the team has none,
    and the member it finds is a member of the team. *)
Theorem selection_is_a_member (task : TaskRequest) :
  (selectTeamMember config task = None <-> members config = [])
  /\ (forall member, selectTeamMember config task = Some member ->
        member ∈ members config).
Proof.
  unfold selectTeamMember. split.
  - split.
    + destruct (List.filter _ (members config)); [|discriminate].
      destruct (List.find _ (members config)); [discriminate|].
      destruct (members config); [reflexivity|discriminate].
    + intros ->. reflexivity.
  - intros member. apply selectTeamMember_elem.
Qed.

(** X20.  The choice follows the order of the roster: the first member whose
    specializations list the type of the task, or whose role in lower case
    holds it, is chosen; when no member is such, the first member of role
    [full-stack-developer] is; when there is none either, the first member
    of the roster is. *)
Theorem selection_follows_roster (task : TaskRequest) (pre : list TeamMember)
    (member : TeamMember) (post : list TeamMember) :
  members config = (pre ++ member :: post)%list ->
  (Forall (fun m => suits task m = false) pre -> suits task member = true ->
   selectTeamMember config task = Some member)
  /\ (Forall (fun m => suits task m = false) (members config) ->
      Forall (fun m => generalist m = false) pre -> generalist member = true ->
      selectTeamMember config task = Some member)
  /\ (Forall (fun m => suits task m = false) (members config) ->
      Forall (fun m => generalist m = false) (members config) ->
      selectTeamMember config task = head (members config)).
Proof.
  intros Hroster. unfold selectTeamMember.
  change (fun member0 : TeamMember =>
            arrayIncludes (specialization member0) (typeName (type task))
            || includes (toLowerCase (role member0)) (typeName (type task)))
    with (suits task).
  change (fun m : TeamMember => String.eqb (role m) "full-stack-developer")
    with generalist.
  split; [|split].
  - intros Hpre Hm. rewrite Hroster.
    destruct (filter_first (suits task) pre member post Hpre Hm) as [rest ->].
    reflexivity.
  - intros Hnone Hpre Hm. rewrite (filter_none _ _ Hnone), Hroster.
    by rewrite (find_first generalist pre member post Hpre Hm).
  - intros Hnone Hgen. rewrite (filter_none _ _ Hnone), (find_none _ _ Hgen).
    reflexivity.
Qed.

End SelectionFacts.

(** ** TeamManager: what a task does to its session *)

Section TaskEffects.
Import CostTracker TeamManager TeamWords.

Variable config : TeamConfiguration.

Lemma recorded_failed (run : Run) (error : JsError) :
  recorded (failedResult run error) = [].
Proof. reflexivity. Qed.

Lemma executeTask_effect (st : State) (sessionId : string) (s : TeamSession)
    (task : TaskRequest) (member : TeamMember) (run : Run) :
  activeSessions st !! sessionId = Some s ->
  exists s',
    activeSessions (snd (executeTask config st sessionId task member run)) !! sessionId
    = Some s'
    /\ completedTasks s'
       = (completedTasks s
          ++ recorded (fst (executeTask config st sessionId task member run)))%list
    /\ currentTasks s' = currentTasks s
    /\ activeMembers s' = activeMembers s
    /\ sameHeader s s'.
Proof.
  intros Hs.
  destruct (executeTask_cases config st sessionId task member run)
    as [[error Heq]|(session & text & u & Hs' & _ & Hres & Hst)].
  - rewrite Heq. cbn [fst snd]. exists s. rewrite recorded_failed, app_nil_r.
    repeat split; [exact Hs].
  - rewrite Hst, lookup_insert_eq. eexists. split; [reflexivity|].
    assert (session = s) as -> by congruence.
    cbn [completedTasks currentTasks activeMembers].
    split; [|repeat split].
    unfold recorded.
    destruct (decide (status (fst (executeTask config st sessionId task member run))
                      = completed)) as [_|Hno]; [reflexivity|].
    exfalso. apply Hno. rewrite Hres. reflexivity.
Qed.

Lemma executeTask_lookup_ne (st : State) (sessionId : string) (task : TaskRequest)
    (member : TeamMember) (run : Run) (k : string) :
  sessionId <> k ->
  activeSessions (snd (executeTask config st sessionId task member run)) !! k
  = activeSessions st !! k.
Proof.
  intros Hne.
  destruct (executeTask_cases config st sessionId task member run)
    as [[error ->]|(session & text & u & _ & _ & _ & ->)]; [reflexivity|].
  by rewrite lookup_insert_ne.
Qed.

Lemma finish_lookup_ne (sessionId : string)
    (prepared : list (Exc (TaskRequest * TeamMember * Run))) (order : list nat)
    (st : State) (k : string) :
  sessionId <> k ->
  activeSessions (fold_left (finish config sessionId prepared) order st) !! k
  = activeSessions st !! k.
Proof.
  intros Hne. revert st. induction order as [|i order IH]; intros st; [reflexivity|].
  cbn [fold_left]. rewrite IH. unfold finish.
  destruct (prepared !! i) as [[[[task member] run]|e]|]; try reflexivity.
  by apply executeTask_lookup_ne.
Qed.

(** The members and runs of a batch, when the team has a member. *)
Lemma prepared_all (tasks : list TaskRequest) (runs : nat -> Run) :
  members config <> [] ->
  exists chosen,
    imap (prepare config runs) tasks = map Ok chosen
    /\ length chosen = length tasks.
Proof.
  intros Hne. revert runs. induction tasks as [|task tasks IH]; intros runs.
  - exists []. split; reflexivity.
  - destruct (IH (fun i => runs (S i))) as (chosen & Hall & Hlen).
    destruct (selectTeamMember_is_Some config task Hne) as [member Hsel].
    exists ((withAssignee task member, member, runs 0%nat) :: chosen).
    split; [|cbn; by rewrite Hlen].
    cbn [imap map].
    change (imap (prepare config runs ∘ S) tasks)
      with (imap (prepare config (fun i => runs (S i))) tasks).
    rewrite Hall. unfold prepare. rewrite Hsel. reflexivity.
Qed.

Lemma promiseAll_chosen (st : State) (sessionId : string)
    (chosen : list (TaskRequest * TeamMember * Run)) :
  promiseAll (map (settle config st sessionId) (map Ok chosen))
  = Ok (map (resultOf config st sessionId) chosen).
Proof.
  induction chosen as [|[[task member] run] chosen IH]; [reflexivity|].
  cbn [map promiseAll]. rewrite IH. reflexivity.
Qed.

Lemma finish_effect (st0 : State) (sessionId : string)
    (chosen : list (TaskRequest * TeamMember * Run)) (order : list nat)
    (st : State) (s : TeamSession) :
  is_Some (activeSessions st0 !! sessionId) ->
  activeSessions st !! sessionId = Some s ->
  exists s',
    activeSessions (fold_left (finish config sessionId (map Ok chosen)) order st)
      !! sessionId = Some s'
    /\ completedTasks s'
       = (completedTasks s
          ++ (order ≫= fun i =>
                from_option recorded [] (map (resultOf config st0 sessionId) chosen !! i)))%list
    /\ currentTasks s' = currentTasks s
    /\ activeMembers s' = activeMembers s
    /\ sameHeader s s'.
Proof.
  intros Hs0. revert st s. induction order as [|i order IH]; intros st s Hs.
  - exists s. cbn. rewrite app_nil_r. repeat split; exact Hs.
  - cbn [fold_left]. rewrite bind_cons.
    assert (Hstep : exists s1,
      activeSessions (finish config sessionId (map Ok chosen) st i) !! sessionId
      = Some s1
      /\ completedTasks s1
         = (completedTasks s
            ++ from_option recorded [] (map (resultOf config st0 sessionId) chosen !! i))%list
      /\ currentTasks s1 = currentTasks s
      /\ activeMembers s1 = activeMembers s
      /\ sameHeader s s1).
    { unfold finish. rewrite !list_lookup_fmap.
      destruct (chosen !! i) as [[[task member] run]|]; cbn.
      - destruct (executeTask_effect st sessionId s task member run Hs)
          as (s1 & H1 & Hc & Hrest).
        exists s1. split; [exact H1|]. split; [|exact Hrest].
        rewrite Hc. unfold resultOf. cbn.
        rewrite (executeTask_result_indep config st st0); eauto.
      - exists s. rewrite app_nil_r. repeat split; exact Hs. }
    destruct Hstep as (s1 & H1 & Hc1 & Ht1 & Hm1 & Hh1).
    destruct (IH _ s1 H1) as (s' & H' & Hc & Ht & Hm & Hh).
    exists s'. split; [exact H'|].
    rewrite Hc, Hc1, Ht, Ht1, Hm, Hm1, <- app_assoc.
    split; [reflexivity|]. split; [reflexivity|]. split; [reflexivity|].
    destruct Hh1 as (?&?&?&?), Hh as (?&?&?&?). repeat split; congruence.
Qed.

Lemma bind_shift {B} (g : nat -> list B) (j n : nat) :
  seq (S j) n ≫= g = seq j n ≫= (fun i => g (S i)).
Proof.
  revert j. induction n as [|n IH]; intros j; [reflexivity|].
  cbn [seq]. rewrite !bind_cons, IH. reflexivity.
Qed.

Lemma bind_positions {A B} (f : A -> list B) (l : list A) :
  seq 0 (length l) ≫= (fun i => from_option f [] (l !! i)) = l ≫= f.
Proof.
  induction l as [|x l IH]; [reflexivity|].
  cbn [length seq]. rewrite !bind_cons, bind_shift, <- IH. reflexivity.
Qed.

Lemma bind_recorded (results : list TaskResult) :
  results ≫= recorded = filter (fun r => status r = completed) results.
Proof.
  induction results as [|r results IH]; [reflexivity|].
  rewrite bind_cons, filter_cons, IH. unfold recorded.
  destruct (decide (status r = completed)); reflexivity.
Qed.

(** X21.  What [executeParallelTasks] records.  On a team with a member and
    a session of the table, the completed tasks of the session grow by the
    results of status completed, in the order in which the tasks finish:
    the failed results are returned but not recorded; the list of current
    tasks and the list of active members stay as they were. *)
Theorem parallel_tasks_recorded (st : State) (sessionId : string)
    (session : TeamSession) (tasks : list TaskRequest) (runs : nat -> Run)
    (order : list nat) :
  members config <> [] ->
  activeSessions st !! sessionId = Some session ->
  exists results finished session',
    fst (executeParallelTasks config st sessionId tasks runs order) = Ok results
    /\ getSessionStatus
         (snd (executeParallelTasks config st sessionId tasks runs order)) sessionId
       = Some session'
    /\ completedTasks session' = (completedTasks session ++ finished)%list
    /\ finished
       = (completionOrder (length tasks) order ≫= fun i =>
            from_option recorded [] (results !! i))
    /\ finished ≡ₚ filter (fun r => status r = completed) results
    /\ currentTasks session' = currentTasks session
    /\ activeMembers session' = activeMembers session.
Proof.
  intros Hne Hs. unfold executeParallelTasks, getSessionStatus. rewrite Hs.
  cbn [fst snd].
  destruct (prepared_all tasks runs Hne) as (chosen & -> & Hlen).
  rewrite promiseAll_chosen.
  destruct (finish_effect st sessionId chosen (completionOrder (length tasks) order)
              st session (mk_is_Some _ _ Hs) Hs) as (s' & H' & Hc & Ht & Hm & _).
  eexists (map (resultOf config st sessionId) chosen), _, s'.
  split; [reflexivity|]. split; [exact H'|]. split; [exact Hc|].
  split; [reflexivity|]. split; [|split; assumption].
  rewrite completionOrder_permutation.
  replace (length tasks) with (length (map (resultOf config st sessionId) chosen))
    by (by rewrite length_map).
  rewrite bind_positions, bind_recorded. reflexivity.
Qed.

Lemma assignTask_effect (st : State) (sessionId : string)
    (session : TeamSession) (task : TaskRequest) (run : Run) :
  members config <> [] ->
  activeSessions st !! sessionId = Some session ->
  exists member r session',
    selectTeamMember config task = Some member
    /\ fst (assignTask config st sessionId task run) = Ok (run_taskId run)
    /\ r = fst (executeTask config st sessionId (withAssignee task member) member run)
    /\ getSessionStatus (snd (assignTask config st sessionId task run)) sessionId
       = Some session'
    /\ currentTasks session'
       = (currentTasks session ++ [withAssignee task member])%list
    /\ activeMembers session' = (activeMembers session ++ [id member])%list
    /\ completedTasks session' = (completedTasks session ++ recorded r)%list
    /\ sameHeader session session'.
Proof.
  intros Hne Hs. unfold assignTask, getSessionStatus. rewrite Hs.
  destruct (selectTeamMember_is_Some config task Hne) as [member Hsel].
  rewrite Hsel.
  set (session1 := mkSession _ _ _ _ _ _ _ _ _).
  set (st1 := mkState (<[sessionId := session1]> (activeSessions st))).
  assert (H1 : activeSessions st1 !! sessionId = Some session1)
    by apply lookup_insert_eq.
  destruct (executeTask_effect st1 sessionId session1 (withAssignee task member)
              member run H1) as (s' & H' & Hc & Ht & Hm & Hh).
  pose proof (executeTask_taskId config st1 sessionId (withAssignee task member)
                member run) as Hid.
  pose proof (executeTask_result_indep config st1 st sessionId
                (withAssignee task member) member run
                (mk_is_Some _ _ H1) (mk_is_Some _ _ Hs)) as Hind.
  destruct (executeTask config st1 sessionId (withAssignee task member) member run)
    as [res st2].
  cbn [fst snd] in *.
  exists member, res, s'. split; [reflexivity|]. split; [by rewrite Hid|].
  split; [exact Hind|]. split; [exact H'|].
  rewrite Ht, Hm, Hc. repeat split; apply Hh.
Qed.

(** X22.  What [assignTask] records.  On a team with a member and a session
    of the table, the call returns the identifier of the run, also when the
    task failed; the task, with the chosen member as assignee, is appended
    to the current tasks and stays there, the identifier of the member is
    appended to the active members, and the completed tasks grow by the
    result when its status is completed and not at all when it is failed;
    the identifier, the name, the start time and the workspace of the
    session stay as they were.  When the engine raises an error the task is
    thus among the current tasks of the session and nowhere else. *)
Theorem assigned_task_recorded (st : State) (sessionId : string)
    (session : TeamSession) (task : TaskRequest) (run : Run) :
  members config <> [] ->
  activeSessions st !! sessionId = Some session ->
  exists member r session',
    selectTeamMember config task = Some member
    /\ fst (assignTask config st sessionId task run) = Ok (run_taskId run)
    /\ r = fst (executeTask config st sessionId (withAssignee task member) member run)
    /\ getSessionStatus (snd (assignTask config st sessionId task run)) sessionId
       = Some session'
    /\ currentTasks session'
       = (currentTasks session ++ [withAssignee task member])%list
    /\ activeMembers session' = (activeMembers session ++ [id member])%list
    /\ completedTasks session' = (completedTasks session ++ recorded r)%list
    /\ sameHeader session session'
    /\ (forall error,
          engine run (queryFor config (withAssignee task member) member)
          = raises error ->
          r = failedResult run error
          /\ completedTasks session' = completedTasks session).
Proof.
  intros Hne Hs.
  destruct (assignTask_effect st sessionId session task run Hne Hs)
    as (member & r & session' & Hsel & Hid & Hr & Hs' & Ht & Hm & Hc & Hh).
  exists member, r, session'.
  repeat (split; [assumption|]).
  intros error Herr.
  rewrite (executeTask_raises config _ _ _ _ _ _ Herr) in Hr. cbn [fst] in Hr.
  split; [exact Hr|]. rewrite Hc, Hr, recorded_failed. apply app_nil_r.
Qed.

End TaskEffects.

(** ** TeamManager: what holds of every session *)

Section SessionInvariants.
Import CostTracker TeamManager TeamWords.

Variable config : TeamConfiguration.

(** A property of the sessions that holds of a new session and survives the
    two updates the code makes holds of every session, whatever was called. *)
Section Preserved.

Variable P : string -> TeamSession -> Prop.

Hypothesis P_start : forall sessionName sessionId now,
  P sessionId (mkSession sessionId sessionName now (workspace config) [] [] []
                 0%float emptyUsage).

Hypothesis P_assign : forall k s task member,
  P k s -> member ∈ members config ->
  P k (mkSession (session_id s) (session_name s) (startTime s) (session_workspace s)
         (activeMembers s ++ [id member])%list
         (currentTasks s ++ [withAssignee task member])%list
         (completedTasks s) (totalCost s) (totalUsage s)).

Hypothesis P_record : forall k s tid text u d,
  P k s ->
  let r := mkTaskResult tid completed (Some text) (Some u) (Some (calculateCost u))
             (Some d) in
  P k (mkSession (session_id s) (session_name s) (startTime s) (session_workspace s)
         (activeMembers s) (currentTasks s) (completedTasks s ++ [r])%list
         (totalCost s + orZero (cost r))%float (aggregateUsage (totalUsage s) u)).

Lemma preserved_executeTask (st : State) (sessionId : string) (task : TaskRequest)
    (member : TeamMember) (run : Run) :
  map_Forall P (activeSessions st) ->
  map_Forall P (activeSessions (snd (executeTask config st sessionId task member run))).
Proof using P_record.
  intros Hall.
  destruct (executeTask_cases config st sessionId task member run)
    as [[error ->]|(session & text & u & Hs & _ & Hres & ->)]; [exact Hall|].
  apply map_Forall_insert_2; [|exact Hall].
  rewrite Hres. apply P_record. exact (Hall _ _ Hs).
Qed.

Lemma preserved_finish (sessionId : string)
    (prepared : list (Exc (TaskRequest * TeamMember * Run))) (order : list nat)
    (st : State) :
  map_Forall P (activeSessions st) ->
  map_Forall P (activeSessions (fold_left (finish config sessionId prepared) order st)).
Proof using P_record.
  revert st. induction order as [|i order IH]; intros st Hall; [exact Hall|].
  cbn [fold_left]. apply IH. unfold finish.
  destruct (prepared !! i) as [[[[task member] run]|e]|]; try exact Hall.
  by apply preserved_executeTask.
Qed.

Lemma preserved_step (st : State) (c : Call) :
  map_Forall P (activeSessions st) ->
  map_Forall P (activeSessions (step config st c)).
Proof using P_start P_assign P_record.
  intros Hall. destruct c as [sessionName sessionId now | sessionId task run
                             | sessionId tasks runs order | sessionId now writeFile];
    cbn [step].
  - cbn. apply map_Forall_insert_2; [apply P_start|exact Hall].
  - unfold assignTask.
    destruct (activeSessions st !! sessionId) as [session|] eqn:Es; [|exact Hall].
    destruct (selectTeamMember config task) as [member|] eqn:Hsel; [|exact Hall].
    match goal with
    | |- context [executeTask config ?st' sessionId ?t member run] =>
        pose proof (preserved_executeTask st' sessionId t member run) as Hex;
        destruct (executeTask config st' sessionId t member run) as [res st'']
    end.
    cbn [snd] in *. apply Hex.
    apply map_Forall_insert_2; [|exact Hall].
    apply P_assign; [exact (Hall _ _ Es)|].
    exact (selectTeamMember_elem config task member Hsel).
  - unfold executeParallelTasks.
    destruct (activeSessions st !! sessionId) as [session|]; [|exact Hall].
    cbn [snd]. by apply preserved_finish.
  - unfold endSession.
    destruct (activeSessions st !! sessionId) as [session|]; [|exact Hall].
    destruct (writeFile _); [|exact Hall].
    cbn. by apply map_Forall_delete.
Qed.

Lemma preserved_after (calls : list Call) :
  map_Forall P (activeSessions (after config calls)).
Proof using P_start P_assign P_record.
  unfold after.
  assert (Hgen : forall st, map_Forall P (activeSessions st) ->
                   map_Forall P (activeSessions (fold_left (step config) calls st))).
  { induction calls as [|c calls' IH]; intros st Hall; [exact Hall|].
    cbn [fold_left]. apply IH. by apply preserved_step. }
  apply Hgen. apply map_Forall_empty.
Qed.

End Preserved.

(** X23.  After any sequence of calls on a fresh manager, every entry of the
    completed tasks of a session has the status completed, a result text, a
    duration, a usage and the cost [calculateCost] gives for it: no failed
    task is ever among the completed tasks, so the breakdown of a session
    report holds no entry of another status. *)
Theorem completed_tasks_all_completed (calls : list Call) (sessionId : string)
    (session : TeamSession) (now : Z) :
  getSessionStatus (after config calls) sessionId = Some session ->
  Forall recordedResult (completedTasks session)
  /\ Forall (fun e => entry_status e = completed
                      /\ is_Some (entry_duration e) /\ is_Some (entry_cost e))
       (taskBreakdown (sessionReport session now))
  /\ map entry_taskId (taskBreakdown (sessionReport session now))
     = map taskId (completedTasks session).
Proof.
  intros Hs.
  assert (Hall : Forall recordedResult (completedTasks session)).
  { refine (preserved_after (fun _ s => Forall recordedResult (completedTasks s))
              _ _ _ calls sessionId session Hs).
    - intros. constructor.
    - intros k s task member H _. exact H.
    - intros k s tid text u d H r. cbn [completedTasks].
      apply Forall_app. split; [exact H|]. constructor; [|constructor].
      repeat split; cbn; eauto. }
  split; [exact Hall|]. split.
  - cbn [sessionReport taskBreakdown]. apply Forall_fmap.
    eapply Forall_impl; [exact Hall|].
    intros r (Hst & _ & Hd & u & _ & Hc). cbn. rewrite Hc. eauto.
  - cbn [sessionReport taskBreakdown]. rewrite map_map. reflexivity.
Qed.

(** X24.  After any sequence of calls on a fresh manager, a session is filed
    under its own identifier and has the workspace of the configuration; its
    current tasks and its active members go together, the task at a position
    being assigned to the member at that position, and every active member
    is a member of the team.  Task requests are values here: what a caller
    does to a task object after handing it over is not part of the model. *)
Theorem assignments_agree (calls : list Call) (sessionId : string)
    (session : TeamSession) :
  getSessionStatus (after config calls) sessionId = Some session ->
  session_id session = sessionId
  /\ session_workspace session = workspace config
  /\ assignmentsAgree config session
  /\ length (currentTasks session) = length (activeMembers session).
Proof.
  intros Hs.
  assert (H : session_id session = sessionId
              /\ session_workspace session = workspace config
              /\ assignmentsAgree config session).
  { refine (preserved_after
              (fun k s => session_id s = k
                          /\ session_workspace s = workspace config
                          /\ assignmentsAgree config s)
              _ _ _ calls sessionId session Hs).
    - intros. repeat split. constructor.
    - intros k s task member (Hid & Hw & Hmap & Hmem) Hin.
      split; [exact Hid|]. split; [exact Hw|]. split.
      + cbn [currentTasks activeMembers]. rewrite !map_app, Hmap. reflexivity.
      + cbn [activeMembers]. apply Forall_app. split; [exact Hmem|].
        constructor; [|constructor]. eauto.
    - intros k s tid text u d H r. exact H. }
  destruct H as (Hid & Hw & Hag). repeat split; try assumption; try apply Hag.
  destruct Hag as [Hmap _].
  apply (f_equal (@length _)) in Hmap. by rewrite !length_map in Hmap.
Qed.

Lemma step_lookup_ne (st : State) (c : Call) (k : string) :
  target c <> k ->
  activeSessions (step config st c) !! k = activeSessions st !! k.
Proof.
  intros Hne.
  destruct c as [sessionName sessionId now | sessionId task run
                | sessionId tasks runs order | sessionId now writeFile];
    cbn [step target] in *.
  - cbn. by rewrite lookup_insert_ne.
  - unfold assignTask.
    destruct (activeSessions st !! sessionId) as [session|] eqn:Es; [|reflexivity].
    destruct (selectTeamMember config task) as [member|]; [|reflexivity].
    match goal with
    | |- context [executeTask config ?st' sessionId ?t member run] =>
        pose proof (executeTask_lookup_ne config st' sessionId t member run k Hne) as Hex;
        destruct (executeTask config st' sessionId t member run) as [res st'']
    end.
    cbn [snd] in *. rewrite Hex. cbn. by rewrite lookup_insert_ne.
  - unfold executeParallelTasks.
    destruct (activeSessions st !! sessionId) as [session|]; [|reflexivity].
    cbn [snd]. by apply finish_lookup_ne.
  - unfold endSession.
    destruct (activeSessions st !! sessionId) as [session|]; [|reflexivity].
    destruct (writeFile _); [|reflexivity].
    cbn. by rewrite lookup_delete_ne.
Qed.

(** X25.  Sessions do not touch one another: calls that are about other
    identifiers (and start no session under this one) leave what the table
    holds for an identifier as it was, be it a session or nothing. *)
Theorem other_sessions_untouched (st : State) (calls : list Call) (k : string) :
  Forall (fun c => target c <> k) calls ->
  getSessionStatus (fold_left (step config) calls st) k = getSessionStatus st k.
Proof.
  unfold getSessionStatus. revert st.
  induction calls as [|c calls IH]; intros st Hcalls; [reflexivity|].
  apply Forall_cons in Hcalls as [Hc Hcalls]. cbn [fold_left].
  rewrite IH by exact Hcalls. by apply step_lookup_ne.
Qed.

(** X26.  The history of a session only grows.  A call that starts no
    session under the identifier of a session of the table either ends the
    session, or leaves it in the table with the name, the start time and the
    workspace it had, and with completed tasks, current tasks and active
    members that extend the former lists at their end. *)
Theorem history_only_grows (st : State) (c : Call) (k : string) (s : TeamSession) :
  activeSessions st !! k = Some s ->
  ~ restarts k c ->
  match getSessionStatus (step config st c) k with
  | None => exists now writeFile, c = EndSession k now writeFile
  | Some s' =>
      sameHeader s s'
      /\ completedTasks s `prefix_of` completedTasks s'
      /\ currentTasks s `prefix_of` currentTasks s'
      /\ activeMembers s `prefix_of` activeMembers s'
  end.
Proof.
  intros Hs Hc. unfold getSessionStatus.
  destruct (decide (target c = k)) as [Hk|Hk];
    [|rewrite (step_lookup_ne st c k Hk), Hs; by repeat split].
  destruct c as [sessionName sessionId now | sessionId task run
                | sessionId tasks runs order | sessionId now writeFile];
    cbn [step target restarts] in *; subst.
  - contradiction.
  - unfold assignTask. rewrite Hs.
    destruct (selectTeamMember config task) as [member|]; cbn [snd];
      [|rewrite Hs; by repeat split].
    set (s1 := mkSession _ _ _ _ _ _ _ _ _).
    set (st1 := mkState (<[k := s1]> (activeSessions st))).
    assert (H1 : activeSessions st1 !! k = Some s1) by apply lookup_insert_eq.
    destruct (executeTask_effect config st1 k s1 (withAssignee task member)
                member run H1) as (s' & H' & Hco & Ht & Hm & Hh).
    destruct (executeTask config st1 k (withAssignee task member) member run)
      as [res st2].
    cbn [fst snd] in *. rewrite H'. rewrite Hco, Ht, Hm.
    split; [exact Hh|]. repeat split; by apply prefix_app_r.
  - unfold executeParallelTasks. rewrite Hs. cbn [snd].
    set (prepared := imap (prepare config runs) tasks).
    assert (Hgen : forall order' st1 s1,
      activeSessions st1 !! k = Some s1 ->
      exists s',
        activeSessions (fold_left (finish config k prepared) order' st1) !! k = Some s'
        /\ sameHeader s1 s'
        /\ completedTasks s1 `prefix_of` completedTasks s'
        /\ currentTasks s' = currentTasks s1
        /\ activeMembers s' = activeMembers s1).
    { induction order' as [|i order' IH]; intros st1 s1 H1.
      - exists s1. by repeat split.
      - cbn [fold_left].
        assert (Hone : exists s2,
          activeSessions (finish config k prepared st1 i) !! k = Some s2
          /\ sameHeader s1 s2
          /\ completedTasks s1 `prefix_of` completedTasks s2
          /\ currentTasks s2 = currentTasks s1
          /\ activeMembers s2 = activeMembers s1).
        { unfold finish.
          destruct (prepared !! i) as [[[[task member] run]|e]|];
            try (exists s1; by repeat split).
          destruct (executeTask_effect config st1 k s1 task member run H1)
            as (s2 & H2 & Hco & Ht & Hm & Hh).
          exists s2. split; [exact H2|]. split; [exact Hh|].
          split; [rewrite Hco; by apply prefix_app_r|]. by split. }
        destruct Hone as (s2 & H2 & Hh2 & Hp2 & Ht2 & Hm2).
        destruct (IH _ s2 H2) as (s' & H' & Hh & Hp & Ht & Hm).
        exists s'. split; [exact H'|]. split.
        + destruct Hh2 as (?&?&?&?), Hh as (?&?&?&?). repeat split; congruence.
        + split; [by etrans|]. split; congruence. }
    destruct (Hgen (completionOrder (length tasks) order) st s Hs)
      as (s' & -> & Hh & Hp & Ht & Hm).
    split; [exact Hh|]. split; [exact Hp|]. rewrite Ht, Hm. by split.
  - unfold endSession. rewrite Hs.
    destruct (writeFile _); cbn [snd].
    + cbn. rewrite lookup_delete_eq. eauto.
    + rewrite Hs. by repeat split.
Qed.

End SessionInvariants.

(** ** AgenticDevTeam: projects and deployments *)

Section ProjectFacts.
Import CostTracker TeamManager TeamWords AgenticDevTeam.

Variable config : TeamConfiguration.

(** The setup loop on a team with a member: every task is assigned, in
    order, and no call is rejected. *)
Lemma assignEach_effect (tasks : list TaskRequest) (st : State) (sessionId : string)
    (s : TeamSession) (runs : nat -> Run) :
  members config <> [] ->
  activeSessions st !! sessionId = Some s ->
  exists s' added finished,
    fst (assignEach config st sessionId tasks runs) = Ok tt
    /\ activeSessions (snd (assignEach config st sessionId tasks runs)) !! sessionId
       = Some s'
    /\ sameHeader s s'
    /\ currentTasks s' = (currentTasks s ++ added)%list
    /\ Forall2 (fun task task' =>
                  exists member, selectTeamMember config task = Some member
                                 /\ task' = withAssignee task member) tasks added
    /\ activeMembers s' = (activeMembers s ++ omap assignedTo added)%list
    /\ completedTasks s' = (completedTasks s ++ finished)%list
    /\ map taskId finished
       `sublist_of` map (fun i => run_taskId (runs i)) (seq 0 (length tasks)).
Proof.
  intros Hne. revert st s runs.
  induction tasks as [|task tasks IH]; intros st s runs Hs.
  - exists s, [], []. cbn. rewrite !app_nil_r.
    repeat split; try exact Hs; constructor.
  - destruct (assignTask_effect config st sessionId s task (runs 0%nat) Hne Hs)
      as (member & r & s1 & Hsel & Hfst & Hr & H1 & Ht1 & Hm1 & Hc1 & Hh1).
    unfold getSessionStatus in H1.
    cbn [assignEach].
    destruct (assignTask config st sessionId task (runs 0%nat)) as [answer st1].
    cbn [fst snd] in Hfst, H1. subst answer.
    destruct (IH st1 s1 (fun i => runs (S i)) H1)
      as (s' & added & finished & Hok & H' & Hh & Ht & Hadd & Hm & Hc & Hsub).
    exists s', (withAssignee task member :: added), (recorded r ++ finished)%list.
    split; [exact Hok|]. split; [exact H'|]. split; [|split; [|split; [|split; [|split]]]].
    + destruct Hh1 as (?&?&?&?), Hh as (?&?&?&?). repeat split; congruence.
    + rewrite Ht, Ht1, <- app_assoc. reflexivity.
    + constructor; [eauto|exact Hadd].
    + rewrite Hm, Hm1, <- app_assoc. reflexivity.
    + rewrite Hc, Hc1, <- app_assoc. reflexivity.
    + rewrite map_app. cbn [length seq map].
      change (run_taskId (runs 0%nat) :: map (fun i => run_taskId (runs i)) (seq 1 (length tasks)))
        with ([run_taskId (runs 0%nat)]
              ++ map (fun i => run_taskId (runs i)) (seq 1 (length tasks)))%list.
      apply sublist_app.
      * unfold recorded. destruct (decide _); [|apply sublist_nil_l].
        cbn [map]. rewrite Hr, executeTask_taskId. reflexivity.
      * rewrite <- fmap_S_seq. rewrite <- list_fmap_compose. exact Hsub.
Qed.

(** X27.  [startNewProject] on a team with a member returns the identifier
    of the session it started, whatever became of the setup tasks.  The
    session bears the name of the project; its current tasks are the three
    setup tasks in their order, each with the member [selectTeamMember]
    chooses for it as assignee, and its active members are these assignees;
    its completed tasks are at most three and bear identifiers of the three
    runs, in their order.  A session that was filed under the identifier is
    replaced. *)
Theorem new_project_setup (st : State) (projectName sessionId : string) (now : Z)
    (runs : nat -> Run) :
  members config <> [] ->
  exists session,
    fst (startNewProject config st projectName sessionId now runs) = Ok sessionId
    /\ getProjectStatus (snd (startNewProject config st projectName sessionId now runs))
         sessionId = Some session
    /\ session_id session = sessionId
    /\ session_name session = projectName
    /\ startTime session = now
    /\ Forall2 (fun task task' =>
                  exists member, selectTeamMember config task = Some member
                                 /\ task' = withAssignee task member)
         setupTasks (currentTasks session)
    /\ activeMembers session = omap assignedTo (currentTasks session)
    /\ map taskId (completedTasks session)
       `sublist_of` [run_taskId (runs 0%nat); run_taskId (runs 1%nat);
                     run_taskId (runs 2%nat)]
    /\ (length (completedTasks session) <= 3)%nat.
Proof.
  intros Hne. unfold startNewProject, getProjectStatus, getSessionStatus.
  cbn [startTeamSession].
  set (s0 := mkSession sessionId projectName now (workspace config) [] [] []
               0%float emptyUsage).
  set (st1 := mkState (<[sessionId := s0]> (activeSessions st))).
  assert (H0 : activeSessions st1 !! sessionId = Some s0) by apply lookup_insert_eq.
  destruct (assignEach_effect setupTasks st1 sessionId s0 runs Hne H0)
    as (s' & added & finished & Hok & H' & Hh & Ht & Hadd & Hm & Hc & Hsub).
  destruct (assignEach config st1 sessionId setupTasks runs) as [[[]|e] st2];
    cbn [fst snd] in *; [|discriminate].
  exists s'. destruct Hh as (Hid & Hname & Htime & _).
  cbn in Ht, Hm, Hc. subst added. rewrite Hc.
  repeat split; try assumption.
  rewrite <- (length_map taskId). apply sublist_length in Hsub. exact Hsub.
Qed.

(** X28.  [startNewProject] on a team without members is rejected with the
    type error of reading [id] of [undefined], raised by the first setup
    task; the session it had started stays in the table, empty. *)
Theorem new_project_on_empty_team (st : State) (projectName sessionId : string)
    (now : Z) (runs : nat -> Run) :
  members config = [] ->
  fst (startNewProject config st projectName sessionId now runs)
  = Throw (TypeError "Cannot read properties of undefined (reading 'id')")
  /\ getProjectStatus (snd (startNewProject config st projectName sessionId now runs))
       sessionId
     = Some (mkSession sessionId projectName now (workspace config) [] [] []
               0%float emptyUsage).
Proof.
  intros Hempty. unfold startNewProject, getProjectStatus, getSessionStatus.
  cbn [startTeamSession setupTasks assignEach]. unfold assignTask.
  cbn [activeSessions]. rewrite lookup_insert_eq.
  unfold selectTeamMember. rewrite Hempty. cbn.
  split; [reflexivity|]. apply lookup_insert_eq.
Qed.

Lemma finish_all_raise (sessionId : string)
    (prepared : list (Exc (TaskRequest * TeamMember * Run))) (order : list nat)
    (st : State) :
  (forall i task member run,
      prepared !! i = Some (Ok (task, member, run)) ->
      exists error, engine run (queryFor config task member) = raises error) ->
  fold_left (finish config sessionId prepared) order st = st.
Proof.
  intros Hall. induction order as [|i order IH]; [reflexivity|].
  cbn [fold_left].
  replace (finish config sessionId prepared st i) with st; [exact IH|].
  unfold finish.
  destruct (prepared !! i) as [[[[task member] run]|e]|] eqn:Hi; try reflexivity.
  destruct (Hall i task member run Hi) as [error Herr].
  by rewrite (executeTask_raises config _ _ _ _ _ _ Herr).
Qed.

(** X29.  [deployToStaging] on a team with a member and a session of the
    table returns the identifiers of its two runs, the test run first,
    joined by a comma and a space, whether the tasks completed or failed;
    when the engine raises an error for both, the table is left exactly as
    it was, so that nothing in the session tells of the deployment. *)
Theorem deploy_returns_both_ids (st : State) (sessionId : string)
    (session : TeamSession) (runs : nat -> Run) (order : list nat) :
  members config <> [] ->
  activeSessions st !! sessionId = Some session ->
  fst (deployToStaging config st sessionId runs order)
  = Ok (run_taskId (runs 0%nat) ++ ", " ++ run_taskId (runs 1%nat))
  /\ ((forall i q, exists error, engine (runs i) q = raises error) ->
      snd (deployToStaging config st sessionId runs order) = st).
Proof.
  intros Hne Hs. unfold deployToStaging, executeParallelTasks. rewrite Hs.
  destruct (promiseAll_settle config st sessionId deployTasks runs Hne)
    as (results & -> & Hlen & Hnth).
  cbn [fst snd]. split.
  - destruct results as [|r0 [|r1 [|r2 results]]]; try discriminate.
    destruct (Hnth 0%nat _ eq_refl) as (m0 & _ & H0).
    destruct (Hnth 1%nat _ eq_refl) as (m1 & _ & H1).
    cbn in H0, H1. injection H0 as ->. injection H1 as ->.
    cbn [map join]. by rewrite !executeTask_taskId.
  - intros Hraise. apply finish_all_raise.
    intros i task member run Hi.
    apply list_lookup_imap_Some in Hi as (t & _ & Hi).
    unfold prepare in Hi. destruct (selectTeamMember config t); [|discriminate].
    injection Hi as Htask Hmember Hrun. subst task member run. apply Hraise.
Qed.

End ProjectFacts.

(** ** HookManager: the security-audit hook *)

Section HookFacts.
Context `{Runtime}.
Import RegexLanguage PermissionWords HookManager.

Lemma matchEnds_spec (r : re) (s rest : string) :
  In rest (matchEnds r s) <-> exists m, s = m ++ rest /\ lang r m.
Proof.
  revert r. induction s as [|c s IH]; intros r; cbn [matchEnds].
  - rewrite app_nil_r. split.
    + destruct (nullable r) eqn:Hn; [|intros []].
      intros [<-|[]]. exists "". split; [reflexivity|]. by apply nullable_lang.
    + intros (m & Heq & Hm). symmetry in Heq.
      apply append_eq_nil in Heq as [-> ->].
      apply nullable_lang in Hm. rewrite Hm. by left.
  - rewrite in_app_iff, IH. split.
    + intros [Hhere|(m & -> & Hm)].
      * destruct (nullable r) eqn:Hn; [|destruct Hhere].
        destruct Hhere as [<-|[]]. exists "". split; [reflexivity|].
        by apply nullable_lang.
      * exists (String c m). split; [reflexivity|]. by apply deriv_lang.
    + intros ([|a m] & Heq & Hm).
      * left. change (String c s = rest) in Heq. subst rest.
        apply nullable_lang in Hm. rewrite Hm. by left.
      * right. rewrite append_cons in Heq. injection Heq as <- ->.
        exists m. split; [reflexivity|]. by apply deriv_lang.
Qed.

Lemma suffixes_spec (s t : string) :
  In t (suffixes s) <-> exists pre, s = pre ++ t.
Proof.
  induction s as [|c s IH].
  - cbn. split.
    + intros [<-|[]]. by exists "".
    + intros (pre & Heq). symmetry in Heq.
      apply append_eq_nil in Heq as [_ ->]. by left.
  - cbn [suffixes In]. rewrite IH. split.
    + intros [<-|(pre & ->)]; [by exists ""|]. by exists (String c pre).
    + intros ([|a pre] & Heq).
      * left. exact Heq.
      * right. rewrite append_cons in Heq. injection Heq as <- ->. by exists pre.
Qed.

Lemma ahead_spec (b : re) (s : string) :
  ahead b s = true <-> exists m post, s = m ++ post /\ lang b m.
Proof.
  unfold ahead. rewrite fullMatch_lang, lang_cat_iff. split.
  - intros (m & post & -> & Hm & _). eauto.
  - intros (m & post & -> & Hm). exists m, post.
    split; [reflexivity|]. split; [exact Hm|apply lang_any].
Qed.

Lemma testNotFollowed_spec (a b : re) (s : string) :
  testNotFollowed a b s = true
  <-> exists pre m rest,
        s = pre ++ m ++ rest /\ lang a m
        /\ ~ (exists x post, rest = x ++ post /\ lang b x).
Proof.
  unfold testNotFollowed. rewrite existsb_exists. split.
  - intros (t & Ht & Hex). apply existsb_exists in Hex as (rest & Hrest & Hno).
    apply suffixes_spec in Ht as (pre & ->).
    apply matchEnds_spec in Hrest as (m & -> & Hm).
    exists pre, m, rest. split; [reflexivity|]. split; [exact Hm|].
    intros Hfollowed. apply ahead_spec in Hfollowed. rewrite Hfollowed in Hno.
    discriminate.
  - intros (pre & m & rest & -> & Hm & Hno).
    exists (m ++ rest). split; [apply suffixes_spec; eauto|].
    apply existsb_exists. exists rest. split; [apply matchEnds_spec; eauto|].
    destruct (ahead b rest) eqn:Ha; [|reflexivity].
    exfalso. apply Hno. by apply ahead_spec.
Qed.

Lemma lang_same_line (w x : string) :
  lang (Cat (Star dot) (lit w)) x
  <-> exists mid, x = mid ++ w /\ allChars isDot mid = true.
Proof.
  rewrite lang_cat_iff. split.
  - intros (mid & s & -> & Hmid & Hs). apply lang_lit in Hs as ->.
    apply lang_star_sym in Hmid. eauto.
  - intros (mid & -> & Hmid). exists mid, w. split; [reflexivity|].
    split; [by apply lang_star_sym | by apply lang_lit].
Qed.

Lemma followed_same_line (w rest : string) :
  (exists x post, rest = x ++ post /\ lang (Cat (Star dot) (lit w)) x)
  <-> onSameLine w rest.
Proof.
  unfold onSameLine. split.
  - intros (x & post & -> & Hx). apply lang_same_line in Hx as (mid & -> & Hmid).
    exists mid, post. split; [by rewrite append_assoc_string | exact Hmid].
  - intros (mid & post & -> & Hmid). exists (mid ++ w), post.
    split; [by rewrite append_assoc_string|].
    apply lang_same_line. eauto.
Qed.

Lemma lang_word_gap (a mid : string) :
  lang (Cat (lit a) (Plus ws)) mid <-> exists w, mid = a ++ w /\ blank w.
Proof.
  rewrite lang_cat_iff. split.
  - intros (s1 & w & -> & H1 & Hw). apply lang_lit in H1 as ->.
    apply lang_plus_sym in Hw. eauto.
  - intros (w & -> & Hw). exists a, w. split; [reflexivity|].
    split; [by apply lang_lit | by apply lang_plus_sym].
Qed.

Lemma hookPatterns_signature (c : string) :
  existsb (fun pattern => pattern c) dangerousPatterns = true <-> blockedSignature c.
Proof.
  unfold dangerousPatterns, blockedSignature. cbn [existsb].
  rewrite !orb_true_iff, testNotFollowed_spec, !test_floating.
  assert (Hfalse : false = true <-> False) by (split; [discriminate|contradiction]).
  rewrite Hfalse. clear Hfalse.
  split.
  - intros [(pre & mid & rest & -> & Hmid & Hno)|[(pre & mid & post & -> & Hmid)|
            [(pre & mid & post & -> & Hmid)|[(pre & mid & post & -> & Hmid)|
            [(pre & mid & post & -> & Hmid)|[]]]]]].
    + apply lang_recursive_delete in Hmid as (w1 & w2 & -> & Hw1 & Hw2).
      left. exists pre, w1, w2, rest.
      split; [by rewrite !append_assoc_string|].
      split; [exact Hw1|]. split; [exact Hw2|].
      intros Hline. apply Hno. by apply followed_same_line.
    + apply lang_word_gap in Hmid as (w & -> & Hw).
      right; left. exists pre, w, post.
      split; [by rewrite !append_assoc_string | exact Hw].
    + apply lang_piped_shell in Hmid as (x & w & -> & Hx & Hw).
      do 2 right; left. exists pre, x, w, post.
      split; [by rewrite !append_assoc_string | tauto].
    + apply lang_piped_shell in Hmid as (x & w & -> & Hx & Hw).
      do 3 right; left. exists pre, x, w, post.
      split; [by rewrite !append_assoc_string | tauto].
    + apply lang_word_gap_word in Hmid as (w & -> & Hw).
      do 4 right. exists pre, w, post.
      split; [by rewrite !append_assoc_string | tauto].
  - intros [(pre & w1 & w2 & rest & -> & Hw1 & Hw2 & Hno)|
            [(pre & w & post & -> & Hw)|[(pre & x & w & post & -> & Hx & Hw)|
            [(pre & x & w & post & -> & Hx & Hw)|(pre & w & post & -> & Hw)]]]].
    + left. exists pre, ("rm" ++ w1 ++ "-rf" ++ w2 ++ "/"), rest.
      split; [by rewrite !append_assoc_string|].
      split; [apply lang_recursive_delete; exists w1, w2; tauto|].
      intros Hfollowed. apply Hno. by apply followed_same_line.
    + right; left. exists pre, ("sudo" ++ w), post.
      split; [by rewrite !append_assoc_string|].
      apply lang_word_gap. eauto.
    + do 2 right; left. exists pre, ("curl" ++ x ++ "|" ++ w ++ "sh"), post.
      split; [by rewrite !append_assoc_string|].
      apply lang_piped_shell. exists x, w. tauto.
    + do 3 right; left. exists pre, ("wget" ++ x ++ "|" ++ w ++ "sh"), post.
      split; [by rewrite !append_assoc_string|].
      apply lang_piped_shell. exists x, w. tauto.
    + do 4 right; left. exists pre, ("dd" ++ w ++ "if="), post.
      split; [by rewrite !append_assoc_string|].
      apply lang_word_gap_word. exists w. tauto.
Qed.

(** X30.  The security-audit hook blocks a call exactly when the tool is
    [Bash] and the text of the command has one of the five forms; in every
    other case it answers with [continue: true].  The first form is a
    recursive delete of a path from the root that the word [workspace] does
    not follow on the same line: where the word follows, anywhere up to the
    end of the line, the delete is not blocked by this form.  The text is
    the [command] of the tool input when that is a string, and the empty
    string when the input has no command. *)
Theorem security_audit_blocks (input : HookInput) :
  (securityAudit input = blocked
   <-> tool_name input = Some "Bash" /\ blockedSignature (commandText input))
  /\ (securityAudit input = blocked \/ securityAudit input = proceed)
  /\ (forall props c,
        tool_input input = JsObject props ->
        assoc "command" props = JsString c -> commandText input = c)
  /\ (forall props,
        tool_input input = JsObject props ->
        assoc "command" props = JsUndefined -> commandText input = "").
Proof.
  split; [|split; [|split]].
  - unfold securityAudit. case_bool_decide as Ht.
    + rewrite <- hookPatterns_signature.
      destruct (existsb _ dangerousPatterns); split; try tauto; try discriminate.
      intros [_ Hf]. discriminate.
    + split; [discriminate|]. intros [Hyes _]. contradiction.
  - unfold securityAudit. case_bool_decide; [|by right].
    destruct (existsb _ dangerousPatterns); [by left | by right].
  - intros props c Hin Hc. unfold commandText, optionalProp, orEmpty.
    rewrite Hin, Hc. cbn [truthy].
    destruct (String.eqb_spec c "") as [->|_]; reflexivity.
  - intros props Hin Hc. unfold commandText, optionalProp, orEmpty.
    rewrite Hin, Hc. reflexivity.
Qed.

End HookFacts.


(** ** Further worked examples *)

Section RuleExamples.
Import RegexLanguage PermissionWords PermissionSequences TeamConfig Requests.

Lemma exact_command_rule_witness :
  endsWith "git status" ":*" = false
  /\ "git status" <> "dangerous"
  /\ matchesBashRule "git status" (JsString "git status --short") = Ok false.
Proof.
  split; [reflexivity|]. split; [discriminate|].
  exact (exact_command_rule "git status" "git status --short" eq_refl
           ltac:(discriminate)).
Defined.

Lemma rule_for_other_tool_witness :
  ~ namesTool "Write(.env)" "Read"
  /\ matchesRule "Write(.env)" "Read" (filePath ".env") = Ok false.
Proof.
  assert (Hother : ~ namesTool "Write(.env)" "Read").
  { intros [Hname|Hname]; vm_compute in Hname; discriminate Hname. }
  split; [exact Hother|].
  exact (rule_for_other_tool "Write(.env)" "Read" (filePath ".env") Hother).
Defined.

Lemma scoped_rule_needs_field_witness :
  parseRule "Write(.env)" = Some ("Write", Some ".env")
  /\ toolField "Write" = Some "file_path"
  /\ matchesRule "Write(.env)" "Write" (JsObject [("content", JsString "x")])
     = Ok false.
Proof.
  split; [reflexivity|]. split; [reflexivity|].
  exact (scoped_rule_needs_field "Write(.env)" "Write" "Write" ".env" "file_path"
           [("content", JsString "x")] eq_refl ltac:(discriminate) eq_refl eq_refl).
Defined.

Lemma audit_log_eviction_witness :
  let entry := entryOf policy (0%Z, request "Read" (filePath "/old")) in
  let full := replicate 1000 entry in
  (length full <= 1000)%nat
  /\ length (snd (evaluatePermission policy full 7 (request "Read" (filePath "/new"))))
     = 500%nat.
Proof.
  cbv zeta. split; [rewrite length_replicate; lia|].
  destruct (audit_log_eviction policy
              (replicate 1000 (entryOf policy (0%Z, request "Read" (filePath "/old"))))
              7 (request "Read" (filePath "/new")))
    as [Hlog _].
  - rewrite length_replicate. lia.
  - rewrite Hlog. rewrite length_replicate.
    destruct (decide (1000 < 1000)%nat) as [Hlt|_]; [lia|].
    rewrite length_app, length_drop, length_replicate. reflexivity.
Defined.

Lemma default_by_tool_alone_witness :
  (forall rule, rule ∈ allRules policy -> ~ namesTool rule "Grep")
  /\ fst (evaluatePermission policy [] 0 (request "Grep" (JsObject [])))
     = mkResult Allow None None None.
Proof.
  assert (Hnone : forall rule, rule ∈ allRules policy -> ~ namesTool rule "Grep").
  { intros rule Hin. cbn in Hin.
    repeat (apply elem_of_cons in Hin as [->|Hin];
            [intros [Hname|Hname]; vm_compute in Hname; discriminate Hname|]).
    apply elem_of_nil in Hin. destruct Hin. }
  split; [exact Hnone|].
  apply (default_by_tool_alone policy [] 0 (request "Grep" (JsObject [])) Hnone).
  cbn. set_solver.
Defined.

Lemma default_editing_containment_witness :
  let ctx := request "Edit" (filePath "/home/dev/workspace/app.ts") in
  (forall rule, rule ∈ allRules policy -> ~ namesTool rule (toolName ctx))
  /\ toolName ctx ∈ editingTools
  /\ behavior (fst (evaluatePermission policy [] 0 ctx)) = Allow.
Proof.
  cbv zeta.
  assert (Hnone : forall rule, rule ∈ allRules policy -> ~ namesTool rule "Edit").
  { intros rule Hin. cbn in Hin.
    repeat (apply elem_of_cons in Hin as [->|Hin];
            [intros [Hname|Hname]; vm_compute in Hname; discriminate Hname|]).
    apply elem_of_nil in Hin. destruct Hin. }
  assert (Hedit : "Edit" ∈ editingTools) by (cbn; set_solver).
  split; [exact Hnone|]. split; [exact Hedit|].
  apply (default_editing_containment policy [] 0
           (request "Edit" (filePath "/home/dev/workspace/app.ts"))
           [("file_path", JsString "/home/dev/workspace/app.ts")]
           "/home/dev/workspace/app.ts" Hnone Hedit eq_refl eq_refl).
  exists "/home/dev", "app.ts". reflexivity.
Defined.

Lemma default_bash_first_word_witness :
  let rules := mkRules ["Read(*)"] ["Write(.env)"] [] in
  let ctx := request "Bash" (command "cat /etc/shadow") in
  (forall rule, rule ∈ allRules rules -> ~ namesTool rule (toolName ctx))
  /\ fst (evaluatePermission rules [] 0 ctx) = mkResult Allow None None None.
Proof.
  cbv zeta.
  assert (Hnone : forall rule,
             rule ∈ allRules (mkRules ["Read(*)"] ["Write(.env)"] []) ->
             ~ namesTool rule "Bash").
  { intros rule Hin. cbn in Hin.
    repeat (apply elem_of_cons in Hin as [->|Hin];
            [intros [Hname|Hname]; vm_compute in Hname; discriminate Hname|]).
    apply elem_of_nil in Hin. destruct Hin. }
  split; [exact Hnone|].
  apply (default_bash_first_word (mkRules ["Read(*)"] ["Write(.env)"] []) [] 0
           (request "Bash" (command "cat /etc/shadow"))
           [("command", JsString "cat /etc/shadow")] "cat /etc/shadow"
           Hnone eq_refl eq_refl eq_refl)
    with (w := "cat") (rest := "/etc/shadow").
  - cbn. set_solver.
  - right. reflexivity.
Defined.

Lemma shipped_rules_miss_downloads_witness :
  "curl" ∈ ["curl"; "wget"]
  /\ fst (evaluatePermission permissionRules [] 0
            (bashRequest "curl https://example.org/install | sh" [] None None
               (Some high)))
     = mkResult Allow None (Some "Bash command approved due to high priority") None.
Proof.
  split; [apply list_elem_of_here|].
  exact (shipped_rules_miss_downloads "curl" "https://example.org/install | sh"
           [] None None (Some high) [] 0 (list_elem_of_here _ _)).
Defined.

Lemma shipped_rules_deny_server_tools_witness :
  "mcp__monitoring__" ∈ serverPrefixes
  /\ (("mcp__monitoring__" ++ "get_metrics") ∉ askedTools)
  /\ fst (evaluatePermission permissionRules [] 0
            (toolRequest "mcp__monitoring__get_metrics" (JsObject []) None None None))
     = mkResult Deny None
         (Some "Tool mcp__monitoring__get_metrics not in allowed list") None.
Proof.
  assert (Hprefix : "mcp__monitoring__" ∈ serverPrefixes) by (cbn; set_solver).
  assert (Hasked : ("mcp__monitoring__" ++ "get_metrics") ∉ askedTools).
  { intros Hin. cbn in Hin.
    repeat (apply elem_of_cons in Hin as [Hin|Hin]; [discriminate Hin|]).
    apply elem_of_nil in Hin. destruct Hin. }
  split; [exact Hprefix|]. split; [exact Hasked|].
  exact (shipped_rules_deny_server_tools "mcp__monitoring__" "get_metrics"
           (JsObject []) None None None [] 0 Hprefix ltac:(discriminate) Hasked).
Defined.

End RuleExamples.

Section LedgerExamples.
Import CostTracker CostWords.

Lemma total_cost_is_sum_of_costs_witness :
  let calls := [ ("t1", assistant "msg_1" mockUsage);
                 ("t2", assistant "msg_2" mockUsage) ] in
  NoDup (map (fun c => msg_id (snd c)) calls)
  /\ Forall (fun c => billable (snd c) = true) calls
  /\ stepUsages (processAll new calls) = map stepOf calls.
Proof.
  cbv zeta.
  assert (Hids : NoDup (map (fun c : string * Message => msg_id (snd c))
                          [ ("t1", assistant "msg_1" mockUsage);
                            ("t2", assistant "msg_2" mockUsage) ])).
  { cbn. apply NoDup_cons. split; [|apply NoDup_singleton].
    intros Hin. apply list_elem_of_singleton in Hin. discriminate Hin. }
  assert (Hbill : Forall (fun c : string * Message => billable (snd c) = true)
                    [ ("t1", assistant "msg_1" mockUsage);
                      ("t2", assistant "msg_2" mockUsage) ]).
  { repeat constructor. }
  split; [exact Hids|]. split; [exact Hbill|].
  exact (proj1 (total_cost_is_sum_of_costs _ Hids Hbill)).
Defined.

Lemma reset_forgets_identifiers_witness :
  let m := assistant "msg_1" mockUsage in
  let st1 := snd (processMessage new "t1" m) in
  processMessage new "t1" m = (Some (stepOf ("t1", m)), st1)
  /\ fst (processMessage st1 "t2" m) = None
  /\ fst (processMessage (reset st1) "t2" m) = Some (stepOf ("t2", m)).
Proof.
  cbv zeta.
  assert (Hfirst : processMessage new "t1" (assistant "msg_1" mockUsage)
                   = (Some (stepOf ("t1", assistant "msg_1" mockUsage)),
                      snd (processMessage new "t1" (assistant "msg_1" mockUsage))))
    by (vm_compute; reflexivity).
  split; [exact Hfirst|]. split; [vm_compute; reflexivity|].
  destruct (reset_forgets_identifiers new "t1" "t2" (assistant "msg_1" mockUsage)
              _ _ Hfirst) as (_ & _ & Hagain).
  rewrite Hagain. reflexivity.
Defined.

End LedgerExamples.

Section TeamExamples.
Import CostTracker TeamManager TeamWords AgenticDevTeam.

Lemma selection_follows_roster_witness :
  members team = ([] ++ developer :: [])%list
  /\ suits feature developer = true
  /\ selectTeamMember team feature = Some developer.
Proof.
  split; [reflexivity|]. split; [reflexivity|].
  exact (proj1 (selection_follows_roster team feature [] developer [] eq_refl)
           (Forall_nil_2 _) eq_refl).
Defined.

Lemma parallel_tasks_recorded_witness :
  let st := snd (startTeamSession team new "Batch" "session_1" 0) in
  members team <> []
  /\ exists results finished session',
       fst (executeParallelTasks team st "session_1" [feature; feature; tests]
              mixedRuns [2%nat; 0%nat]) = Ok results
       /\ getSessionStatus
            (snd (executeParallelTasks team st "session_1" [feature; feature; tests]
                    mixedRuns [2%nat; 0%nat])) "session_1" = Some session'
       /\ completedTasks session' = finished
       /\ finished ≡ₚ filter (fun r => status r = completed) results.
Proof.
  cbv zeta. split; [discriminate|].
  destruct (parallel_tasks_recorded team
              (snd (startTeamSession team new "Batch" "session_1" 0)) "session_1"
              (mkSession "session_1" "Batch" 0 "/ws" [] [] [] 0%float emptyUsage)
              [feature; feature; tests] mixedRuns [2%nat; 0%nat]
              ltac:(discriminate) ltac:(vm_compute; reflexivity))
    as (results & finished & session' & Hres & Hs & Hc & _ & Hperm & _).
  exists results, finished, session'.
  split; [exact Hres|]. split; [exact Hs|]. split; [exact Hc|exact Hperm].
Defined.

Lemma assigned_task_recorded_witness :
  let st := snd (startTeamSession team new "Solo" "session_1" 0) in
  members team <> []
  /\ exists session',
       fst (assignTask team st "session_1" feature (fails "task_x")) = Ok "task_x"
       /\ getSessionStatus (snd (assignTask team st "session_1" feature (fails "task_x")))
            "session_1" = Some session'
       /\ length (currentTasks session') = 1%nat
       /\ completedTasks session' = [].
Proof.
  cbv zeta. split; [discriminate|].
  destruct (assigned_task_recorded team
              (snd (startTeamSession team new "Solo" "session_1" 0)) "session_1"
              (mkSession "session_1" "Solo" 0 "/ws" [] [] [] 0%float emptyUsage)
              feature (fails "task_x")
              ltac:(discriminate) ltac:(vm_compute; reflexivity))
    as (member & r & session' & Hsel & Hid & Hr & Hs & Ht & _ & Hc & _).
  exists session'. split; [exact Hid|]. split; [exact Hs|].
  split; [rewrite Ht; reflexivity|].
  rewrite Hc, Hr. vm_compute in Hsel. injection Hsel as <-. reflexivity.
Defined.

Lemma completed_tasks_all_completed_witness :
  exists session,
    getSessionStatus (after team busy) "session_1" = Some session
    /\ length (completedTasks session) = 3%nat
    /\ Forall recordedResult (completedTasks session).
Proof.
  eexists. split; [vm_compute; reflexivity|].
  split; [reflexivity|].
  apply (completed_tasks_all_completed team busy "session_1" _ 0).
  vm_compute. reflexivity.
Defined.

Lemma assignments_agree_witness :
  exists session,
    getSessionStatus (after team busy) "session_1" = Some session
    /\ activeMembers session = ["full-stack"]
    /\ assignmentsAgree team session.
Proof.
  eexists. split; [vm_compute; reflexivity|].
  split; [reflexivity|].
  apply (assignments_agree team busy "session_1").
  vm_compute. reflexivity.
Defined.

Lemma other_sessions_untouched_witness :
  let later := [ StartTeamSession "Next" "session_2" 100;
                 AssignTask "session_2" feature (succeeds "task_9");
                 EndSession "session_2" 120 written ] in
  Forall (fun c => target c <> "session_1") later
  /\ getSessionStatus (fold_left (step team) later (after team busy)) "session_1"
     = getSessionStatus (after team busy) "session_1".
Proof.
  cbv zeta.
  assert (Hlater : Forall (fun c => target c <> "session_1")
                     [ StartTeamSession "Next" "session_2" 100;
                       AssignTask "session_2" feature (succeeds "task_9");
                       EndSession "session_2" 120 written ]).
  { repeat (apply Forall_cons; split; [discriminate|]). apply Forall_nil_2. }
  split; [exact Hlater|].
  exact (other_sessions_untouched team (after team busy) _ "session_1" Hlater).
Defined.

Lemma history_only_grows_witness :
  let st := snd (startTeamSession team new "Solo" "session_1" 0) in
  let s := mkSession "session_1" "Solo" 0 "/ws" [] [] [] 0%float emptyUsage in
  let c := AssignTask "session_1" feature (succeeds "task_1") in
  activeSessions st !! "session_1" = Some s
  /\ ~ restarts "session_1" c
  /\ exists s', getSessionStatus (step team st c) "session_1" = Some s'
                /\ currentTasks s `prefix_of` currentTasks s'
                /\ session_name s' = "Solo".
Proof.
  cbv zeta.
  assert (Hs : activeSessions (snd (startTeamSession team new "Solo" "session_1" 0))
                 !! "session_1"
               = Some (mkSession "session_1" "Solo" 0 "/ws" [] [] [] 0%float emptyUsage))
    by (vm_compute; reflexivity).
  assert (Hc : ~ restarts "session_1"
                 (AssignTask "session_1" feature (succeeds "task_1")))
    by (intros []).
  split; [exact Hs|]. split; [exact Hc|].
  pose proof (history_only_grows team _ _ _ _ Hs Hc) as Hgrow.
  destruct (getSessionStatus _ "session_1") as [s'|] eqn:Hs'.
  - exists s'. destruct Hgrow as ((_ & Hname & _) & _ & Hcur & _).
    split; [reflexivity|]. split; [exact Hcur|exact Hname].
  - destruct Hgrow as (now & writeFile & Hcall). discriminate Hcall.
Defined.

Lemma new_project_setup_witness :
  members team <> []
  /\ exists session,
       fst (startNewProject team new "Demo" "session_1" 0 mixedRuns) = Ok "session_1"
       /\ getProjectStatus (snd (startNewProject team new "Demo" "session_1" 0 mixedRuns))
            "session_1" = Some session
       /\ session_name session = "Demo"
       /\ (length (completedTasks session) <= 3)%nat.
Proof.
  split; [discriminate|].
  destruct (new_project_setup team new "Demo" "session_1" 0 mixedRuns
              ltac:(discriminate))
    as (session & Hid & Hs & _ & Hname & _ & _ & _ & _ & Hlen).
  exists session. split; [exact Hid|]. split; [exact Hs|]. split; assumption.
Defined.

Lemma new_project_on_empty_team_witness :
  members nobody = []
  /\ fst (startNewProject nobody new "Demo" "session_1" 0 mixedRuns)
     = Throw (TypeError "Cannot read properties of undefined (reading 'id')")
  /\ is_Some (getProjectStatus
                (snd (startNewProject nobody new "Demo" "session_1" 0 mixedRuns))
                "session_1").
Proof.
  split; [reflexivity|].
  destruct (new_project_on_empty_team nobody new "Demo" "session_1" 0 mixedRuns
              eq_refl) as [Hthrow Hleft].
  split; [exact Hthrow|]. rewrite Hleft. eauto.
Defined.

Lemma deploy_returns_both_ids_witness :
  let st := snd (startTeamSession team new "Release" "session_1" 0) in
  members team <> []
  /\ fst (deployToStaging team st "session_1" (fun _ => fails "task_f") [])
     = Ok "task_f, task_f"
  /\ snd (deployToStaging team st "session_1" (fun _ => fails "task_f") []) = st.
Proof.
  cbv zeta. split; [discriminate|].
  destruct (deploy_returns_both_ids team
              (snd (startTeamSession team new "Release" "session_1" 0)) "session_1"
              (mkSession "session_1" "Release" 0 "/ws" [] [] [] 0%float emptyUsage)
              (fun _ => fails "task_f") []
              ltac:(discriminate) ltac:(vm_compute; reflexivity))
    as [Hids Hsame].
  split; [exact Hids|]. apply Hsame. intros i q. eexists. reflexivity.
Defined.

End TeamExamples.
